(** * The v2 local app data of realm-cli: the on-disk layout and its
      in-memory model

    This development embeds [internal/local/app_data_v2.go] (the loader
    [LoadData], the writer [WriteData] and the section parsers and writers
    they call) and states the properties of the converter between a
    directory tree and the in-memory application model.

    Conventions of the embedding:
    - a Go [map[string]interface{}] is an [option (gmap string json)]: [None]
      is the nil map, which the source tests for and which cannot be written
      into; a Go slice is a [list] (a nil slice and an empty slice, which the
      source never tells apart, are both [[]]);
    - the file system is a tree of directories and files; a path is the list
      of its segments below the file system root;
    - the bytes of a file are represented by what was serialised into them:
      [JSONText v] for the output of the JSON encoder on [v], [RawText s] for
      text written as it is.  The JSON codec itself is not under study: the
      decoder gives back [v] on [JSONText v] and rejects [RawText];
    - functions that return a Go [error] return a [result]; the writers also
      thread the file system, and keep what was written before a failure. *)

From Stdlib Require Import Ascii.
From stdpp Require Import gmap strings list fin_maps sorting pretty.

(** ** JSON values and documents *)

(** The dynamic values a [map[string]interface{}] holds after decoding JSON.
    Numbers are restricted to integers. *)
#[warnings="-register-all"]
Inductive json :=
  | JNull
  | JBool (b : bool)
  | JNum (z : Z)
  | JStr (s : string)
  | JArr (l : list json)
  | JObj (m : gmap string json).

(** A non-nil document. *)
Abbreviation Document := (gmap string json).

(** [m[k]] on a possibly nil map: the zero value (nil) when the key is
    missing. *)
Definition index (m : option Document) (k : string) : json :=
  default JNull (m ≫= (.!! k)).

(** [v.(string)]: the comma-ok type assertion. *)
Definition as_string (v : json) : option string :=
  match v with JStr s => Some s | _ => None end.

(** A map stored in an [interface{}] or handed to the encoder; the nil map
    encodes as [null]. *)
Definition doc_json (d : option Document) : json :=
  match d with Some m => JObj m | None => JNull end.

Definition docs_json (ds : list (option Document)) : json :=
  JArr (doc_json <$> ds).

(** The loop [for k, v := range m { tmp[k] = v }] into a fresh map. *)
Definition copy_map (m : option Document) : Document :=
  match m with
  | Some d => map_fold (λ k v tmp, <[k:=v]> tmp) ∅ d
  | None => ∅
  end.

(** ** The file system *)

Definition path := list string.

Inductive content :=
  | JSONText (v : json)
  | RawText (s : string).

#[warnings="-register-all"]
Inductive node :=
  | File (data : content)
  | Dir (entries : gmap string node).

Inductive error :=
  | ErrorString (msg : string)      (* errors.New(msg) *)
  | ErrNotDir (p : path)            (* a file where a directory is needed *)
  | ErrIsDir (p : path)             (* a directory where a file is needed *)
  | ErrMalformed (p : path)         (* the file does not decode *)
  | ErrNilMap                       (* assignment to an entry of a nil map *)
  | ErrSection (msg : string).      (* raised by a section kept abstract *)

Inductive result (A : Type) :=
  | Ok (a : A)
  | Err (e : error).
Arguments Ok {A} a.
Arguments Err {A} e.

Definition rbind {A B} (r : result A) (k : A → result B) : result B :=
  match r with Ok a => k a | Err e => Err e end.

(** Code that returns an [error] and mutates a state [S]: the state reached
    before a failure is kept. *)
Definition St (S A : Type) : Type := S → result A * S.

Definition ret {S A} (a : A) : St S A := λ s, (Ok a, s).
Definition fail {S A} (e : error) : St S A := λ s, (Err e, s).
Definition bind {S A B} (m : St S A) (k : A → St S B) : St S B :=
  λ s, match m s with
       | (Ok a, s') => k a s'
       | (Err e, s') => (Err e, s')
       end.
Definition lift {S A} (r : result A) : St S A := λ s, (r, s).
Definition modify {S} (f : S → S) : St S unit := λ s, (Ok tt, f s).

(** The writers run on the file tree. *)
Abbreviation M := (St node).

Declare Scope go_scope.
Delimit Scope go_scope with go.
Notation "m1 ;; m2" := (bind m1 (λ _, m2))
  (at level 100, m2 at level 200, right associativity) : go_scope.
Notation "'do' x ← m1 ; m2" := (bind m1 (λ x, m2))
  (at level 10, x name, m1 at level 100, m2 at level 200) : go_scope.
Notation "'let*' x := m1 'in' m2" := (rbind m1 (λ x, m2))
  (at level 10, x name, m1 at level 100, m2 at level 200) : go_scope.
Open Scope go_scope.

(** [for _, x := range xs { if err := f x; err != nil { return err } }] *)
Fixpoint for_each {S A} (f : A → St S unit) (xs : list A) : St S unit :=
  match xs with
  | [] => ret tt
  | x :: xs' => f x ;; for_each f xs'
  end.

(** The same loop in a reader that accumulates a value. *)
Fixpoint fold_result {A B} (f : A → B → result B) (xs : list A) (acc : B)
    : result B :=
  match xs with
  | [] => Ok acc
  | x :: xs' => let* acc' := f x acc in fold_result f xs' acc'
  end.

(** *** Paths: [filepath.Join], [filepath.Ext], [filepath.Rel] *)

(** The segments of a slash-separated string; [cur] is the segment being
    read. *)
Fixpoint split_go (cur : string) (s : string) : list string :=
  match s with
  | "" => [String.rev cur]
  | String c s' =>
      if Ascii.eqb c "/"%char then String.rev cur :: split_go "" s'
      else split_go (String c cur) s'
  end.
Definition split (s : string) : list string := split_go "" s.

(** One step of [filepath.Clean] on a rooted path. *)
Definition clean_step (p : path) (seg : string) : path :=
  if decide (seg = "" ∨ seg = ".") then p
  else if decide (seg = "..") then removelast p
  else p ++ [seg].

(** [filepath.Join(base, elems...)] for a cleaned rooted [base]. *)
Definition Join (base : path) (elems : list string) : path :=
  foldl clean_step base (elems ≫= split).

(** [filepath.Ext] of a file name: the suffix from its last dot. *)
Fixpoint Ext (name : string) : string :=
  match name with
  | "" => ""
  | String c s' =>
      match Ext s' with
      | "" => if Ascii.eqb c "."%char then name else ""
      | e => e
      end
  end.

Definition path_ext (p : path) : string :=
  match last p with Some name => Ext name | None => "" end.

(** [filepath.Rel(dir, p)] for a [p] below [dir], as the walker produces
    them. *)
Definition Rel (dir p : path) : string :=
  String.concat "/" (drop (length dir) p).

(** *** [os.Stat], [os.MkdirAll] and directory listings *)

Inductive stat_result :=
  | StatNode (n : node)
  | StatNotExist
  | StatNotDir.

Fixpoint Stat (p : path) (t : node) : stat_result :=
  match p with
  | [] => StatNode t
  | n :: p' =>
      match t with
      | File _ => StatNotDir
      | Dir es =>
          match es !! n with
          | Some ch => Stat p' ch
          | None => StatNotExist
          end
      end
  end.

Definition is_dir (n : node) : bool :=
  match n with Dir _ => true | File _ => false end.

Fixpoint mkdir_at (p : path) (t : node) : option node :=
  match t with
  | File _ => None
  | Dir es =>
      match p with
      | [] => Some t
      | n :: p' =>
          ch ← mkdir_at p' (default (Dir ∅) (es !! n));
          Some (Dir (<[n:=ch]> es))
      end
  end.

Definition MkdirAll (p : path) : M unit :=
  λ t, match mkdir_at p t with
       | Some t' => (Ok tt, t')
       | None => (Err (ErrNotDir p), t)
       end.

(** The names in a directory, sorted as [ioutil.ReadDir] returns them. *)
Definition ReadDir (es : gmap string node) : list string :=
  merge_sort String.le (map_to_list es).*1.

(** *** The document codec and [WriteFile] *)

Definition dquote : string := String "034"%char "".

(** Modelled from the spec: the text [MarshalJSON] produces (the helper is
    declared outside this file).  Section 4.1 fixes a stable, lexicographic
    key order; the indentation is left out.  Only a reader that takes a JSON
    file as plain text sees this text. *)
Fixpoint json_text (v : json) : string :=
  match v with
  | JNull => "null"
  | JBool b => if b then "true" else "false"
  | JNum z => pretty z
  | JStr s => dquote +:+ s +:+ dquote
  | JArr l => "[" +:+ String.concat "," (json_text <$> l) +:+ "]"
  | JObj m =>
      let fields := json_text <$> m in
      let keys := merge_sort String.le (map_to_list fields).*1 in
      "{" +:+ String.concat ","
                ((λ k, dquote +:+ k +:+ dquote +:+ ":" +:+ default "" (fields !! k))
                   <$> keys)
          +:+ "}"
  end.

(** [string(data)] for the bytes of a file. *)
Definition text_of (c : content) : string :=
  match c with
  | RawText s => s
  | JSONText v => json_text v
  end.

(** Modelled from the spec: [MarshalJSON] (declared outside this file). *)
Definition MarshalJSON (v : json) : content := JSONText v.

(** [%v] of a [float64] that holds the integer [z]: the shortest digits,
    in exponent form from seven digits on ([1e+06], [1.234567e+06]), as
    [strconv] formats with ['g'].  The digits are those of [z] for the
    integers a [float64] holds exactly (below [2^53] in magnitude). *)
Fixpoint drop_zeros (s : string) : string :=
  match s with
  | String c s' => if Ascii.eqb c "0"%char then drop_zeros s' else s
  | EmptyString => s
  end.

Definition strip_zeros (s : string) : string :=
  String.rev (drop_zeros (String.rev s)).

Definition format_float (z : Z) : string :=
  let digits := pretty (Z.abs z) in
  let sign := if decide (z < 0)%Z then "-" else "" in
  let exp := (String.length digits - 1)%nat in
  if decide (exp < 6)%nat then sign +:+ digits
  else
    let mantissa :=
      match strip_zeros digits with
      | String d EmptyString => String d EmptyString
      | String d rest => String d ("." +:+ rest)
      | EmptyString => EmptyString
      end in
    sign +:+ mantissa +:+ "e+" +:+
    (if decide (exp < 10)%nat then "0" else "") +:+ pretty exp.

(** What [fmt] prints for a value under the verb [%s]: a string is printed
    as it is, a boolean or a number with Go's bad-verb marker, a slice and a
    map element by element (the keys of a map sorted).  A nil is marked as a
    bad verb when it is the operand itself ([top]) and printed as [<nil>]
    inside a slice or a map. *)
Fixpoint print_value_s (top : bool) (v : json) : string :=
  match v with
  | JStr s => s
  | JNull => if top then "%!s(<nil>)" else "<nil>"
  | JBool b => "%!s(bool=" +:+ (if b then "true" else "false") +:+ ")"
  | JNum z => "%!s(float64=" +:+ format_float z +:+ ")"
  | JArr l => "[" +:+ String.concat " " (print_value_s false <$> l) +:+ "]"
  | JObj m =>
      let fields := print_value_s false <$> m in
      let keys := merge_sort String.le (map_to_list fields).*1 in
      "map[" +:+ String.concat " "
                   ((λ k, k +:+ ":" +:+ default "" (fields !! k)) <$> keys)
             +:+ "]"
  end.

(** [fmt.Sprintf("%s", v)]. *)
Definition Sprintf_s (v : json) : string := print_value_s true v.

Fixpoint write_at (p : path) (c : content) (t : node) : option node :=
  match t with
  | File _ => None
  | Dir es =>
      match p with
      | [] => None
      | n :: p' =>
          match p' with
          | [] =>
              match es !! n with
              | Some (Dir _) => None
              | _ => Some (Dir (<[n:=File c]> es))
              end
          | _ :: _ =>
              ch ← write_at p' c (default (Dir ∅) (es !! n));
              Some (Dir (<[n:=ch]> es))
          end
      end
  end.

(** Modelled from the spec: [WriteFile] (declared outside this file), section
    4.1: creates the parent directories as needed and overwrites the file.
    It fails, changing nothing, when a file is in the way of a directory or a
    directory in the way of the file. *)
Definition WriteFile (p : path) (c : content) : M unit :=
  λ t, match write_at p c t with
       | Some t' => (Ok tt, t')
       | None => (Err (ErrIsDir p), t)
       end.

(** [ioutil.ReadFile]. *)
Definition ReadFile (p : path) (t : node) : result content :=
  match Stat p t with
  | StatNode (File c) => Ok c
  | StatNode (Dir _) => Err (ErrIsDir p)
  | _ => Err (ErrNotDir p)
  end.

(** Modelled from the spec: [parseJSON] (declared outside this file), section
    4.1: a missing file is no data, not an error; anything else that is not a
    JSON object is fatal.  JSON [null] decodes to the nil map. *)
Definition parseJSON (p : path) (t : node) : result (option Document) :=
  match Stat p t with
  | StatNotExist => Ok None
  | StatNotDir => Err (ErrNotDir p)
  | StatNode (Dir _) => Err (ErrIsDir p)
  | StatNode (File (JSONText (JObj m))) => Ok (Some m)
  | StatNode (File (JSONText JNull)) => Ok None
  | StatNode (File _) => Err (ErrMalformed p)
  end.

Definition json_doc (p : path) (v : json) : result (option Document) :=
  match v with
  | JObj m => Ok (Some m)
  | JNull => Ok None
  | _ => Err (ErrMalformed p)
  end.

Fixpoint json_docs (p : path) (l : list json) : result (list (option Document)) :=
  match l with
  | [] => Ok []
  | v :: l' =>
      let* d := json_doc p v in
      let* ds := json_docs p l' in
      Ok (d :: ds)
  end.

(** Modelled from the spec: [parseJSONArray] (declared outside this file),
    section 4.1: the same for a top-level array of documents; a missing file
    and an empty file give the empty sequence. *)
Definition parseJSONArray (p : path) (t : node)
    : result (list (option Document)) :=
  match Stat p t with
  | StatNotExist => Ok []
  | StatNotDir => Err (ErrNotDir p)
  | StatNode (Dir _) => Err (ErrIsDir p)
  | StatNode (File (JSONText (JArr l))) => json_docs p l
  | StatNode (File (JSONText JNull)) => Ok []
  | StatNode (File (RawText EmptyString)) => Ok []
  | StatNode (File _) => Err (ErrMalformed p)
  end.

(** *** The directory walker *)

(** Modelled from the spec: [directoryWalker.walk] (declared outside this
    file), section 4.2: a missing root is a silent no-op, a root that is not
    a directory is fatal, the immediate children are visited in the order of
    their names, and the first error of the visitor ends the walk. *)
Definition dw_walk {A} (t : node) (p : path) (onlyDirs : bool)
    (fn : node → path → A → result A) (acc : A) : result A :=
  match Stat p t with
  | StatNotExist => Ok acc
  | StatNotDir => Err (ErrNotDir p)
  | StatNode (File _) => Err (ErrNotDir p)
  | StatNode (Dir es) =>
      fold_result
        (λ name acc,
           match es !! name with
           | Some file =>
               if onlyDirs && negb (is_dir file) then Ok acc
               else fn file (p ++ [name]) acc
           | None => Ok acc
           end)
        (ReadDir es) acc
  end.

(** The visits below one node of the full-subtree walk: files only,
    directories are entered. *)
Fixpoint walk_node {A} (fn : node → path → A → result A) (n : node)
    : path → A → result A :=
  match n with
  | File _ => λ p acc, fn n p acc
  | Dir es =>
      let below := walk_node fn <$> es in
      λ p acc,
        fold_result
          (λ name acc,
             match below !! name with
             | Some visit => visit (p ++ [name]) acc
             | None => Ok acc
             end)
          (ReadDir es) acc
  end.

(** Modelled from the spec: [walk] (declared outside this file), the
    recursive full-subtree variant of section 4.2. *)
Definition walk {A} (t : node) (dir : path)
    (fn : node → path → A → result A) (acc : A) : result A :=
  match Stat dir t with
  | StatNotExist => Ok acc
  | StatNotDir => Err (ErrNotDir dir)
  | StatNode (File _) => Err (ErrNotDir dir)
  | StatNode (Dir es) => walk_node fn (Dir es) dir acc
  end.

(** ** The layout and the model *)

(** Modelled from the spec: the directory, file and key names of section 6
    (the constants [NameAuth], [FileConfig], ... are declared outside this
    file).  The spec leaves the name of a webhook's source file open; the
    recognised source extension names it here. *)
Definition NameAuth : string := "auth".
Definition NameFunctions : string := "functions".
Definition NameDataSources : string := "data_sources".
Definition NameHTTPEndpoints : string := "http_endpoints".
Definition NameSync : string := "sync".
Definition NameValues : string := "values".
Definition NameTriggers : string := "triggers".
Definition NameSchema : string := "schema".
Definition NameSource : string := "source".
Definition FileConfig : string := "config.json".
Definition FileRules : string := "rules.json".
Definition FileSchema : string := "schema.json".
Definition FileProviders : string := "providers.json".
Definition FileCustomUserData : string := "custom_user_data.json".
Definition FileSource : string := "source.js".
Definition extJS : string := ".js".

Record AuthStructure := {
  CustomUserData : option Document;
  Providers : option Document;
}.

Record DataSourceStructure := {
  DataSource_Config : option Document;
  Rules : list (option Document);
}.

Record FunctionsStructure := {
  Configs : list (option Document);
  Sources : gmap string string;
}.

Record HTTPEndpointStructure := {
  HTTPEndpoint_Config : option Document;
  IncomingWebhooks : list (option Document);
}.

Record SyncStructure := {
  Sync_Config : option Document;
}.

(** ** The section parsers *)

Definition parseAuth (rootDir : path) (t : node) : result (option AuthStructure) :=
  let dir := Join rootDir [NameAuth] in
  match Stat dir t with
  | StatNotExist => Ok None
  | StatNotDir => Err (ErrNotDir dir)
  | StatNode _ =>
      let* customUserData := parseJSON (Join dir [FileCustomUserData]) t in
      let* providers := parseJSON (Join dir [FileProviders]) t in
      Ok (Some {| CustomUserData := customUserData; Providers := providers |})
  end.

(** The visitor of the walk in [parseFunctionsV2]. *)
Definition visitSource (t : node) (dir : path)
    (file : node) (path : path) (sources : gmap string string)
    : result (gmap string string) :=
  if decide (path_ext path ≠ extJS) then Ok sources
  else
    let pathRelative := Rel dir path in
    let* data := ReadFile path t in
    Ok (<[pathRelative := text_of data]> sources).

Definition parseFunctionsV2 (rootDir : path) (t : node)
    : result (option FunctionsStructure) :=
  let dir := Join rootDir [NameFunctions] in
  match Stat dir t with
  | StatNotExist => Ok None
  | StatNotDir => Err (ErrNotDir dir)
  | StatNode _ =>
      let* configs := parseJSONArray (Join dir [FileConfig]) t in
      let* sources := walk t dir (visitSource t dir) ∅ in
      Ok (Some {| Configs := configs; Sources := sources |})
  end.

(** The visitor of the innermost walk in [parseDataSources]. *)
Definition visitColl (t : node)
    (coll : node) (collPath : path) (rules : list (option Document))
    : result (list (option Document)) :=
  let rulePath := Join collPath [FileRules] in
  match Stat rulePath t with
  | StatNotExist => Ok rules
  | StatNotDir => Err (ErrNotDir rulePath)
  | StatNode _ =>
      let* rule := parseJSON rulePath t in
      let* schema := parseJSON (Join collPath [FileSchema]) t in
      match rule with
      | None => Err ErrNilMap
      | Some r => Ok (rules ++ [Some (<[NameSchema := doc_json schema]> r)])
      end
  end.

Definition visitDB (t : node)
    (db : node) (dbPath : path) (rules : list (option Document))
    : result (list (option Document)) :=
  dw_walk t dbPath true (visitColl t) rules.

Definition visitDataSource (t : node)
    (file : node) (path : path) (out : list DataSourceStructure)
    : result (list DataSourceStructure) :=
  let* config := parseJSON (Join path [FileConfig]) t in
  let* rules := dw_walk t path true (visitDB t) [] in
  Ok (out ++ [{| DataSource_Config := config; Rules := rules |}]).

Definition parseDataSources (rootDir : path) (t : node)
    : result (list DataSourceStructure) :=
  dw_walk t (Join rootDir [NameDataSources]) true (visitDataSource t) [].

Definition visitFunction (t : node)
    (file : node) (path : path) (out : list (option Document))
    : result (list (option Document)) :=
  let* config := parseJSON (Join path [FileConfig]) t in
  let srcPath := Join path [FileSource] in
  let* src :=
    match Stat srcPath t with
    | StatNotExist => Ok ""
    | _ => let* data := ReadFile srcPath t in Ok (text_of data)
    end in
  match config with
  | None => Err ErrNilMap
  | Some c => Ok (out ++ [Some (<[NameSource := JStr src]> c)])
  end.

(** Modelled from the spec: [parseFunctions] (declared outside this file),
    section 4.3 (f): the immediate subdirectories are webhooks; the source
    file of each is merged into its document under the source key, as a
    schema is into its rule. *)
Definition parseFunctions (dir : path) (t : node)
    : result (list (option Document)) :=
  dw_walk t dir true (visitFunction t) [].

Definition visitHTTPEndpoint (t : node)
    (file : node) (path : path) (out : list HTTPEndpointStructure)
    : result (list HTTPEndpointStructure) :=
  let* config := parseJSON (Join path [FileConfig]) t in
  let* webhooks := parseFunctions (Join path []) t in
  Ok (out ++ [{| HTTPEndpoint_Config := config; IncomingWebhooks := webhooks |}]).

Definition parseHTTPEndpoints (rootDir : path) (t : node)
    : result (list HTTPEndpointStructure) :=
  dw_walk t (Join rootDir [NameHTTPEndpoints]) true (visitHTTPEndpoint t) [].

Definition parseSync (rootDir : path) (t : node) : result (option SyncStructure) :=
  let dir := Join rootDir [NameSync] in
  match Stat dir t with
  | StatNotExist => Ok None
  | StatNotDir => Err (ErrNotDir dir)
  | StatNode _ =>
      let* config := parseJSON (Join dir [FileConfig]) t in
      Ok (Some {| Sync_Config := config |})
  end.

(** ** The section writers *)

(** [order] is the sequence in which this run of the [range] loop yields the
    entries of [functions.Sources]; Go leaves it unspecified. *)
Definition writeFunctionsV2 (rootDir : path)
    (functions : option FunctionsStructure) (order : list (string * string))
    : M unit :=
  let configs := match functions with Some f => Configs f | None => [] end in
  let dir := Join rootDir [NameFunctions] in
  let data := MarshalJSON (docs_json configs) in
  WriteFile (Join dir [FileConfig]) data ;;
  for_each (λ '(path, src), WriteFile (Join dir [path]) (RawText src)) order.

(** The entries the loop of [writeFunctionsV2] ranges over. *)
Definition sources_of (functions : option FunctionsStructure)
    : gmap string string :=
  match functions with Some f => Sources f | None => ∅ end.

Definition range_of (functions : option FunctionsStructure)
    (order : list (string * string)) : Prop :=
  order ≡ₚ map_to_list (sources_of functions).

Definition writeAuth (rootDir : path) (auth : option AuthStructure) : M unit :=
  match auth with
  | None => ret tt
  | Some auth =>
      let dir := Join rootDir [NameAuth] in
      (match Providers auth with
       | Some _ =>
           WriteFile (Join dir [FileProviders])
             (MarshalJSON (doc_json (Providers auth)))
       | None => ret tt
       end) ;;
      (match CustomUserData auth with
       | Some _ =>
           WriteFile (Join dir [FileCustomUserData])
             (MarshalJSON (doc_json (CustomUserData auth)))
       | None => ret tt
       end)
  end.

Definition writeSync (rootDir : path) (sync : option SyncStructure) : M unit :=
  match sync with
  | None => ret tt
  | Some sync =>
      match Sync_Config sync with
      | None => ret tt
      | Some _ =>
          WriteFile (Join rootDir [NameSync; FileConfig])
            (MarshalJSON (doc_json (Sync_Config sync)))
      end
  end.

(** The body of the loop over [ds.Rules] in [writeDataSources]. *)
Definition writeRule (dir : path) (name : string) (rule : option Document)
    : M unit :=
  let schema := index rule NameSchema in
  let dataSchema := MarshalJSON schema in
  let ruleTemp := delete NameSchema (copy_map rule) in
  let dataRule := MarshalJSON (JObj ruleTemp) in
  WriteFile
    (Join dir [name; Sprintf_s (index rule "database");
               Sprintf_s (index rule "collection"); FileRules])
    dataRule ;;
  WriteFile
    (Join dir [name; Sprintf_s (index rule "database");
               Sprintf_s (index rule "collection"); FileSchema])
    dataSchema.

Definition writeDataSource (dir : path) (ds : DataSourceStructure) : M unit :=
  match as_string (index (DataSource_Config ds) "name") with
  | None => fail (ErrorString "error writing datasources")
  | Some name =>
      let config := MarshalJSON (doc_json (DataSource_Config ds)) in
      WriteFile (Join dir [name; FileConfig]) config ;;
      for_each (writeRule dir name) (Rules ds)
  end.

Definition writeDataSources (rootDir : path)
    (dataSources : list DataSourceStructure) : M unit :=
  let dir := Join rootDir [NameDataSources] in
  MkdirAll dir ;;
  for_each (writeDataSource dir) dataSources.

(** The body of the loop over [httpEndpoint.IncomingWebhooks]. *)
Definition writeWebhook (dir : path) (nameHTTPEndpoint : string)
    (webhook : option Document) : M unit :=
  match as_string (index webhook NameSource) with
  | None => fail (ErrorString "error writing http endpoints")
  | Some src =>
      match as_string (index webhook "name") with
      | None => fail (ErrorString "error writing http endpoints")
      | Some name =>
          let dirHTTPEndpoint := Join dir [nameHTTPEndpoint; name] in
          let webhookTemp := delete NameSource (copy_map webhook) in
          let config := MarshalJSON (JObj webhookTemp) in
          WriteFile (Join dirHTTPEndpoint [FileConfig]) config ;;
          WriteFile (Join dirHTTPEndpoint [FileSource]) (RawText src)
      end
  end.

Definition writeHTTPEndpoint (dir : path) (httpEndpoint : HTTPEndpointStructure)
    : M unit :=
  match as_string (index (HTTPEndpoint_Config httpEndpoint) "name") with
  | None => fail (ErrorString "error writing http endpoints")
  | Some nameHTTPEndpoint =>
      let data := MarshalJSON (doc_json (HTTPEndpoint_Config httpEndpoint)) in
      WriteFile (Join dir [nameHTTPEndpoint; FileConfig]) data ;;
      for_each (writeWebhook dir nameHTTPEndpoint) (IncomingWebhooks httpEndpoint)
  end.

Definition writeHTTPEndpoints (rootDir : path)
    (httpEndpoints : list HTTPEndpointStructure) : M unit :=
  let dir := Join rootDir [NameHTTPEndpoints] in
  MkdirAll dir ;;
  for_each (writeHTTPEndpoint dir) httpEndpoints.

(** ** The sections kept abstract *)

(** The parsers and writers of the secrets, environments, values, triggers,
    GraphQL and services sections, and the types [SecretsStructure],
    [GraphQLStructure] and [ServiceStructure], are declared in other files of
    the package.  [LoadData] and [WriteData] are embedded over this
    interface. *)
Class Sections := {
  SecretsStructure : Type;
  GraphQLStructure : Type;
  ServiceStructure : Type;
  (** the zero value [GraphQLStructure{}] *)
  GraphQLStructure_zero : GraphQLStructure;
  parseSecrets : path → node → result (option SecretsStructure);
  parseEnvironments :
    path → node → result (option (gmap string (option Document)));
  parseJSONFiles : path → node → result (list (option Document));
  parseGraphQL : path → node → result (GraphQLStructure * bool);
  parseServices : path → node → result (list ServiceStructure);
  writeSecrets : path → option SecretsStructure → M unit;
  writeEnvironments :
    path → option (gmap string (option Document)) → M unit;
  writeValues : path → list (option Document) → M unit;
  writeGraphQL : path → GraphQLStructure → M unit;
  writeServices : path → list ServiceStructure → M unit;
  writeTriggers : path → list (option Document) → M unit;
}.

Section AppData.
Context `{Sections}.

(** [realm.AppConfigVersion] is an integer, [realm.Location] and
    [realm.DeploymentModel] are strings. *)
Record AppStructureV2 := {
  ConfigVersion : Z;
  ID : string;
  Name : string;
  Location : string;
  DeploymentModel : string;
  Environment : string;
  Environments : option (gmap string (option Document));
  AllowedRequestOrigins : list string;
  Values : list (option Document);
  Auth : option AuthStructure;
  Functions : option FunctionsStructure;
  Triggers : list (option Document);
  DataSources : list DataSourceStructure;
  HTTPEndpoints : list HTTPEndpointStructure;
  Services : list ServiceStructure;
  GraphQL : option GraphQLStructure;
  Hosting : option Document;
  Sync : option SyncStructure;
  Secrets : option SecretsStructure;
}.

(** The assignments [a.F = v] of [LoadData]. *)
Definition set_Secrets (v : option SecretsStructure) (a : AppStructureV2)
    : AppStructureV2 :=
  {| ConfigVersion := ConfigVersion a; ID := ID a; Name := Name a;
     Location := Location a; DeploymentModel := DeploymentModel a;
     Environment := Environment a; Environments := Environments a;
     AllowedRequestOrigins := AllowedRequestOrigins a; Values := Values a;
     Auth := Auth a; Functions := Functions a; Triggers := Triggers a;
     DataSources := DataSources a; HTTPEndpoints := HTTPEndpoints a;
     Services := Services a; GraphQL := GraphQL a; Hosting := Hosting a;
     Sync := Sync a; Secrets := v |}.

Definition set_Environments (v : option (gmap string (option Document))) (a : AppStructureV2)
    : AppStructureV2 :=
  {| ConfigVersion := ConfigVersion a; ID := ID a; Name := Name a;
     Location := Location a; DeploymentModel := DeploymentModel a;
     Environment := Environment a; Environments := v;
     AllowedRequestOrigins := AllowedRequestOrigins a; Values := Values a;
     Auth := Auth a; Functions := Functions a; Triggers := Triggers a;
     DataSources := DataSources a; HTTPEndpoints := HTTPEndpoints a;
     Services := Services a; GraphQL := GraphQL a; Hosting := Hosting a;
     Sync := Sync a; Secrets := Secrets a |}.

Definition set_Values (v : list (option Document)) (a : AppStructureV2)
    : AppStructureV2 :=
  {| ConfigVersion := ConfigVersion a; ID := ID a; Name := Name a;
     Location := Location a; DeploymentModel := DeploymentModel a;
     Environment := Environment a; Environments := Environments a;
     AllowedRequestOrigins := AllowedRequestOrigins a; Values := v;
     Auth := Auth a; Functions := Functions a; Triggers := Triggers a;
     DataSources := DataSources a; HTTPEndpoints := HTTPEndpoints a;
     Services := Services a; GraphQL := GraphQL a; Hosting := Hosting a;
     Sync := Sync a; Secrets := Secrets a |}.

Definition set_Auth (v : option AuthStructure) (a : AppStructureV2)
    : AppStructureV2 :=
  {| ConfigVersion := ConfigVersion a; ID := ID a; Name := Name a;
     Location := Location a; DeploymentModel := DeploymentModel a;
     Environment := Environment a; Environments := Environments a;
     AllowedRequestOrigins := AllowedRequestOrigins a; Values := Values a;
     Auth := v; Functions := Functions a; Triggers := Triggers a;
     DataSources := DataSources a; HTTPEndpoints := HTTPEndpoints a;
     Services := Services a; GraphQL := GraphQL a; Hosting := Hosting a;
     Sync := Sync a; Secrets := Secrets a |}.

Definition set_Sync (v : option SyncStructure) (a : AppStructureV2)
    : AppStructureV2 :=
  {| ConfigVersion := ConfigVersion a; ID := ID a; Name := Name a;
     Location := Location a; DeploymentModel := DeploymentModel a;
     Environment := Environment a; Environments := Environments a;
     AllowedRequestOrigins := AllowedRequestOrigins a; Values := Values a;
     Auth := Auth a; Functions := Functions a; Triggers := Triggers a;
     DataSources := DataSources a; HTTPEndpoints := HTTPEndpoints a;
     Services := Services a; GraphQL := GraphQL a; Hosting := Hosting a;
     Sync := v; Secrets := Secrets a |}.

Definition set_Functions (v : option FunctionsStructure) (a : AppStructureV2)
    : AppStructureV2 :=
  {| ConfigVersion := ConfigVersion a; ID := ID a; Name := Name a;
     Location := Location a; DeploymentModel := DeploymentModel a;
     Environment := Environment a; Environments := Environments a;
     AllowedRequestOrigins := AllowedRequestOrigins a; Values := Values a;
     Auth := Auth a; Functions := v; Triggers := Triggers a;
     DataSources := DataSources a; HTTPEndpoints := HTTPEndpoints a;
     Services := Services a; GraphQL := GraphQL a; Hosting := Hosting a;
     Sync := Sync a; Secrets := Secrets a |}.

Definition set_Triggers (v : list (option Document)) (a : AppStructureV2)
    : AppStructureV2 :=
  {| ConfigVersion := ConfigVersion a; ID := ID a; Name := Name a;
     Location := Location a; DeploymentModel := DeploymentModel a;
     Environment := Environment a; Environments := Environments a;
     AllowedRequestOrigins := AllowedRequestOrigins a; Values := Values a;
     Auth := Auth a; Functions := Functions a; Triggers := v;
     DataSources := DataSources a; HTTPEndpoints := HTTPEndpoints a;
     Services := Services a; GraphQL := GraphQL a; Hosting := Hosting a;
     Sync := Sync a; Secrets := Secrets a |}.

Definition set_GraphQL (v : option GraphQLStructure) (a : AppStructureV2)
    : AppStructureV2 :=
  {| ConfigVersion := ConfigVersion a; ID := ID a; Name := Name a;
     Location := Location a; DeploymentModel := DeploymentModel a;
     Environment := Environment a; Environments := Environments a;
     AllowedRequestOrigins := AllowedRequestOrigins a; Values := Values a;
     Auth := Auth a; Functions := Functions a; Triggers := Triggers a;
     DataSources := DataSources a; HTTPEndpoints := HTTPEndpoints a;
     Services := Services a; GraphQL := v; Hosting := Hosting a;
     Sync := Sync a; Secrets := Secrets a |}.

Definition set_Services (v : list ServiceStructure) (a : AppStructureV2)
    : AppStructureV2 :=
  {| ConfigVersion := ConfigVersion a; ID := ID a; Name := Name a;
     Location := Location a; DeploymentModel := DeploymentModel a;
     Environment := Environment a; Environments := Environments a;
     AllowedRequestOrigins := AllowedRequestOrigins a; Values := Values a;
     Auth := Auth a; Functions := Functions a; Triggers := Triggers a;
     DataSources := DataSources a; HTTPEndpoints := HTTPEndpoints a;
     Services := v; GraphQL := GraphQL a; Hosting := Hosting a;
     Sync := Sync a; Secrets := Secrets a |}.

Definition set_DataSources (v : list DataSourceStructure) (a : AppStructureV2)
    : AppStructureV2 :=
  {| ConfigVersion := ConfigVersion a; ID := ID a; Name := Name a;
     Location := Location a; DeploymentModel := DeploymentModel a;
     Environment := Environment a; Environments := Environments a;
     AllowedRequestOrigins := AllowedRequestOrigins a; Values := Values a;
     Auth := Auth a; Functions := Functions a; Triggers := Triggers a;
     DataSources := v; HTTPEndpoints := HTTPEndpoints a;
     Services := Services a; GraphQL := GraphQL a; Hosting := Hosting a;
     Sync := Sync a; Secrets := Secrets a |}.

Definition set_HTTPEndpoints (v : list HTTPEndpointStructure) (a : AppStructureV2)
    : AppStructureV2 :=
  {| ConfigVersion := ConfigVersion a; ID := ID a; Name := Name a;
     Location := Location a; DeploymentModel := DeploymentModel a;
     Environment := Environment a; Environments := Environments a;
     AllowedRequestOrigins := AllowedRequestOrigins a; Values := Values a;
     Auth := Auth a; Functions := Functions a; Triggers := Triggers a;
     DataSources := DataSources a; HTTPEndpoints := v;
     Services := Services a; GraphQL := GraphQL a; Hosting := Hosting a;
     Sync := Sync a; Secrets := Secrets a |}.

(** [LoadData] assigns the fields of its receiver one after the other; a
    failing parser leaves the fields assigned so far. *)
Definition LoadData (rootDir : path) (t : node) : St AppStructureV2 unit :=
  do secrets ← lift (parseSecrets rootDir t);
  modify (set_Secrets secrets) ;;
  do environments ← lift (parseEnvironments rootDir t);
  modify (set_Environments environments) ;;
  do values ← lift (parseJSONFiles (Join rootDir [NameValues]) t);
  modify (set_Values values) ;;
  do auth ← lift (parseAuth rootDir t);
  modify (set_Auth auth) ;;
  do sync ← lift (parseSync rootDir t);
  modify (set_Sync sync) ;;
  do functions ← lift (parseFunctionsV2 rootDir t);
  modify (set_Functions functions) ;;
  do triggers ← lift (parseJSONFiles (Join rootDir [NameTriggers]) t);
  modify (set_Triggers triggers) ;;
  do graphql ← lift (parseGraphQL rootDir t);
  (if graphql.2 then modify (set_GraphQL (Some graphql.1)) else ret tt) ;;
  do services ← lift (parseServices rootDir t);
  modify (set_Services services) ;;
  do dataSources ← lift (parseDataSources rootDir t);
  modify (set_DataSources dataSources) ;;
  do httpEndpoints ← lift (parseHTTPEndpoints rootDir t);
  modify (set_HTTPEndpoints httpEndpoints).

(** [order] is the iteration order of [a.Functions.Sources] in this run (see
    [writeFunctionsV2]). *)
Definition WriteData (rootDir : path) (a : AppStructureV2)
    (order : list (string * string)) : M unit :=
  writeSecrets rootDir (Secrets a) ;;
  writeEnvironments rootDir (Environments a) ;;
  writeValues rootDir (Values a) ;;
  let graphQL :=
    match GraphQL a with
    | Some g => g
    | None => GraphQLStructure_zero
    end in
  writeGraphQL rootDir graphQL ;;
  writeServices rootDir (Services a) ;;
  writeFunctionsV2 rootDir (Functions a) order ;;
  writeAuth rootDir (Auth a) ;;
  writeSync rootDir (Sync a) ;;
  writeDataSources rootDir (DataSources a) ;;
  writeHTTPEndpoints rootDir (HTTPEndpoints a) ;;
  writeHTTPEndpoints rootDir (HTTPEndpoints a) ;;
  writeTriggers rootDir (Triggers a).

(** [WriteData] with a single call of the HTTP endpoints writer. *)
Definition WriteData_once (rootDir : path) (a : AppStructureV2)
    (order : list (string * string)) : M unit :=
  writeSecrets rootDir (Secrets a) ;;
  writeEnvironments rootDir (Environments a) ;;
  writeValues rootDir (Values a) ;;
  let graphQL :=
    match GraphQL a with
    | Some g => g
    | None => GraphQLStructure_zero
    end in
  writeGraphQL rootDir graphQL ;;
  writeServices rootDir (Services a) ;;
  writeFunctionsV2 rootDir (Functions a) order ;;
  writeAuth rootDir (Auth a) ;;
  writeSync rootDir (Sync a) ;;
  writeDataSources rootDir (DataSources a) ;;
  writeHTTPEndpoints rootDir (HTTPEndpoints a) ;;
  writeTriggers rootDir (Triggers a).

End AppData.

(** ** Auxiliary definitions for the proofs *)

Fixpoint node_size (n : node) : nat :=
  match n with
  | File _ => 1
  | Dir es => S (map_fold (λ _ s acc, s + acc) 0 (node_size <$> es))
  end.

Inductive kind := KNone | KFile (c : content) | KDir.

Definition kind_of (n : node) : kind :=
  match n with File c => KFile c | Dir _ => KDir end.

Definition kind_at (p : path) (t : node) : kind :=
  match Stat p t with
  | StatNode n => kind_of n
  | _ => KNone
  end.

Definition not_file (k : kind) : Prop :=
  match k with KFile _ => False | _ => True end.

Inductive op :=
  | OpMkdirAll (p : path)
  | OpWriteFile (p : path) (c : content)
  | OpFail (e : error).

Definition run_op (o : op) : M unit :=
  match o with
  | OpMkdirAll p => MkdirAll p
  | OpWriteFile p c => WriteFile p c
  | OpFail e => fail e
  end.

Definition run_ops : list op → M unit := for_each run_op.

Definition apply_op (o : op) (t : node) : option node :=
  match o with
  | OpMkdirAll p => mkdir_at p t
  | OpWriteFile p c => write_at p c t
  | OpFail _ => None
  end.

Fixpoint apply_ops (l : list op) (t : node) : option node :=
  match l with
  | [] => Some t
  | o :: l' => t' ← apply_op o t; apply_ops l' t'
  end.

Definition shape (k : kind) : nat :=
  match k with KNone => 0 | KFile _ => 1 | KDir => 2 end.

Definition ops_writeFunctionsV2 (rootDir : path)
    (functions : option FunctionsStructure) (order : list (string * string))
    : list op :=
  let configs := match functions with Some f => Configs f | None => [] end in
  let dir := Join rootDir [NameFunctions] in
  OpWriteFile (Join dir [FileConfig]) (MarshalJSON (docs_json configs))
  :: ((λ '(path, src), OpWriteFile (Join dir [path]) (RawText src)) <$> order).

Definition ops_writeAuth (rootDir : path) (auth : option AuthStructure) : list op :=
  match auth with
  | None => []
  | Some auth =>
      let dir := Join rootDir [NameAuth] in
      match Providers auth with
      | Some _ => [OpWriteFile (Join dir [FileProviders])
                     (MarshalJSON (doc_json (Providers auth)))]
      | None => []
      end ++
      match CustomUserData auth with
      | Some _ => [OpWriteFile (Join dir [FileCustomUserData])
                     (MarshalJSON (doc_json (CustomUserData auth)))]
      | None => []
      end
  end.

Definition ops_writeSync (rootDir : path) (sync : option SyncStructure) : list op :=
  match sync with
  | None => []
  | Some sync =>
      match Sync_Config sync with
      | None => []
      | Some _ => [OpWriteFile (Join rootDir [NameSync; FileConfig])
                     (MarshalJSON (doc_json (Sync_Config sync)))]
      end
  end.

Definition ops_writeRule (dir : path) (name : string) (rule : option Document)
    : list op :=
  [OpWriteFile
     (Join dir [name; Sprintf_s (index rule "database");
                Sprintf_s (index rule "collection"); FileRules])
     (MarshalJSON (JObj (delete NameSchema (copy_map rule))));
   OpWriteFile
     (Join dir [name; Sprintf_s (index rule "database");
                Sprintf_s (index rule "collection"); FileSchema])
     (MarshalJSON (index rule NameSchema))].

Definition ops_writeDataSource (dir : path) (ds : DataSourceStructure) : list op :=
  match as_string (index (DataSource_Config ds) "name") with
  | None => [OpFail (ErrorString "error writing datasources")]
  | Some name =>
      OpWriteFile (Join dir [name; FileConfig])
        (MarshalJSON (doc_json (DataSource_Config ds)))
      :: (Rules ds ≫= ops_writeRule dir name)
  end.

Definition ops_writeDataSources (rootDir : path)
    (dataSources : list DataSourceStructure) : list op :=
  let dir := Join rootDir [NameDataSources] in
  OpMkdirAll dir :: (dataSources ≫= ops_writeDataSource dir).

Definition ops_writeWebhook (dir : path) (nameHTTPEndpoint : string)
    (webhook : option Document) : list op :=
  match as_string (index webhook NameSource) with
  | None => [OpFail (ErrorString "error writing http endpoints")]
  | Some src =>
      match as_string (index webhook "name") with
      | None => [OpFail (ErrorString "error writing http endpoints")]
      | Some name =>
          let dirHTTPEndpoint := Join dir [nameHTTPEndpoint; name] in
          [OpWriteFile (Join dirHTTPEndpoint [FileConfig])
             (MarshalJSON (JObj (delete NameSource (copy_map webhook))));
           OpWriteFile (Join dirHTTPEndpoint [FileSource]) (RawText src)]
      end
  end.

Definition ops_writeHTTPEndpoint (dir : path)
    (httpEndpoint : HTTPEndpointStructure) : list op :=
  match as_string (index (HTTPEndpoint_Config httpEndpoint) "name") with
  | None => [OpFail (ErrorString "error writing http endpoints")]
  | Some nameHTTPEndpoint =>
      OpWriteFile (Join dir [nameHTTPEndpoint; FileConfig])
        (MarshalJSON (doc_json (HTTPEndpoint_Config httpEndpoint)))
      :: (IncomingWebhooks httpEndpoint ≫= ops_writeWebhook dir nameHTTPEndpoint)
  end.

Definition ops_writeHTTPEndpoints (rootDir : path)
    (httpEndpoints : list HTTPEndpointStructure) : list op :=
  let dir := Join rootDir [NameHTTPEndpoints] in
  OpMkdirAll dir :: (httpEndpoints ≫= ops_writeHTTPEndpoint dir).

(** Whether a string has a path separator in it. *)
Fixpoint has_slash (s : string) : bool :=
  match s with
  | "" => false
  | String c s' => Ascii.eqb c "/"%char || has_slash s'
  end.

(** [k] is the key and [v] the text of a source file below [n], the node at
    [dir ++ rel0]. *)
Definition js_under (dir : path) (n : node) (rel0 : path) (k v : string) : Prop :=
  ∃ rel c,
    Stat rel n = StatNode (File c) ∧
    path_ext (dir ++ rel0 ++ rel) = extJS ∧
    k = String.concat "/" (rel0 ++ rel) ∧ v = text_of c.

Definition collected (dir : path) (n : node) (rel0 : path) (acc acc' : gmap string string)
    : Prop :=
  (∀ k v, js_under dir n rel0 k v → acc' !! k = Some v) ∧
  (∀ k, (∀ v, ¬ js_under dir n rel0 k v) → acc' !! k = acc !! k) ∧
  (∀ k v, acc' !! k = Some v → js_under dir n rel0 k v ∨ acc !! k = Some v).


(** Whether every entry name in a tree is free of separators. *)
Fixpoint names_ok (n : node) : bool :=
  match n with
  | File _ => true
  | Dir es =>
      bool_decide
        (map_Forall (λ name ok, has_slash name = false ∧ ok = true)
                    (names_ok <$> es))
  end.

(** A path of a script, moved below [root]. *)
Definition under_root (root : path) (o : op) : op :=
  match o with
  | OpMkdirAll p => OpMkdirAll (root ++ p)
  | OpWriteFile p c => OpWriteFile (root ++ p) c
  | OpFail e => OpFail e
  end.

(** A file is never written at the root of a relative script. *)
Definition wf_op (o : op) : Prop :=
  match o with
  | OpWriteFile p _ => p ≠ []
  | _ => True
  end.

(** The assumption made on the writers of the sections kept abstract: each
    is a fixed sequence of directory creations and file writes, at paths
    relative to the root directory, that the value of the section
    determines; it does not read the tree. *)
Class ScriptedSections `{Sections} := {
  ops_writeSecrets : option SecretsStructure → list op;
  ops_writeEnvironments : option (gmap string (option Document)) → list op;
  ops_writeValues : list (option Document) → list op;
  ops_writeGraphQL : GraphQLStructure → list op;
  ops_writeServices : list ServiceStructure → list op;
  ops_writeTriggers : list (option Document) → list op;
  writeSecrets_ops rootDir x t :
    writeSecrets rootDir x t
    = run_ops (under_root rootDir <$> ops_writeSecrets x) t;
  writeEnvironments_ops rootDir x t :
    writeEnvironments rootDir x t
    = run_ops (under_root rootDir <$> ops_writeEnvironments x) t;
  writeValues_ops rootDir x t :
    writeValues rootDir x t
    = run_ops (under_root rootDir <$> ops_writeValues x) t;
  writeGraphQL_ops rootDir x t :
    writeGraphQL rootDir x t
    = run_ops (under_root rootDir <$> ops_writeGraphQL x) t;
  writeServices_ops rootDir x t :
    writeServices rootDir x t
    = run_ops (under_root rootDir <$> ops_writeServices x) t;
  writeTriggers_ops rootDir x t :
    writeTriggers rootDir x t
    = run_ops (under_root rootDir <$> ops_writeTriggers x) t;
  ops_writeSecrets_wf x : Forall wf_op (ops_writeSecrets x);
  ops_writeEnvironments_wf x : Forall wf_op (ops_writeEnvironments x);
  ops_writeValues_wf x : Forall wf_op (ops_writeValues x);
  ops_writeGraphQL_wf x : Forall wf_op (ops_writeGraphQL x);
  ops_writeServices_wf x : Forall wf_op (ops_writeServices x);
  ops_writeTriggers_wf x : Forall wf_op (ops_writeTriggers x);
}.

Section Scripts.
Context `{ScriptedSections}.

(** What [WriteData] does before and after the loop over the sources. *)
Definition ops_before_sources (rootDir : path) (a : AppStructureV2) : list op :=
  (under_root rootDir <$>
     (ops_writeSecrets (Secrets a) ++
      ops_writeEnvironments (Environments a) ++
      ops_writeValues (Values a) ++
      ops_writeGraphQL
        (match GraphQL a with Some g => g | None => GraphQLStructure_zero end) ++
      ops_writeServices (Services a))) ++
  [OpWriteFile (Join (Join rootDir [NameFunctions]) [FileConfig])
     (MarshalJSON (docs_json
        (match Functions a with Some f => Configs f | None => [] end)))].

Definition ops_after_sources (rootDir : path) (a : AppStructureV2) : list op :=
  ops_writeAuth rootDir (Auth a) ++
  ops_writeSync rootDir (Sync a) ++
  ops_writeDataSources rootDir (DataSources a) ++
  ops_writeHTTPEndpoints rootDir (HTTPEndpoints a) ++
  ops_writeHTTPEndpoints rootDir (HTTPEndpoints a) ++
  (under_root rootDir <$> ops_writeTriggers (Triggers a)).

(** The file each source is written to, with its text. *)
Definition source_writes (dir : path) (order : list (string * string))
    : list (path * content) :=
  (λ kv, (Join dir [kv.1], RawText kv.2)) <$> order.

Definition ops_WriteData (rootDir : path) (a : AppStructureV2)
    (order : list (string * string)) : list op :=
  ops_before_sources rootDir a ++
  ((λ pc, OpWriteFile pc.1 pc.2)
     <$> source_writes (Join rootDir [NameFunctions]) order) ++
  ops_after_sources rootDir a.

End Scripts.

(** The files the sources of a model are written to are pairwise
    distinct. *)
Definition distinct_source_paths (dir : path)
    (functions : option FunctionsStructure) : Prop :=
  NoDup ((λ kv, Join dir [kv.1]) <$> map_to_list (sources_of functions)).

(** The tree [t] with the node at [root] replaced by [n']. *)
Fixpoint graft (root : path) (n' t : node) : node :=
  match root with
  | [] => n'
  | x :: r =>
      match t with
      | Dir es => Dir (<[x := graft r n' (default (Dir ∅) (es !! x))]> es)
      | File _ => t
      end
  end.

(** A name or key that does not climb: no [..] among its segments. *)
Definition plain (s : string) : Prop := ".." ∉ split s.

Definition plain_rule (rule : option Document) : Prop :=
  plain (Sprintf_s (index rule "database")) ∧
  plain (Sprintf_s (index rule "collection")).

Definition plain_data_source (ds : DataSourceStructure) : Prop :=
  (∀ name, as_string (index (DataSource_Config ds) "name") = Some name →
           plain name) ∧
  Forall plain_rule (Rules ds).

Definition plain_webhook (webhook : option Document) : Prop :=
  ∀ name, as_string (index webhook "name") = Some name → plain name.

Definition plain_endpoint (ep : HTTPEndpointStructure) : Prop :=
  (∀ name, as_string (index (HTTPEndpoint_Config ep) "name") = Some name →
           plain name) ∧
  Forall plain_webhook (IncomingWebhooks ep).

(** No name of the model, and no key of its sources, climbs out of the
    directory it is joined to. *)
Definition plain_names `{Sections} (a : AppStructureV2) : Prop :=
  (∀ k src, sources_of (Functions a) !! k = Some src → plain k) ∧
  Forall plain_data_source (DataSources a) ∧
  Forall plain_endpoint (HTTPEndpoints a).

(** ** Canonical models: what a load can give back *)

(** A directory name: no separator, and none of the names [filepath.Clean]
    drops or resolves. *)
Definition seg_ok (s : string) : Prop :=
  has_slash s = false ∧ s ≠ "" ∧ s ≠ "." ∧ s ≠ "..".

(** The strict order of [ioutil.ReadDir]. *)
Definition str_lt (a b : string) : Prop := String.le a b ∧ a ≠ b.

(** The directories a rule is written under. *)
Definition rule_db (rule : option Document) : string :=
  Sprintf_s (index rule "database").
Definition rule_coll (rule : option Document) : string :=
  Sprintf_s (index rule "collection").

(** What a schema file can be decoded from. *)
Definition schema_value (v : json) : Prop := v = JNull ∨ ∃ s, v = JObj s.

Definition canonical_rule (rule : option Document) : Prop :=
  is_Some (as_string (index rule "database")) ∧
  is_Some (as_string (index rule "collection")) ∧
  seg_ok (rule_db rule) ∧ seg_ok (rule_coll rule) ∧
  ∃ v, rule ≫= (.!! NameSchema) = Some v ∧ schema_value v.

Definition rule_lt (r1 r2 : option Document) : Prop :=
  str_lt (rule_db r1) (rule_db r2) ∨
  (rule_db r1 = rule_db r2 ∧ str_lt (rule_coll r1) (rule_coll r2)).

Definition ds_name (ds : DataSourceStructure) : string :=
  default "" (as_string (index (DataSource_Config ds) "name")).

Definition canonical_data_source (ds : DataSourceStructure) : Prop :=
  is_Some (as_string (index (DataSource_Config ds) "name")) ∧
  seg_ok (ds_name ds) ∧
  Forall canonical_rule (Rules ds) ∧ StronglySorted rule_lt (Rules ds).

Definition webhook_name (webhook : option Document) : string :=
  default "" (as_string (index webhook "name")).

Definition canonical_webhook (webhook : option Document) : Prop :=
  is_Some (as_string (index webhook "name")) ∧
  is_Some (as_string (index webhook NameSource)) ∧
  seg_ok (webhook_name webhook).

Definition ep_name (ep : HTTPEndpointStructure) : string :=
  default "" (as_string (index (HTTPEndpoint_Config ep) "name")).

Definition canonical_endpoint (ep : HTTPEndpointStructure) : Prop :=
  is_Some (as_string (index (HTTPEndpoint_Config ep) "name")) ∧
  seg_ok (ep_name ep) ∧
  Forall canonical_webhook (IncomingWebhooks ep) ∧
  StronglySorted (λ w1 w2, str_lt (webhook_name w1) (webhook_name w2))
    (IncomingWebhooks ep).

(** A key of the sources that the walk gives back: the relative path of a
    file with the source extension. *)
Definition canonical_key (k : string) : Prop :=
  ∃ segs, k = String.concat "/" segs ∧ segs ≠ [] ∧ Forall seg_ok segs ∧
          path_ext segs = extJS.

Definition auth_kept (auth : option AuthStructure) : Prop :=
  match auth with
  | Some {| CustomUserData := None; Providers := None |} => False
  | _ => True
  end.

Definition sync_kept (sync : option SyncStructure) : Prop :=
  match sync with
  | Some {| Sync_Config := None |} => False
  | _ => True
  end.

(** The functions section a load finds after a write: a nil section was
    written as an empty one. *)
Definition functions_written (functions : option FunctionsStructure)
    : FunctionsStructure :=
  match functions with
  | Some f => f
  | None => {| Configs := []; Sources := ∅ |}
  end.

Definition canonical `{Sections} (a : AppStructureV2) : Prop :=
  auth_kept (Auth a) ∧ sync_kept (Sync a) ∧
  (∀ k src, sources_of (Functions a) !! k = Some src → canonical_key k) ∧
  Forall canonical_data_source (DataSources a) ∧
  StronglySorted (λ d1 d2, str_lt (ds_name d1) (ds_name d2)) (DataSources a) ∧
  Forall canonical_endpoint (HTTPEndpoints a) ∧
  StronglySorted (λ e1 e2, str_lt (ep_name e1) (ep_name e2)) (HTTPEndpoints a).

(** An operation that stays out of the directory [x] of the root. *)
Definition avoids (x : string) (o : op) : Prop :=
  match o with
  | OpMkdirAll (y :: _) => y ≠ x
  | OpWriteFile (y :: _) _ => y ≠ x
  | _ => True
  end.

(** The sections kept abstract do not write into the directories of the
    sections of this file. *)
Definition section_names : list string :=
  [NameAuth; NameSync; NameFunctions; NameDataSources; NameHTTPEndpoints].

Class SeparateSections `{ScriptedSections} := {
  ops_writeSecrets_sep x name :
    name ∈ section_names → Forall (avoids name) (ops_writeSecrets x);
  ops_writeEnvironments_sep x name :
    name ∈ section_names → Forall (avoids name) (ops_writeEnvironments x);
  ops_writeValues_sep x name :
    name ∈ section_names → Forall (avoids name) (ops_writeValues x);
  ops_writeGraphQL_sep x name :
    name ∈ section_names → Forall (avoids name) (ops_writeGraphQL x);
  ops_writeServices_sep x name :
    name ∈ section_names → Forall (avoids name) (ops_writeServices x);
  ops_writeTriggers_sep x name :
    name ∈ section_names → Forall (avoids name) (ops_writeTriggers x);
}.

(** ** What a tree holds after a write *)

(** The path of an operation runs through [q]. *)
Definition touches (o : op) (q : path) : Prop :=
  match o with
  | OpMkdirAll p | OpWriteFile p _ => q `prefix_of` p
  | OpFail _ => False
  end.

(** An operation that stays out of the directory [base]. *)
Definition outside (base : path) (o : op) : Prop :=
  match o with
  | OpMkdirAll p | OpWriteFile p _ => ¬ base `prefix_of` p
  | OpFail _ => True
  end.

(** The files of a section, at their paths below the directory of the
    section. *)
Definition files := list (path * content).

Definition write_files (base : path) (T : files) : list op :=
  (λ pc, OpWriteFile (base ++ pc.1) pc.2) <$> T.

(** Below [base], the tree [t] holds the files [T], the directories that
    lead to them, and nothing else; [made] tells whether [base] was created
    as a directory of its own. *)
Definition realises (t : node) (base : path) (made : bool) (T : files) : Prop :=
  (∀ q c, (q, c) ∈ T → ∃ c', kind_at (base ++ q) t = KFile c' ∧ (q, c') ∈ T) ∧
  (∀ q, kind_at (base ++ q) t = KDir →
        (q = [] ∧ made = true) ∨ ∃ p c, (p, c) ∈ T ∧ q `prefix_of` p) ∧
  (∀ q p c, (p, c) ∈ T → q `prefix_of` p → kind_at (base ++ q) t ≠ KNone) ∧
  (∀ q c, kind_at (base ++ q) t = KFile c → (q, c) ∈ T) ∧
  (made = true → kind_at base t = KDir).

Definition files_of_auth (auth : option AuthStructure) : files :=
  match auth with
  | None => []
  | Some auth =>
      match Providers auth with
      | Some _ => [([FileProviders], MarshalJSON (doc_json (Providers auth)))]
      | None => []
      end ++
      match CustomUserData auth with
      | Some _ =>
          [([FileCustomUserData], MarshalJSON (doc_json (CustomUserData auth)))]
      | None => []
      end
  end.

Definition files_of_sync (sync : option SyncStructure) : files :=
  match sync with
  | None => []
  | Some sync =>
      match Sync_Config sync with
      | None => []
      | Some _ => [([FileConfig], MarshalJSON (doc_json (Sync_Config sync)))]
      end
  end.

Definition files_of_functions (functions : option FunctionsStructure)
    (order : list (string * string)) : files :=
  ([FileConfig],
   MarshalJSON
     (docs_json (match functions with Some f => Configs f | None => [] end)))
  :: ((λ kv, (split kv.1, RawText kv.2)) <$> order).

Definition files_of_rule (name : string) (rule : option Document) : files :=
  [([name; rule_db rule; rule_coll rule; FileRules],
    MarshalJSON (JObj (delete NameSchema (copy_map rule))));
   ([name; rule_db rule; rule_coll rule; FileSchema],
    MarshalJSON (index rule NameSchema))].

Definition files_of_data_source (ds : DataSourceStructure) : files :=
  ([ds_name ds; FileConfig], MarshalJSON (doc_json (DataSource_Config ds)))
  :: (Rules ds ≫= files_of_rule (ds_name ds)).

Definition files_of_webhook (nameHTTPEndpoint : string)
    (webhook : option Document) : files :=
  [([nameHTTPEndpoint; webhook_name webhook; FileConfig],
    MarshalJSON (JObj (delete NameSource (copy_map webhook))));
   ([nameHTTPEndpoint; webhook_name webhook; FileSource],
    RawText (default "" (as_string (index webhook NameSource))))].

Definition files_of_endpoint (ep : HTTPEndpointStructure) : files :=
  ([ep_name ep; FileConfig], MarshalJSON (doc_json (HTTPEndpoint_Config ep)))
  :: (IncomingWebhooks ep ≫= files_of_webhook (ep_name ep)).

(** The rules of a data source, by database directory: the runs of rules
    with the same database, in the order of the sequence. *)
Fixpoint group (rules : list (option Document))
    : list (string * list (option Document)) :=
  match rules with
  | [] => []
  | r :: rules' =>
      match group rules' with
      | (db, g) :: gs =>
          if decide (rule_db r = db) then (db, r :: g) :: gs
          else (rule_db r, [r]) :: (db, g) :: gs
      | [] => [(rule_db r, [r])]
      end
  end.

(** What a section writer does, for a section whose names are plain: it
    creates the directory of the section when [made], and writes the files
    of the section below it. *)
Definition section_ops (rootDir : path) (name : string) (made : bool)
    (T : files) : list op :=
  (if made then [OpMkdirAll (rootDir ++ [name])] else []) ++
  write_files (rootDir ++ [name]) T.

(** An instance of the abstract sections with nothing on disk: the parsers
    find nothing and the writers write nothing.  It closes the concrete
    examples below. *)
Definition no_sections : Sections := {|
  SecretsStructure := unit;
  GraphQLStructure := unit;
  ServiceStructure := unit;
  GraphQLStructure_zero := tt;
  parseSecrets := λ _ _, Ok None;
  parseEnvironments := λ _ _, Ok None;
  parseJSONFiles := λ _ _, Ok [];
  parseGraphQL := λ _ _, Ok (tt, false);
  parseServices := λ _ _, Ok [];
  writeSecrets := λ _ _, ret tt;
  writeEnvironments := λ _ _, ret tt;
  writeValues := λ _ _, ret tt;
  writeGraphQL := λ _ _, ret tt;
  writeServices := λ _ _, ret tt;
  writeTriggers := λ _ _, ret tt;
|}.

(** The zero value of the model. *)
Definition empty_app `{Sections} : AppStructureV2 := {|
  ConfigVersion := 0; ID := ""; Name := ""; Location := "";
  DeploymentModel := ""; Environment := ""; Environments := None;
  AllowedRequestOrigins := []; Values := []; Auth := None; Functions := None;
  Triggers := []; DataSources := []; HTTPEndpoints := []; Services := [];
  GraphQL := None; Hosting := None; Sync := None; Secrets := None;
|}.

(** Whether the collection directory [name] of the database directory
    [dbPath] holds a rule file. *)
Definition holds_rules (t : node) (dbPath : path) (es : gmap string node)
    (name : string) : bool :=
  match es !! name with
  | Some (Dir _) =>
      match Stat (Join (dbPath ++ [name]) [FileRules]) t with
      | StatNotExist => false
      | _ => true
      end
  | _ => false
  end.

(** *** Concrete models used in the examples *)

Definition ds_named : DataSourceStructure :=
  {| DataSource_Config := Some {[ "name" := JStr "ds1" ]}; Rules := [] |}.

Definition ds_nameless : DataSourceStructure :=
  {| DataSource_Config := Some {[ "type" := JStr "mongodb-atlas" ]};
     Rules := [] |}.

Definition rule_no_database : option Document :=
  Some {[ "collection" := JStr "coll1" ]}.

Definition ds_rule_no_database : DataSourceStructure :=
  {| DataSource_Config := Some {[ "name" := JStr "ds1" ]};
     Rules := [rule_no_database] |}.

Definition spec_rule : Document :=
  {[ "database" := JStr "db1"; "collection" := JStr "coll1" ]}.

Definition spec_schema : Document := {[ "properties" := JObj ∅ ]}.

(** The layout of the example in section 8 of the spec. *)
Definition spec_tree : node :=
  Dir {[ "data_sources" :=
    Dir {[ "ds1" :=
      Dir {[ "db1" :=
        Dir {[ "coll1" :=
          Dir {[ "rules.json" := File (JSONText (JObj spec_rule));
                 "schema.json" := File (JSONText (JObj spec_schema)) ]} ]} ]} ]} ]}.

(** A functions directory with a source file three levels down and a file
    of another extension beside it. *)
Definition functions_tree : node :=
  Dir {[ "functions" :=
    Dir {[ "config.json" := File (JSONText (JArr []));
           "a" :=
      Dir {[ "b" :=
        Dir {[ "c" :=
          Dir {[ "f.js" := File (RawText "exports = 1");
                 "f.md" := File (RawText "notes") ]} ]} ]} ]} ]}.

Program Definition no_sections_scripted : ScriptedSections (H := no_sections) := {|
  ops_writeSecrets := λ _, [];
  ops_writeEnvironments := λ _, [];
  ops_writeValues := λ _, [];
  ops_writeGraphQL := λ _, [];
  ops_writeServices := λ _, [];
  ops_writeTriggers := λ _, [];
|}.
Solve All Obligations with done.

(** Two source keys that name one file, and two keys that do not. *)
Definition aliasing_app : AppStructureV2 (H := no_sections) :=
  set_Functions
    (Some {| Configs := [];
             Sources := {[ "a.js" := "one"; "./a.js" := "two" ]} |})
    empty_app.

Definition two_sources_app : AppStructureV2 (H := no_sections) :=
  set_Functions
    (Some {| Configs := [];
             Sources := {[ "a.js" := "one"; "b.js" := "two" ]} |})
    empty_app.

(** A data source whose name climbs out of its directory. *)
Definition climbing_app : AppStructureV2 (H := no_sections) :=
  set_DataSources
    [{| DataSource_Config := Some {[ "name" := JStr "../../r1/q" ]};
        Rules := [] |}]
    empty_app.

Definition two_roots : node :=
  Dir {[ "r1" := Dir ∅; "p" := Dir {[ "r2" := Dir ∅ ]} ]}.

Definition no_sections_separate
    : SeparateSections (H := no_sections) (H0 := no_sections_scripted).
Proof. split; intros; apply Forall_nil_2. Defined.

Definition ds_a : DataSourceStructure :=
  {| DataSource_Config :=
       Some {[ "name" := JStr "a"; "type" := JStr "mongodb-atlas" ]};
     Rules := [] |}.

Definition ds_b : DataSourceStructure :=
  {| DataSource_Config :=
       Some {[ "name" := JStr "b"; "type" := JStr "mongodb-atlas" ]};
     Rules := [] |}.

(** Two data sources, the later name first, and an auth section that is
    present without documents. *)
Definition unsorted_app : AppStructureV2 (H := no_sections) :=
  set_Auth (Some {| CustomUserData := None; Providers := None |})
    (set_DataSources [ds_b; ds_a] empty_app).

(** A model with every section of this file in its canonical form. *)
Definition canonical_app : AppStructureV2 (H := no_sections) :=
  set_Auth
    (Some {| CustomUserData := None;
             Providers := Some {[ "api-key" := JObj ∅ ]} |})
  (set_Functions
    (Some {| Configs := [Some {[ "name" := JStr "f" ]}];
             Sources := {[ "util/f.js" := "exports = 1" ]} |})
  (set_DataSources
    [{| DataSource_Config := Some {[ "name" := JStr "ds1" ]};
        Rules := [Some (<[NameSchema := JObj spec_schema]> spec_rule)] |}]
  (set_HTTPEndpoints
    [{| HTTPEndpoint_Config := Some {[ "name" := JStr "ep1" ]};
        IncomingWebhooks :=
          [Some {[ "name" := JStr "hook"; "source" := JStr "exports = 2" ]}] |}]
    empty_app))).

(** A file system with an empty application directory. *)
Definition empty_root : node := Dir {[ "app" := Dir ∅ ]}.

(** A file system where the application directory is a regular file. *)
Definition file_root : node := Dir {[ "app" := File (RawText "x") ]}.

(** ** [ConfigData] *)

(** A field with the tag [omitempty]: a string is left out when it is empty,
    a slice when it has no element. *)
Definition omitempty_string (k v : string) (m : Document) : Document :=
  if decide (v = "") then m else <[k := JStr v]> m.

Definition omitempty_strings (k : string) (v : list string) (m : Document)
    : Document :=
  match v with
  | [] => m
  | _ => <[k := JArr (JStr <$> v)]> m
  end.

Section ConfigData.
Context `{Sections}.

(** The anonymous struct [temp] of [ConfigData], as the encoder sees it: the
    accessors [ConfigVersion()], [ID()], [Name()], [Location()] and
    [DeploymentModel()] return the fields of the embedded structure. *)
Definition config_fields (a : AppStructureV2) : Document :=
  omitempty_strings "allowed_request_origins" (AllowedRequestOrigins a)
    (omitempty_string "environment" (Environment a)
       (omitempty_string "deployment_model" (DeploymentModel a)
          (omitempty_string "location" (Location a)
             (omitempty_string "name" (Name a)
                (omitempty_string "app_id" (ID a)
                   (<["config_version" := JNum (ConfigVersion a)]> ∅)))))).

Definition ConfigData (a : AppStructureV2) : result content :=
  Ok (MarshalJSON (JObj (config_fields a))).

End ConfigData.

(** The names of the directories among the entries of a directory, in the
    order of a listing. *)
Definition subdirs (es : gmap string node) : list string :=
  filter (λ name, is_dir <$> es !! name = Some true) (ReadDir es).

(** Every entry of [t] is an entry of [t'], of the same kind: a directory
    stays a directory, a file stays a file (its text may change). *)
Definition keeps_entries (t t' : node) : Prop :=
  ∀ q,
    (∀ es, Stat q t = StatNode (Dir es) → ∃ es', Stat q t' = StatNode (Dir es')) ∧
    (∀ c, Stat q t = StatNode (File c) → ∃ c', Stat q t' = StatNode (File c')).

(** * Properties *)

Lemma node_size_lookup (es : gmap string node) k ch :
  es !! k = Some ch → node_size ch < node_size (Dir es).
Proof.
  intros Hk. simpl.
  assert (Hf : (node_size <$> es) !! k = Some (node_size ch)) by (by rewrite lookup_fmap, Hk).
  rewrite (map_fold_delete_L _ _ k (node_size ch) (node_size <$> es)); [lia| |done].
  intros; lia.
Qed.

Lemma node_ind' (P : node → Prop) :
  (∀ c, P (File c)) →
  (∀ es, (∀ k ch, es !! k = Some ch → P ch) → P (Dir es)) →
  ∀ n, P n.
Proof.
  intros Hf Hd n.
  remember (node_size n) as sz eqn:Hsz.
  revert n Hsz. induction sz as [sz IH] using lt_wf_ind. intros n ->.
  destruct n as [c|es]; [apply Hf|].
  apply Hd. intros k ch Hk.
  eapply IH; [|done]. by eapply node_size_lookup.
Qed.

Lemma kind_at_nil t : kind_at [] t = kind_of t.
Proof. done. Qed.

Lemma kind_at_cons_File n p c : kind_at (n :: p) (File c) = KNone.
Proof. done. Qed.

Lemma kind_at_cons_Dir n p es :
  kind_at (n :: p) (Dir es) =
  match es !! n with Some ch => kind_at p ch | None => KNone end.
Proof. unfold kind_at. simpl. by destruct (es !! n). Qed.

Lemma kind_at_empty p : p ≠ [] → kind_at p (Dir ∅) = KNone.
Proof. destruct p; [done|]. intros _. by rewrite kind_at_cons_Dir, lookup_empty. Qed.

Lemma node_ext t t' : (∀ p, kind_at p t = kind_at p t') → t = t'.
Proof.
  revert t'. induction t as [c|es IH] using node_ind'; intros t' Hk.
  - specialize (Hk []). destruct t'; cbv [kind_at Stat kind_of] in Hk; by simplify_eq.
  - pose proof (Hk []) as H0.
    destruct t' as [|es']; [done|]. f_equal. apply map_eq. intros k.
    pose proof (Hk [k]) as H1. rewrite !kind_at_cons_Dir in H1.
    destruct (es !! k) as [ch|] eqn:Hch, (es' !! k) as [ch'|] eqn:Hch'; simpl in *.
    + f_equal. eapply IH; [done|]. intros p. specialize (Hk (k :: p)).
      by rewrite !kind_at_cons_Dir, Hch, Hch' in Hk.
    + rewrite kind_at_nil in H1. by destruct ch.
    + rewrite kind_at_nil in H1. by destruct ch'.
    + done.
Qed.

Lemma mkdir_at_kind p t t' q :
  mkdir_at p t = Some t' →
  kind_at q t' = if decide (q `prefix_of` p) then KDir else kind_at q t.
Proof.
  revert t t' q. induction p as [|n p IH]; intros t t' q Hm.
  - destruct t; simplify_eq/=. case_decide as Hq; [|done].
    apply prefix_nil_inv in Hq as ->. done.
  - destruct t as [|es]; simplify_eq/=.
    destruct (mkdir_at p (default (Dir ∅) (es !! n))) as [ch|] eqn:Hch; simplify_eq/=.
    destruct q as [|m q].
    { rewrite decide_True by apply prefix_nil. done. }
    rewrite !kind_at_cons_Dir.
    destruct (decide (m = n)) as [->|Hne].
    + rewrite lookup_insert_eq. rewrite (IH _ _ q Hch).
      destruct (decide (q `prefix_of` p)) as [Hq|Hq].
      * rewrite decide_True; [done|]. by apply prefix_cons.
      * rewrite decide_False; last (intros ?%prefix_cons_inv_2; done).
        destruct (es !! n) as [c0|]; simpl; [done|].
        destruct q; [|by rewrite kind_at_empty].
        exfalso. apply Hq, prefix_nil.
    + rewrite lookup_insert_ne by done.
      rewrite decide_False; [done|]. intros ?%prefix_cons_inv_1. done.
Qed.

Lemma write_at_File p c c0 : write_at p c (File c0) = None.
Proof. by destruct p. Qed.

Lemma write_at_nil c t : write_at [] c t = None.
Proof. by destruct t. Qed.

Lemma write_at_one n c es :
  write_at [n] c (Dir es) =
  match es !! n with
  | Some (Dir _) => None
  | _ => Some (Dir (<[n:=File c]> es))
  end.
Proof. done. Qed.

Lemma write_at_cons n n' p c es :
  write_at (n :: n' :: p) c (Dir es) =
  ch ← write_at (n' :: p) c (default (Dir ∅) (es !! n));
  Some (Dir (<[n:=ch]> es)).
Proof. done. Qed.

Lemma prefix_cons_iff {A} (x y : A) (l k : list A) :
  x :: l `prefix_of` y :: k ↔ x = y ∧ l `prefix_of` k.
Proof.
  split.
  - intros Hp. split; [by eapply prefix_cons_inv_1|by eapply prefix_cons_inv_2].
  - intros [-> ?]. by apply prefix_cons.
Qed.

Lemma write_at_kind p c t t' q :
  write_at p c t = Some t' →
  kind_at q t' =
    if decide (q = p) then KFile c
    else if decide (q `prefix_of` p) then KDir else kind_at q t.
Proof.
  revert t t' q. induction p as [|n p IH]; intros t t' q Hm.
  { by rewrite write_at_nil in Hm. }
  destruct t as [c0|es]; [by rewrite write_at_File in Hm|].
  destruct p as [|n' p].
  - rewrite write_at_one in Hm.
    assert (t' = Dir (<[n:=File c]> es) ∧ kind_at [n] (Dir es) ≠ KDir) as [-> Hnd].
    { rewrite kind_at_cons_Dir.
      destruct (es !! n) as [[c1|es1]|]; by simplify_eq. }
    destruct q as [|m q].
    { rewrite decide_False by done. by rewrite decide_True by apply prefix_nil. }
    rewrite !kind_at_cons_Dir. rewrite kind_at_cons_Dir in Hnd.
    destruct (decide (m = n)) as [->|Hne].
    + rewrite lookup_insert_eq. destruct q as [|m' q]; [by rewrite decide_True|].
      rewrite decide_False by done.
      rewrite decide_False; last first.
      { rewrite prefix_cons_iff. intros [_ Hp]. by apply prefix_nil_inv in Hp. }
      destruct (es !! n) as [[c1|es1]|]; done.
    + rewrite lookup_insert_ne by done. rewrite decide_False by naive_solver.
      rewrite decide_False; [done|]. rewrite prefix_cons_iff. naive_solver.
  - rewrite write_at_cons in Hm.
    destruct (write_at (n' :: p) c (default (Dir ∅) (es !! n))) as [ch|] eqn:Hch;
      [|done]. simpl in Hm. injection Hm as <-.
    destruct q as [|m q].
    { rewrite decide_False by done. by rewrite decide_True by apply prefix_nil. }
    rewrite !kind_at_cons_Dir.
    destruct (decide (m = n)) as [->|Hne].
    + rewrite lookup_insert_eq, (IH _ _ q Hch).
      assert (Hd : default (Dir ∅) (es !! n) = Dir ∅ → ¬ q `prefix_of` n' :: p →
                   kind_at q (Dir ∅) = KNone).
      { intros _ Hq. destruct q; [|done]. exfalso. apply Hq, prefix_nil. }
      repeat case_decide; simplify_eq; try done.
      * exfalso. rewrite prefix_cons_iff in *. naive_solver.
      * exfalso. rewrite prefix_cons_iff in *. naive_solver.
      * destruct (es !! n) as [c0|]; simpl; [done|]. by apply Hd.
    + rewrite lookup_insert_ne by done.
      rewrite decide_False by naive_solver.
      rewrite decide_False; [done|]. rewrite prefix_cons_iff. naive_solver.
Qed.

Lemma kind_at_app p q t :
  kind_at (p ++ q) t =
  match Stat p t with StatNode n => kind_at q n | _ => KNone end.
Proof.
  revert t. induction p as [|n p IH]; intros t; [done|].
  destruct t as [c|es]; [done|]. simpl.
  rewrite kind_at_cons_Dir. destruct (es !! n); [apply IH|done].
Qed.

Lemma is_Some_bind_Some {A B} (x : option A) (f : A → B) :
  is_Some (x ≫= λ a, Some (f a)) ↔ is_Some x.
Proof. destruct x; simpl; split; intros [? ?]; by eauto. Qed.

Lemma mkdir_at_Some p t :
  is_Some (mkdir_at p t) ↔ ∀ q, q `prefix_of` p → not_file (kind_at q t).
Proof.
  revert t. induction p as [|n p IH]; intros t.
  - destruct t as [c|es]; simpl.
    + split; [by intros [? ?]|]. intros Hq. by destruct (Hq [] (prefix_nil _)).
    + split; [|by eauto]. intros _ q ->%prefix_nil_inv. done.
  - destruct t as [c|es]; simpl.
    + split; [by intros [? ?]|]. intros Hq. by destruct (Hq [] (prefix_nil _)).
    + rewrite is_Some_bind_Some, IH. split.
      * intros Hq [|m q]; [done|]. rewrite prefix_cons_iff. intros [-> Hp].
        rewrite kind_at_cons_Dir. specialize (Hq q Hp).
        destruct (es !! n); [done|]. simpl in Hq. by destruct q.
      * intros Hq q Hp. specialize (Hq (n :: q)).
        rewrite prefix_cons_iff, kind_at_cons_Dir in Hq.
        destruct (es !! n); simpl; [by apply Hq|].
        destruct q; [done|by rewrite kind_at_empty].
Qed.

Lemma write_at_Some p c t :
  is_Some (write_at p c t) ↔
  p ≠ [] ∧ (∀ q, q `prefix_of` p → q ≠ p → not_file (kind_at q t)) ∧
  kind_at p t ≠ KDir.
Proof.
  revert t. induction p as [|n p IH]; intros t.
  { rewrite write_at_nil. split; [by intros [? ?]|]. by intros [? _]. }
  destruct t as [c0|es].
  { rewrite write_at_File. split; [by intros [? ?]|]. intros (_ & Hq & _).
    by destruct (Hq [] (prefix_nil _)). }
  destruct p as [|n' p].
  - rewrite write_at_one, kind_at_cons_Dir. split.
    + intros Hs. split; [done|]. split.
      * intros [|m q]; [done|]. rewrite prefix_cons_iff.
        intros [-> ->%prefix_nil_inv]. done.
      * destruct (es !! n) as [[|]|]; [done| |done]. by destruct Hs.
    + intros (_ & _ & Hk). destruct (es !! n) as [[|]|]; by eauto.
  - rewrite write_at_cons, is_Some_bind_Some, IH, !kind_at_cons_Dir. split.
    + intros (_ & Hq & Hk). split; [done|]. split.
      * intros [|m q]; [done|]. rewrite prefix_cons_iff. intros [-> Hp] Hne.
        rewrite kind_at_cons_Dir.
        assert (q ≠ n' :: p) as Hne' by naive_solver.
        specialize (Hq q Hp Hne').
        destruct (es !! n); [done|]. simpl in Hq. by destruct q.
      * destruct (es !! n); simpl in *; done.
    + intros (_ & Hq & Hk). split; [done|]. split.
      * intros q Hp Hne. specialize (Hq (n :: q)).
        rewrite prefix_cons_iff, kind_at_cons_Dir in Hq.
        destruct (es !! n); simpl; [apply Hq; naive_solver|].
        destruct q; [done|by rewrite kind_at_empty].
      * destruct (es !! n); simpl; [done|]. by rewrite kind_at_empty.
Qed.

Lemma run_op_Ok o t t' : run_op o t = (Ok tt, t') ↔ apply_op o t = Some t'.
Proof.
  destruct o as [p|p c|e]; simpl; unfold MkdirAll, WriteFile, fail.
  - destruct (mkdir_at p t); naive_solver.
  - destruct (write_at p c t); naive_solver.
  - naive_solver.
Qed.

Lemma run_op_Err o t e t' : run_op o t = (Err e, t') → t' = t ∧ apply_op o t = None.
Proof.
  destruct o as [p|p c|e0]; simpl; unfold MkdirAll, WriteFile, fail.
  - destruct (mkdir_at p t); naive_solver.
  - destruct (write_at p c t); naive_solver.
  - naive_solver.
Qed.

Lemma run_ops_Ok l t t' : run_ops l t = (Ok tt, t') ↔ apply_ops l t = Some t'.
Proof.
  revert t. induction l as [|o l IH]; intros t; simpl.
  - cbv [run_ops for_each ret]. split; intros; by simplify_eq.
  - unfold run_ops; simpl. unfold bind. fold (run_ops l).
    destruct (run_op o t) as [[[]|e] t1] eqn:Ho.
    + apply run_op_Ok in Ho. rewrite Ho. simpl. apply IH.
    + apply run_op_Err in Ho as [-> Ho]. rewrite Ho. simpl. split; intros; by simplify_eq.
Qed.

Lemma run_ops_app l1 l2 t :
  run_ops (l1 ++ l2) t = (run_ops l1 ;; run_ops l2) t.
Proof.
  revert t. induction l1 as [|o l1 IH]; intros t; [done|].
  unfold run_ops; simpl. unfold bind. fold (run_ops (l1 ++ l2)) (run_ops l1) (run_ops l2).
  destruct (run_op o t) as [[[]|e] t1]; [|done]. apply IH.
Qed.

Lemma for_each_run_ops {A} (f : A → M unit) (g : A → list op) xs t :
  (∀ x t, f x t = run_ops (g x) t) →
  for_each f xs t = run_ops (xs ≫= g) t.
Proof.
  intros Hfg. revert t. induction xs as [|x xs IH]; intros t; [done|].
  simpl. rewrite run_ops_app. unfold bind. rewrite Hfg.
  destruct (run_ops (g x) t) as [[[]|e] t1]; [apply IH|done].
Qed.

Lemma apply_op_kind o t t' q :
  apply_op o t = Some t' →
  kind_at q t' =
    match o with
    | OpMkdirAll p => if decide (q `prefix_of` p) then KDir else kind_at q t
    | OpWriteFile p c =>
        if decide (q = p) then KFile c
        else if decide (q `prefix_of` p) then KDir else kind_at q t
    | OpFail _ => KNone
    end.
Proof.
  destruct o; simpl; intros Ho; [by eapply mkdir_at_kind|by eapply write_at_kind|done].
Qed.

Lemma apply_op_shape o t t' q :
  apply_op o t = Some t' → shape (kind_at q t) ≠ 0 →
  shape (kind_at q t') = shape (kind_at q t).
Proof.
  intros Ho Hq. rewrite (apply_op_kind _ _ _ _ Ho).
  destruct o as [p|p c|e]; simpl in *; [| |done].
  - case_decide as Hp; [|done].
    assert (is_Some (mkdir_at p t)) as Hs by eauto.
    rewrite mkdir_at_Some in Hs. specialize (Hs q Hp).
    by destruct (kind_at q t).
  - assert (is_Some (write_at p c t)) as Hs by eauto.
    rewrite write_at_Some in Hs. destruct Hs as (_ & Hs & Hd).
    case_decide as Hp; [subst; by destruct (kind_at p t)|].
    case_decide as Hp'; [|done].
    specialize (Hs q Hp' Hp). by destruct (kind_at q t).
Qed.

Lemma apply_ops_shape l t t' q :
  apply_ops l t = Some t' → shape (kind_at q t) ≠ 0 →
  shape (kind_at q t') = shape (kind_at q t).
Proof.
  revert t. induction l as [|o l IH]; intros t; simpl; [naive_solver|].
  destruct (apply_op o t) as [t1|] eqn:Ho; [|done]. simpl. intros Hl Hq.
  pose proof (apply_op_shape _ _ _ q Ho Hq) as H1.
  rewrite (IH t1 Hl); [done|]. by rewrite H1.
Qed.

Lemma shape_not_file k : shape k ≠ 1 → not_file k.
Proof. by destruct k. Qed.

Lemma apply_ops_replay l s fin s' :
  apply_ops l s = Some fin →
  (∀ q, shape (kind_at q s') = shape (kind_at q fin)) →
  (∀ q, kind_at q s' = kind_at q s ∨ kind_at q s' = kind_at q fin) →
  apply_ops l s' = Some fin.
Proof.
  revert s s'. induction l as [|o l IH]; intros s s' Hl Hsh Hk; simpl in *.
  { simplify_eq. f_equal. apply node_ext. intros q. by destruct (Hk q). }
  destruct (apply_op o s) as [s1|] eqn:Ho; [|done]. simpl in Hl.
  assert (Hfin : ∀ q, shape (kind_at q s1) ≠ 0 →
                      shape (kind_at q s') = shape (kind_at q s1)).
  { intros q Hq. rewrite Hsh. by eapply apply_ops_shape. }
  assert (is_Some (apply_op o s')) as [s1' Ho'].
  { destruct o as [p|p c|e]; simpl in *; [| |done].
    - apply mkdir_at_Some. intros q Hq. apply shape_not_file.
      rewrite Hfin; rewrite (mkdir_at_kind _ _ _ q Ho), decide_True by done; done.
    - assert (is_Some (write_at p c s)) as Hs by eauto.
      apply write_at_Some in Hs as (Hp & _ & _).
      apply write_at_Some. split; [done|]. split.
      + intros q Hq Hne. apply shape_not_file.
        rewrite Hfin; rewrite (write_at_kind _ _ _ _ q Ho), decide_False, decide_True by done; done.
      + intros Hd. specialize (Hfin p).
        rewrite (write_at_kind _ _ _ _ p Ho), decide_True, Hd in Hfin by done.
        simpl in Hfin. lia. }
  rewrite Ho'. simpl. apply (IH s1); [done| |].
  - intros q. rewrite (apply_op_kind _ _ _ q Ho').
    assert (Hs1 : shape (kind_at q s1) ≠ 0 →
                  shape (kind_at q fin) = shape (kind_at q s1)).
    { by eapply apply_ops_shape. }
    rewrite (apply_op_kind _ _ _ q Ho) in Hs1.
    destruct o as [p|p c|e]; [| |done]; repeat case_decide;
      try apply Hsh; by rewrite Hs1.
  - intros q. rewrite (apply_op_kind _ _ _ q Ho'), (apply_op_kind _ _ _ q Ho).
    destruct o as [p|p c|e]; [| |done]; repeat case_decide; auto.
Qed.

Lemma apply_ops_idem l t t' :
  apply_ops l t = Some t' → apply_ops l t' = Some t'.
Proof. intros Hl. eapply apply_ops_replay; eauto. Qed.

Lemma run_ops_twice l t : (run_ops l ;; run_ops l) t = run_ops l t.
Proof.
  unfold bind. destruct (run_ops l t) as [[[]|e] t'] eqn:Hl; [|done].
  apply run_ops_Ok. apply run_ops_Ok in Hl. by eapply apply_ops_idem.
Qed.

Lemma run_ops_nil t : run_ops [] t = (Ok tt, t).
Proof. done. Qed.

Lemma run_ops_cons o l t : run_ops (o :: l) t = (run_op o ;; run_ops l) t.
Proof. done. Qed.

Lemma run_ops_one o t : run_ops [o] t = run_op o t.
Proof.
  rewrite run_ops_cons. unfold bind. by destruct (run_op o t) as [[[]|e] t1].
Qed.

Lemma bind_ext {S A B} (m : St S A) (k1 k2 : A → St S B) s :
  (∀ a s', k1 a s' = k2 a s') → bind m k1 s = bind m k2 s.
Proof. intros Hk. unfold bind. destruct (m s) as [[a|e] s']; [apply Hk|done]. Qed.

Lemma bind_ext_l {S A B} (m1 m2 : St S A) (k : A → St S B) s :
  m1 s = m2 s → bind m1 k s = bind m2 k s.
Proof. intros Hm. unfold bind. by rewrite Hm. Qed.

Lemma bind_ext_l2 {S A B} (m1 m2 : St S A) (k1 k2 : A → St S B) s :
  m1 s = m2 s → (∀ a s', k1 a s' = k2 a s') → bind m1 k1 s = bind m2 k2 s.
Proof.
  intros Hm Hk. unfold bind. rewrite Hm.
  destruct (m2 s) as [[a|e] s']; [apply Hk|done].
Qed.

Lemma bind_ret_l {S B} (k : unit → St S B) s : bind (ret tt) k s = k tt s.
Proof. done. Qed.

Lemma bind_ret_r {S} (m : St S unit) s : bind m (λ _, ret tt) s = m s.
Proof. unfold bind, ret. by destruct (m s) as [[[]|e] s']. Qed.

Lemma writeFunctionsV2_ops rootDir functions order t :
  writeFunctionsV2 rootDir functions order t =
  run_ops (ops_writeFunctionsV2 rootDir functions order) t.
Proof.
  unfold writeFunctionsV2, ops_writeFunctionsV2. rewrite run_ops_cons.
  apply bind_ext. intros _ t'. clear t. revert t'.
  induction order as [|[path src] order IH]; intros t; [done|].
  simpl. rewrite run_ops_cons. apply bind_ext. intros _ t'. apply IH.
Qed.

Lemma writeAuth_ops rootDir auth t :
  writeAuth rootDir auth t = run_ops (ops_writeAuth rootDir auth) t.
Proof.
  destruct auth as [[cud prov]|]; [|done]. unfold writeAuth, ops_writeAuth. simpl.
  rewrite run_ops_app. apply bind_ext_l2.
  - destruct prov; [by rewrite run_ops_one|done].
  - intros _ t'. destruct cud; [by rewrite run_ops_one|done].
Qed.

Lemma writeSync_ops rootDir sync t :
  writeSync rootDir sync t = run_ops (ops_writeSync rootDir sync) t.
Proof.
  destruct sync as [[[cfg|]]|]; [|done..]. unfold writeSync, ops_writeSync. simpl.
  by rewrite run_ops_one.
Qed.

Lemma writeRule_ops dir name rule t :
  writeRule dir name rule t = run_ops (ops_writeRule dir name rule) t.
Proof.
  unfold writeRule, ops_writeRule. rewrite run_ops_cons. apply bind_ext.
  intros _ t'. by rewrite run_ops_one.
Qed.

Lemma writeDataSource_ops dir ds t :
  writeDataSource dir ds t = run_ops (ops_writeDataSource dir ds) t.
Proof.
  unfold writeDataSource, ops_writeDataSource.
  destruct (as_string _) as [name|]; [|done].
  rewrite run_ops_cons. apply bind_ext. intros _ t'.
  apply for_each_run_ops. apply writeRule_ops.
Qed.

Lemma writeDataSources_ops rootDir dataSources t :
  writeDataSources rootDir dataSources t =
  run_ops (ops_writeDataSources rootDir dataSources) t.
Proof.
  unfold writeDataSources, ops_writeDataSources.
  rewrite run_ops_cons. apply bind_ext. intros _ t'.
  apply for_each_run_ops. apply writeDataSource_ops.
Qed.

Lemma writeWebhook_ops dir n webhook t :
  writeWebhook dir n webhook t = run_ops (ops_writeWebhook dir n webhook) t.
Proof.
  unfold writeWebhook, ops_writeWebhook.
  destruct (as_string _) as [src|]; [|done].
  destruct (as_string _) as [name|]; [|done].
  rewrite run_ops_cons. apply bind_ext. intros _ t'. by rewrite run_ops_one.
Qed.

Lemma writeHTTPEndpoint_ops dir ep t :
  writeHTTPEndpoint dir ep t = run_ops (ops_writeHTTPEndpoint dir ep) t.
Proof.
  unfold writeHTTPEndpoint, ops_writeHTTPEndpoint.
  destruct (as_string _) as [name|]; [|done].
  rewrite run_ops_cons. apply bind_ext. intros _ t'.
  apply for_each_run_ops. apply writeWebhook_ops.
Qed.

Lemma writeHTTPEndpoints_ops rootDir eps t :
  writeHTTPEndpoints rootDir eps t =
  run_ops (ops_writeHTTPEndpoints rootDir eps) t.
Proof.
  unfold writeHTTPEndpoints, ops_writeHTTPEndpoints.
  rewrite run_ops_cons. apply bind_ext. intros _ t'.
  apply for_each_run_ops. apply writeHTTPEndpoint_ops.
Qed.

Lemma bind_twice {S} (m : St S unit) (k : St S unit) s :
  (∀ s, (m ;; m) s = m s) → (m ;; m ;; k) s = (m ;; k) s.
Proof.
  intros Hm. specialize (Hm s). unfold bind in *.
  destruct (m s) as [[[]|e] s1]; [|done].
  by destruct (m s1) as [[[]|e] s2]; simplify_eq.
Qed.

Lemma writeHTTPEndpoints_twice rootDir eps t :
  (writeHTTPEndpoints rootDir eps ;; writeHTTPEndpoints rootDir eps) t =
  writeHTTPEndpoints rootDir eps t.
Proof.
  rewrite writeHTTPEndpoints_ops, <-run_ops_twice.
  unfold bind. rewrite writeHTTPEndpoints_ops.
  destruct (run_ops _ t) as [[[]|e] t1]; [|done]. apply writeHTTPEndpoints_ops.
Qed.

Section RefineWriteData.

Context `{Sections}.

(** C10 (the repeated call of the HTTP endpoints writer).  [WriteData], which
    calls the HTTP endpoints writer twice in a row, returns the same result
    and leaves the same tree as the variant that calls it once: a successful
    first call leaves a tree on which the second call changes nothing, and a
    failed first call ends both. *)
Theorem WriteData_second_call_redundant (rootDir : path) (a : AppStructureV2)
    (order : list (string * string)) (t : node) :
  WriteData rootDir a order t = WriteData_once rootDir a order t.
Proof.
  unfold WriteData, WriteData_once.
  do 9 (apply bind_ext; intros _ ?).
  apply bind_twice. apply writeHTTPEndpoints_twice.
Qed.

End RefineWriteData.

(** ** Paths built from the fixed names *)

Lemma Join_nil p : Join p [] = p.
Proof. done. Qed.

Lemma Join_NameAuth p : Join p [NameAuth] = p ++ [NameAuth].
Proof. done. Qed.
Lemma Join_NameFunctions p : Join p [NameFunctions] = p ++ [NameFunctions].
Proof. done. Qed.
Lemma Join_NameDataSources p : Join p [NameDataSources] = p ++ [NameDataSources].
Proof. done. Qed.
Lemma Join_NameHTTPEndpoints p :
  Join p [NameHTTPEndpoints] = p ++ [NameHTTPEndpoints].
Proof. done. Qed.
Lemma Join_NameSync_FileConfig p :
  Join p [NameSync; FileConfig] = p ++ [NameSync; FileConfig].
Proof. change (Join p [NameSync; FileConfig]) with ((p ++ [NameSync]) ++ [FileConfig]). by rewrite <-app_assoc. Qed.
Lemma Join_FileConfig p : Join p [FileConfig] = p ++ [FileConfig].
Proof. done. Qed.
Lemma Join_FileRules p : Join p [FileRules] = p ++ [FileRules].
Proof. done. Qed.
Lemma Join_FileSchema p : Join p [FileSchema] = p ++ [FileSchema].
Proof. done. Qed.
Lemma Join_FileSource p : Join p [FileSource] = p ++ [FileSource].
Proof. done. Qed.
Lemma Join_FileProviders p : Join p [FileProviders] = p ++ [FileProviders].
Proof. done. Qed.
Lemma Join_FileCustomUserData p :
  Join p [FileCustomUserData] = p ++ [FileCustomUserData].
Proof. done. Qed.

Lemma kind_at_File p t c : kind_at p t = KFile c ↔ Stat p t = StatNode (File c).
Proof.
  unfold kind_at. destruct (Stat p t) as [[c'|es]| |]; simpl; split; intros; by simplify_eq.
Qed.

Lemma kind_at_Dir p t : kind_at p t = KDir ↔ ∃ es, Stat p t = StatNode (Dir es).
Proof.
  unfold kind_at. destruct (Stat p t) as [[c'|es]| |]; simpl; split;
    try intros [? ?]; intros; simplify_eq; eauto.
Qed.

Lemma ReadDir_empty : ReadDir ∅ = [].
Proof. unfold ReadDir. by rewrite map_to_list_empty. Qed.

Lemma fold_result_filter {A B} (P : A → Prop) `{!∀ x, Decision (P x)}
    (f g : A → B → result B) l acc :
  (∀ x acc, P x → f x acc = g x acc) →
  (∀ x acc, ¬ P x → f x acc = Ok acc) →
  fold_result f l acc = fold_result g (filter P l) acc.
Proof.
  intros Hin Hout. revert acc. induction l as [|x l IH]; intros acc; [done|].
  rewrite filter_cons. simpl. destruct (decide (P x)) as [HP|HP].
  - simpl. rewrite Hin by done. destruct (g x acc); simpl; [apply IH|done].
  - rewrite Hout by done. simpl. apply IH.
Qed.

Section Load.
Context `{Sections}.

Lemma LoadData_Ok rootDir t a a' :
  LoadData rootDir t a = (Ok tt, a') →
  parseAuth rootDir t = Ok (Auth a') ∧
  parseSync rootDir t = Ok (Sync a') ∧
  parseFunctionsV2 rootDir t = Ok (Functions a') ∧
  parseDataSources rootDir t = Ok (DataSources a') ∧
  parseHTTPEndpoints rootDir t = Ok (HTTPEndpoints a').
Proof.
  unfold LoadData. cbv [bind lift modify ret].
  destruct (parseSecrets rootDir t); [|done].
  destruct (parseEnvironments rootDir t); [|done].
  destruct (parseJSONFiles _ t); [|done].
  destruct (parseAuth rootDir t); [|done].
  destruct (parseSync rootDir t); [|done].
  destruct (parseFunctionsV2 rootDir t); [|done].
  destruct (parseJSONFiles _ t); [|done].
  destruct (parseGraphQL rootDir t) as [[g []]|]; [| |done]; simpl;
  (destruct (parseServices rootDir t); [|done]);
  (destruct (parseDataSources rootDir t); [|done]);
  (destruct (parseHTTPEndpoints rootDir t); [|done]);
  intros [= <-]; done.
Qed.

(** C6 (absence detection).  When the [auth] directory does not exist the
    auth parser returns the nil section without an error, and a [LoadData]
    that succeeds leaves [Auth] nil, not a present section with nil
    documents; when the [data_sources] directory exists and is empty the
    data source parser returns the empty sequence without an error. *)
Theorem absence_detection (rootDir : path) (t : node) :
  (Stat (Join rootDir [NameAuth]) t = StatNotExist →
   parseAuth rootDir t = Ok None ∧
   ∀ a a', LoadData rootDir t a = (Ok tt, a') → Auth a' = None) ∧
  (Stat (Join rootDir [NameDataSources]) t = StatNode (Dir ∅) →
   parseDataSources rootDir t = Ok [] ∧
   ∀ a a', LoadData rootDir t a = (Ok tt, a') → DataSources a' = []).
Proof.
  split.
  - intros Hs. assert (parseAuth rootDir t = Ok None) as Hp.
    { unfold parseAuth. by rewrite Hs. }
    split; [done|]. intros a a' (Ha & _)%LoadData_Ok. congruence.
  - intros Hs. assert (parseDataSources rootDir t = Ok []) as Hp.
    { unfold parseDataSources, dw_walk. by rewrite Hs, ReadDir_empty. }
    split; [done|]. intros a a' (_ & _ & _ & Ha & _)%LoadData_Ok. congruence.
Qed.

End Load.

(** C8 (directory skip rule).  A collection directory without a rule file
    leaves the rule sequence as it is and raises no error; hence the rules of
    a database directory are those of its collection directories that hold a
    rule file, in the order of their names. *)
Theorem directory_skip (t : node) :
  (∀ coll collPath rules,
     Stat (Join collPath [FileRules]) t = StatNotExist →
     visitColl t coll collPath rules = Ok rules) ∧
  (∀ db dbPath es rules,
     Stat dbPath t = StatNode (Dir es) →
     visitDB t db dbPath rules =
     fold_result
       (λ name, visitColl t (default (Dir ∅) (es !! name)) (dbPath ++ [name]))
       (filter (λ name, holds_rules t dbPath es name = true) (ReadDir es))
       rules).
Proof.
  assert (Hskip : ∀ coll collPath rules,
     Stat (Join collPath [FileRules]) t = StatNotExist →
     visitColl t coll collPath rules = Ok rules).
  { intros coll collPath rules Hs. unfold visitColl. by rewrite Hs. }
  split; [done|].
  intros db dbPath es rules Hs. unfold visitDB, dw_walk. rewrite Hs.
  apply fold_result_filter.
  - intros name acc. unfold holds_rules.
    destruct (es !! name) as [[c|es']|]; try done.
  - intros name acc. unfold holds_rules.
    destruct (es !! name) as [[c|es']|] eqn:Hn; try done. simpl.
    destruct (Stat (Join (dbPath ++ [name]) [FileRules]) t) eqn:Hst;
      [by intros []|intros _; by apply Hskip|by intros []].
Qed.

Lemma absence_detection_witness :
  let t := Dir {[ "app" := Dir {[ "data_sources" := Dir ∅ ]} ]} in
  parseAuth ["app"] t = Ok None ∧ parseDataSources ["app"] t = Ok [].
Proof.
  intros t.
  destruct (absence_detection (H := no_sections) ["app"] t) as [Hauth Hds].
  split; [apply Hauth|apply Hds]; reflexivity.
Defined.

Lemma directory_skip_witness :
  let t := Dir {[ "ds1" := Dir {[ "db1" := Dir {[ "coll1" := Dir ∅ ]} ]} ]} in
  visitColl t (Dir ∅) ["ds1"; "db1"; "coll1"] [] = Ok [].
Proof.
  intros t. apply (directory_skip t). reflexivity.
Defined.

(** ** Single writes *)

Lemma copy_map_Some (d : Document) : copy_map (Some d) = d.
Proof.
  unfold copy_map.
  apply (map_fold_weak_ind (λ r (m : Document), r = m)); [done|].
  intros i x m r _ ->. done.
Qed.

Lemma write_at_same p c t :
  p ≠ [] → Stat p t = StatNode (File c) → write_at p c t = Some t.
Proof.
  revert t. induction p as [|n p IH]; intros t Hp Hs; [done|].
  destruct t as [c0|es]; [done|]. simpl in Hs.
  destruct (es !! n) as [ch|] eqn:Hn; [|done].
  destruct p as [|n' p].
  - simpl in Hs. simplify_eq. rewrite write_at_one, Hn. by rewrite insert_id.
  - rewrite write_at_cons, Hn.
    change (default (Dir ∅) (Some ch)) with ch.
    rewrite (IH _ ltac:(done) Hs). simpl. by rewrite insert_id.
Qed.

Lemma WriteFile_same p c t :
  p ≠ [] → Stat p t = StatNode (File c) → WriteFile p c t = (Ok tt, t).
Proof. intros Hp Hs. unfold WriteFile. by rewrite write_at_same. Qed.

Lemma WriteFile_Ok p c t t' :
  WriteFile p c t = (Ok tt, t') → Stat p t' = StatNode (File c).
Proof.
  unfold WriteFile. destruct (write_at p c t) as [t1|] eqn:Hw; [|done].
  intros [= <-]. apply kind_at_File.
  by rewrite (write_at_kind _ _ _ _ p Hw), decide_True.
Qed.

Lemma WriteFile_Err p c t e t' : WriteFile p c t = (Err e, t') → t' = t.
Proof. unfold WriteFile. destruct (write_at p c t); by intros [= <-]. Qed.

Lemma MkdirAll_Ok p t t' :
  MkdirAll p t = (Ok tt, t') → ∃ es, Stat p t' = StatNode (Dir es).
Proof.
  unfold MkdirAll. destruct (mkdir_at p t) as [t1|] eqn:Hw; [|done].
  intros [= <-]. apply kind_at_Dir.
  by rewrite (mkdir_at_kind _ _ _ p Hw), decide_True.
Qed.

Lemma MkdirAll_files p t r t' q c :
  MkdirAll p t = (r, t') →
  Stat q t' = StatNode (File c) ↔ Stat q t = StatNode (File c).
Proof.
  unfold MkdirAll. destruct (mkdir_at p t) as [t1|] eqn:Hw; intros [= <- <-]; [|done].
  rewrite <-!kind_at_File, (mkdir_at_kind _ _ _ q Hw).
  case_decide as Hq; [|done].
  assert (is_Some (mkdir_at p t)) as Hs by eauto.
  rewrite mkdir_at_Some in Hs. specialize (Hs q Hq).
  split; [done|]. intros Hk. by rewrite Hk in Hs.
Qed.


Lemma for_each_Exists_Err {S A} (f : A → St S unit) xs s :
  Exists (λ x, ∀ s, ∃ e s', f x s = (Err e, s')) xs →
  ∃ e s', for_each f xs s = (Err e, s').
Proof.
  intros Hex. revert s. induction Hex as [x xs Hx|x xs _ IH]; intros s; simpl.
  - destruct (Hx s) as (e & s' & Hf). unfold bind. rewrite Hf. eauto.
  - unfold bind. destruct (f x s) as [[[]|e] s1]; [apply IH|eauto].
Qed.

(** ** The claims on the writers *)

(** C2 (validation of the naming fields), as the code has it.  The data
    source writer checks the name of a data source, and the HTTP endpoint
    writer the name of an endpoint and the source and the name of a webhook:
    when one is missing or is not a string, nothing is written for that
    entity and the writer returns the fixed error of its section (which names
    the section, not the field), so the whole write fails.  The database and
    the collection of a rule are left out of this statement. *)
Theorem naming_fields_validated (dir : path) (t : node) :
  (∀ ds, as_string (index (DataSource_Config ds) "name") = None →
     writeDataSource dir ds t
     = (Err (ErrorString "error writing datasources"), t)) ∧
  (∀ ep, as_string (index (HTTPEndpoint_Config ep) "name") = None →
     writeHTTPEndpoint dir ep t
     = (Err (ErrorString "error writing http endpoints"), t)) ∧
  (∀ n webhook,
     as_string (index webhook "name") = None ∨
     as_string (index webhook NameSource) = None →
     writeWebhook dir n webhook t
     = (Err (ErrorString "error writing http endpoints"), t)) ∧
  (∀ rootDir dss,
     Exists (λ ds, as_string (index (DataSource_Config ds) "name") = None) dss →
     ∃ e t', writeDataSources rootDir dss t = (Err e, t')) ∧
  (∀ rootDir eps,
     Exists (λ ep,
       as_string (index (HTTPEndpoint_Config ep) "name") = None ∨
       Exists (λ webhook,
         as_string (index webhook "name") = None ∨
         as_string (index webhook NameSource) = None)
         (IncomingWebhooks ep)) eps →
     ∃ e t', writeHTTPEndpoints rootDir eps t = (Err e, t')).
Proof.
  assert (Hds : ∀ d t ds, as_string (index (DataSource_Config ds) "name") = None →
     writeDataSource d ds t = (Err (ErrorString "error writing datasources"), t)).
  { intros d t0 ds Hn. unfold writeDataSource. by rewrite Hn. }
  assert (Hep : ∀ d t ep, as_string (index (HTTPEndpoint_Config ep) "name") = None →
     writeHTTPEndpoint d ep t
     = (Err (ErrorString "error writing http endpoints"), t)).
  { intros d t0 ep Hn. unfold writeHTTPEndpoint. by rewrite Hn. }
  assert (Hwh : ∀ d t n webhook,
     as_string (index webhook "name") = None ∨
     as_string (index webhook NameSource) = None →
     writeWebhook d n webhook t
     = (Err (ErrorString "error writing http endpoints"), t)).
  { intros d t0 n webhook Hn. unfold writeWebhook.
    destruct (as_string (index webhook NameSource)); [|done].
    destruct Hn as [->|?]; done. }
  split_and!; [by auto..| |].
  - intros rootDir dss Hex. unfold writeDataSources, bind.
    destruct (MkdirAll _ t) as [[[]|e] t1]; [|by eauto].
    apply for_each_Exists_Err. eapply Exists_impl; [done|].
    intros ds Hn s. rewrite Hds by done. eauto.
  - intros rootDir eps Hex. unfold writeHTTPEndpoints, bind.
    destruct (MkdirAll _ t) as [[[]|e] t1]; [|by eauto].
    apply for_each_Exists_Err. eapply Exists_impl; [done|].
    intros ep [Hn|Hw] s; [rewrite Hep by done; by eauto|].
    unfold writeHTTPEndpoint.
    destruct (as_string _) as [name|]; [|unfold fail; by eauto].
    unfold bind. destruct (WriteFile _ _ s) as [[[]|e] s1]; [|by eauto].
    apply for_each_Exists_Err. eapply Exists_impl; [done|].
    intros webhook Hn s'. rewrite Hwh by done. eauto.
Qed.

(** C4 (missing-name rejection).  When the data source handed to the writer
    has no name that is a string, the writer returns an error, which is the
    error of the section for the missing name whenever the section directory
    can be created, and it creates no file: the tree holds exactly the files
    it held before, and the only entries that can be new are the directories
    that lead to the section directory. *)
Theorem missing_name_rejection (rootDir : path) (ds : DataSourceStructure)
    (post : list DataSourceStructure) (t t' : node) (r : result unit) :
  as_string (index (DataSource_Config ds) "name") = None →
  writeDataSources rootDir (ds :: post) t = (r, t') →
  (∃ e, r = Err e) ∧
  ((MkdirAll (Join rootDir [NameDataSources]) t).1 = Ok tt →
   r = Err (ErrorString "error writing datasources")) ∧
  (∀ p c, Stat p t' = StatNode (File c) ↔ Stat p t = StatNode (File c)) ∧
  (∀ p, ¬ p `prefix_of` Join rootDir [NameDataSources] →
        kind_at p t' = kind_at p t).
Proof.
  intros Hn. unfold writeDataSources, bind.
  destruct (MkdirAll _ t) as [[[]|e] t1] eqn:Hm.
  - simpl. unfold bind, writeDataSource. rewrite Hn. intros [= <- <-].
    split_and!; [by eauto|done|intros p c; by eapply MkdirAll_files|].
    intros p Hp. unfold MkdirAll in Hm.
    destruct (mkdir_at _ t) as [t2|] eqn:Hmk; [|done].
    injection Hm as <-. rewrite (mkdir_at_kind _ _ _ p Hmk).
    by rewrite decide_False.
  - intros [= <- <-].
    assert (t1 = t) as ->.
    { unfold MkdirAll in Hm. destruct (mkdir_at _ t); by simplify_eq. }
    split_and!; [by eauto|done|done|done].
Qed.

Section WritePath.
Context `{Sections}.

(** C5 (which sections the write path creates), as the code has it.  A nil
    Auth and a nil Sync are skipped and nothing is created; so are an Auth
    whose two documents are nil and a Sync whose document is nil, though they
    are present.  A nil Functions is not skipped: its directory is created
    with the configuration file holding the empty array; a nil GraphQL is
    written as the empty structure.  The directories of the data sources and
    of the HTTP endpoints are created even for an empty sequence. *)
Theorem write_path_sections (rootDir : path) (t : node) :
  writeAuth rootDir None t = (Ok tt, t) ∧
  writeSync rootDir None t = (Ok tt, t) ∧
  writeAuth rootDir (Some {| CustomUserData := None; Providers := None |}) t
  = (Ok tt, t) ∧
  writeSync rootDir (Some {| Sync_Config := None |}) t = (Ok tt, t) ∧
  (∀ t', writeFunctionsV2 rootDir None [] t = (Ok tt, t') →
     Stat (Join (Join rootDir [NameFunctions]) [FileConfig]) t'
     = StatNode (File (JSONText (JArr [])))) ∧
  (∀ a order, GraphQL a = None →
     WriteData rootDir a order t
     = WriteData rootDir (set_GraphQL (Some GraphQLStructure_zero) a) order t) ∧
  (∀ t', writeDataSources rootDir [] t = (Ok tt, t') →
     ∃ es, Stat (Join rootDir [NameDataSources]) t' = StatNode (Dir es)) ∧
  (∀ t', writeHTTPEndpoints rootDir [] t = (Ok tt, t') →
     ∃ es, Stat (Join rootDir [NameHTTPEndpoints]) t' = StatNode (Dir es)).
Proof.
  split_and!; try done.
  - intros t'. unfold writeFunctionsV2. simpl. rewrite bind_ret_r.
    apply WriteFile_Ok.
  - intros a order Ha. unfold WriteData. simpl. by rewrite Ha.
  - intros t'. unfold writeDataSources. simpl. rewrite bind_ret_r.
    apply MkdirAll_Ok.
  - intros t'. unfold writeHTTPEndpoints. simpl. rewrite bind_ret_r.
    apply MkdirAll_Ok.
Qed.

End WritePath.

(** *** Concrete runs *)

(** C2, refuted as stated: a rule without a database is written, under a
    directory named after the formatting of nil, and the write succeeds; and
    the error for a data source without a name is the fixed text of the
    section, which names no field. *)
Lemma rule_database_not_validated :
  as_string (index rule_no_database "database") = None ∧
  (writeDataSources ["app"] [ds_rule_no_database] (Dir ∅)).1 = Ok tt ∧
  Stat ["app"; "data_sources"; "ds1"; "%!s(<nil>)"; "coll1"; "rules.json"]
       (writeDataSources ["app"] [ds_rule_no_database] (Dir ∅)).2
  = StatNode (File (JSONText (JObj {[ "collection" := JStr "coll1" ]}))) ∧
  (writeDataSources ["app"] [ds_nameless] (Dir ∅)).1
  = Err (ErrorString "error writing datasources").
Proof. split_and!; vm_compute; reflexivity. Qed.

Lemma naming_fields_validated_witness :
  writeDataSource ["app"; "data_sources"] ds_nameless (Dir ∅)
  = (Err (ErrorString "error writing datasources"), Dir ∅).
Proof.
  apply (naming_fields_validated ["app"; "data_sources"] (Dir ∅)).
  reflexivity.
Defined.

Lemma missing_name_rejection_witness :
  (writeDataSources ["app"] [ds_nameless; ds_named] empty_root).1
  = Err (ErrorString "error writing datasources") ∧
  (∀ p c,
     Stat p (writeDataSources ["app"] [ds_nameless; ds_named] empty_root).2
     = StatNode (File c) ↔ Stat p empty_root = StatNode (File c)).
Proof.
  destruct (missing_name_rejection ["app"] ds_nameless [ds_named] empty_root
              _ _ eq_refl (surjective_pairing _)) as (_ & He & Hf & _).
  split; [apply He; reflexivity|exact Hf].
Defined.

(** C5, refuted as stated: writing the zero model, whose Functions section
    is nil, creates the functions directory; writing a present Auth without
    documents creates no auth directory. *)
Lemma nil_functions_materialised :
  Functions (empty_app (H := no_sections)) = None ∧
  (WriteData (H := no_sections) ["app"] empty_app [] (Dir ∅)).1 = Ok tt ∧
  Stat ["app"; "functions"; "config.json"]
       (WriteData (H := no_sections) ["app"] empty_app [] (Dir ∅)).2
  = StatNode (File (JSONText (JArr []))) ∧
  writeAuth ["app"] (Some {| CustomUserData := None; Providers := None |})
    (Dir ∅) = (Ok tt, Dir ∅).
Proof. split_and!; vm_compute; reflexivity. Qed.

Lemma write_path_sections_witness :
  Stat (Join (Join ["app"] [NameFunctions]) [FileConfig])
       (writeFunctionsV2 ["app"] None [] (Dir ∅)).2
  = StatNode (File (JSONText (JArr []))).
Proof.
  apply (write_path_sections (H := no_sections) ["app"] (Dir ∅)).
  reflexivity.
Defined.

(** ** The rule and its schema *)

Lemma Join_Join b l1 l2 : Join (Join b l1) l2 = Join b (l1 ++ l2).
Proof. unfold Join. by rewrite bind_app, foldl_app. Qed.

Lemma Join_FileRules_ne_nil p : Join p [FileRules] ≠ [].
Proof. rewrite Join_FileRules. by destruct p. Qed.

Lemma Join_FileSchema_ne_nil p : Join p [FileSchema] ≠ [].
Proof. rewrite Join_FileSchema. by destruct p. Qed.

Lemma parseJSON_object p t m :
  Stat p t = StatNode (File (JSONText (JObj m))) → parseJSON p t = Ok (Some m).
Proof. intros Hs. unfold parseJSON. by rewrite Hs. Qed.

(** C3 (schema/rule merge).  Let a collection directory hold a rule file
    with the document [r], in which the reserved schema key is free, and a
    schema file with the document [s].  Loading gives one rule, [r] with [s]
    under the schema key.  Writing that rule writes [r] itself to the rule
    file (so without the schema key) and [s] to the schema file, in the
    directory named by the database and the collection of the rule, and
    nothing else; when that is the directory the rule was loaded from, the
    tree is reproduced as it was. *)
Theorem schema_rule_merge (t coll : node) (collPath dir : path)
    (name db cl : string) (r s : Document) (rules : list (option Document)) :
  Stat (Join collPath [FileRules]) t = StatNode (File (JSONText (JObj r))) →
  Stat (Join collPath [FileSchema]) t = StatNode (File (JSONText (JObj s))) →
  r !! NameSchema = None →
  let rule : Document := <[NameSchema := JObj s]> r in
  visitColl t coll collPath rules = Ok (rules ++ [Some rule]) ∧
  (∀ k v, r !! k = Some v → rule !! k = Some v) ∧
  rule !! NameSchema = Some (JObj s) ∧
  (∀ t0,
     writeRule dir name (Some rule) t0
     = (WriteFile
          (Join dir [name; Sprintf_s (index (Some r) "database");
                     Sprintf_s (index (Some r) "collection"); FileRules])
          (JSONText (JObj r)) ;;
        WriteFile
          (Join dir [name; Sprintf_s (index (Some r) "database");
                     Sprintf_s (index (Some r) "collection"); FileSchema])
          (JSONText (JObj s))) t0) ∧
  (r !! "database" = Some (JStr db) → r !! "collection" = Some (JStr cl) →
   collPath = Join dir [name; db; cl] →
   writeRule dir name (Some rule) t = (Ok tt, t)).
Proof.
  intros Hr Hs Hfree rule.
  assert (Hw : ∀ t0,
     writeRule dir name (Some rule) t0
     = (WriteFile
          (Join dir [name; Sprintf_s (index (Some r) "database");
                     Sprintf_s (index (Some r) "collection"); FileRules])
          (JSONText (JObj r)) ;;
        WriteFile
          (Join dir [name; Sprintf_s (index (Some r) "database");
                     Sprintf_s (index (Some r) "collection"); FileSchema])
          (JSONText (JObj s))) t0).
  { intros t0. unfold writeRule, MarshalJSON.
    rewrite copy_map_Some. unfold rule, index. simpl.
    rewrite delete_insert_eq, (delete_id r) by done.
    rewrite lookup_insert_eq, !lookup_insert_ne by done. done. }
  split_and!; [| | |done|].
  - unfold visitColl. rewrite Hr, (parseJSON_object _ _ _ Hr),
      (parseJSON_object _ _ _ Hs). done.
  - intros k v Hk. unfold rule. rewrite lookup_insert_ne; [done|].
    intros <-. congruence.
  - unfold rule. by rewrite lookup_insert_eq.
  - intros Hdb Hcl ->. rewrite Hw. unfold index, Sprintf_s. simpl.
    rewrite Hdb, Hcl. simpl.
    change [name; db; cl; FileRules] with ([name; db; cl] ++ [FileRules]).
    change [name; db; cl; FileSchema] with ([name; db; cl] ++ [FileSchema]).
    rewrite <-!Join_Join. unfold bind.
    rewrite (WriteFile_same _ _ _ (Join_FileRules_ne_nil _) Hr).
    by rewrite (WriteFile_same _ _ _ (Join_FileSchema_ne_nil _) Hs).
Qed.

Lemma schema_rule_merge_witness :
  visitColl spec_tree (Dir ∅) ["data_sources"; "ds1"; "db1"; "coll1"] []
  = Ok [Some (<[NameSchema := JObj spec_schema]> spec_rule)] ∧
  writeRule ["data_sources"] "ds1"
    (Some (<[NameSchema := JObj spec_schema]> spec_rule)) spec_tree
  = (Ok tt, spec_tree).
Proof.
  destruct (schema_rule_merge spec_tree (Dir ∅)
              ["data_sources"; "ds1"; "db1"; "coll1"] ["data_sources"]
              "ds1" "db1" "coll1" spec_rule spec_schema [])
    as (Hload & _ & _ & _ & Hwrite); [reflexivity..|].
  split; [exact Hload|]. apply Hwrite; reflexivity.
Defined.

(** ** Splitting and joining path strings *)

Lemma rev_app_append a b c :
  String.rev_app a b +:+ c = String.rev_app a (b +:+ c).
Proof. revert b. induction a as [|x a IH]; intros b; [done|]. simpl. by rewrite IH. Qed.

Lemma split_go_no_slash cur s :
  has_slash s = false → split_go cur s = [String.rev cur +:+ s].
Proof.
  revert cur. induction s as [|c s IH]; intros cur Hs; simpl in *.
  - unfold String.rev. by rewrite rev_app_append.
  - apply orb_false_iff in Hs as [Hc Hs]. rewrite Hc, (IH _ Hs).
    unfold String.rev. simpl. by rewrite !rev_app_append.
Qed.

Lemma split_go_slash cur s rest :
  has_slash s = false →
  split_go cur (s +:+ String "/"%char rest)
  = (String.rev cur +:+ s) :: split_go "" rest.
Proof.
  revert cur. induction s as [|c s IH]; intros cur Hs; simpl in *.
  - unfold String.rev. by rewrite rev_app_append.
  - apply orb_false_iff in Hs as [Hc Hs]. rewrite Hc, (IH _ Hs).
    unfold String.rev. simpl. by rewrite !rev_app_append.
Qed.

Lemma split_concat (l : list string) :
  l ≠ [] → Forall (λ s, has_slash s = false) l →
  split (String.concat "/" l) = l.
Proof.
  intros Hl Hall. unfold split.
  induction Hall as [|x l Hx Hall IH]; [done|].
  destruct l as [|y l].
  - simpl. by rewrite split_go_no_slash.
  - change (String.concat "/" (x :: y :: l))
      with (x +:+ String "/"%char (String.concat "/" (y :: l))).
    rewrite split_go_slash by done. by rewrite IH.
Qed.

Lemma concat_slash_inj (l1 l2 : list string) :
  l1 ≠ [] → l2 ≠ [] →
  Forall (λ s, has_slash s = false) l1 → Forall (λ s, has_slash s = false) l2 →
  String.concat "/" l1 = String.concat "/" l2 → l1 = l2.
Proof.
  intros ???? Heq. rewrite <-(split_concat l1), <-(split_concat l2) by done.
  by rewrite Heq.
Qed.

(** ** Directory listings *)

Lemma ReadDir_perm (es : gmap string node) : ReadDir es ≡ₚ (map_to_list es).*1.
Proof. apply merge_sort_Permutation. Qed.

Lemma elem_of_ReadDir (es : gmap string node) name :
  name ∈ ReadDir es ↔ is_Some (es !! name).
Proof.
  rewrite ReadDir_perm, list_elem_of_fmap. split.
  - intros ([k v] & -> & Hkv). apply elem_of_map_to_list in Hkv. by eauto.
  - intros [v Hv]. exists (name, v). split; [done|]. by apply elem_of_map_to_list.
Qed.

Lemma NoDup_ReadDir (es : gmap string node) : NoDup (ReadDir es).
Proof. rewrite ReadDir_perm. apply NoDup_fst_map_to_list. Qed.

Lemma Sorted_ReadDir (es : gmap string node) : Sorted String.le (ReadDir es).
Proof. apply (Sorted_merge_sort String.le); apply _. Qed.

Lemma Stat_app p q t :
  Stat (p ++ q) t = match Stat p t with StatNode n => Stat q n | r => r end.
Proof.
  revert t. induction p as [|n p IH]; intros t; [done|].
  destruct t as [c|es]; [done|]. simpl. destruct (es !! n); [apply IH|done].
Qed.

Lemma Stat_File_inv rel c c' :
  Stat rel (File c) = StatNode (File c') → rel = [] ∧ c = c'.
Proof. destruct rel; simpl; [|done]. by intros [= ->]. Qed.

Lemma path_ext_app p q : q ≠ [] → path_ext (p ++ q) = path_ext q.
Proof.
  intros Hq. unfold path_ext. rewrite last_app.
  destruct (last q) eqn:Hl; [done|]. by apply last_None in Hl.
Qed.

Lemma Rel_app dir rel : Rel dir (dir ++ rel) = String.concat "/" rel.
Proof. unfold Rel. by rewrite drop_app_length. Qed.

(** ** The walk over the function sources *)

Section WalkSources.
Variables (t : node) (dir : path).

Lemma js_under_Dir es rel0 k v :
  js_under dir (Dir es) rel0 k v ↔
  ∃ name ch, es !! name = Some ch ∧ js_under dir ch (rel0 ++ [name]) k v.
Proof.
  split.
  - intros (rel & c & Hs & He & -> & ->). destruct rel as [|name rel]; [done|].
    simpl in Hs. destruct (es !! name) as [ch|] eqn:Hn; [|done].
    exists name, ch. split; [done|]. exists rel, c.
    by rewrite <-!app_assoc.
  - intros (name & ch & Hn & rel & c & Hs & He & -> & ->).
    exists (name :: rel), c. simpl. rewrite Hn. by rewrite <-!app_assoc in *.
Qed.

Lemma walk_node_collects n :
  ∀ rel0 acc,
    Stat (dir ++ rel0) t = StatNode n →
    (∀ rel n', Stat rel n = StatNode n' → Forall (λ s, has_slash s = false) rel) →
    Forall (λ s, has_slash s = false) rel0 →
    (rel0 = [] → is_dir n = true) →
    ∃ acc', walk_node (visitSource t dir) n (dir ++ rel0) acc = Ok acc' ∧
            collected dir n rel0 acc acc'.
Proof.
  induction n as [c|es IH] using node_ind'; intros rel0 acc Hst Hnames Hrel0 Hne.
  - (* a file *)
    assert (rel0 ≠ []) as Hrel0ne by (intros ->; by specialize (Hne eq_refl)).
    simpl. unfold visitSource. rewrite Rel_app.
    unfold ReadFile. rewrite Hst. simpl.
    destruct (decide (path_ext (dir ++ rel0) ≠ extJS)) as [Hext|Hext].
    + exists acc. split; [done|]. split_and!; [|done|by auto].
      intros k v (rel & c' & [-> ->]%Stat_File_inv & He & _).
      by rewrite app_nil_r in He.
    + apply dec_stable in Hext. eexists. split; [done|]. split_and!.
      * intros k v (rel & c' & [-> ->]%Stat_File_inv & He & -> & ->).
        by rewrite app_nil_r, lookup_insert_eq.
      * intros k Hk. rewrite lookup_insert_ne; [done|].
        intros <-. apply (Hk (text_of c)). exists [], c.
        by rewrite !app_nil_r.
      * intros k v [[<- <-]|[_ Hk]]%lookup_insert_Some; [left|by right].
        exists [], c. by rewrite !app_nil_r.
  - (* a directory *)
    simpl.
    set (below := walk_node (visitSource t dir) <$> es).
    set (F := λ (name : string) (acc : gmap string string),
           match below !! name with
           | Some visit => visit ((dir ++ rel0) ++ [name]) acc
           | None => Ok acc
           end).
    assert (Hfold : ∀ l : list string,
      NoDup l → (∀ name, name ∈ l → is_Some (es !! name)) →
      ∀ acc : gmap string string, ∃ acc' : gmap string string,
        fold_result F l acc = Ok acc' ∧
        (∀ name ch k v, name ∈ l → es !! name = Some ch →
           js_under dir ch (rel0 ++ [name]) k v → acc' !! k = Some v) ∧
        (∀ k, (∀ name ch v, name ∈ l → es !! name = Some ch →
                 ¬ js_under dir ch (rel0 ++ [name]) k v) →
              acc' !! k = acc !! k) ∧
        (∀ k v, acc' !! k = Some v →
           (∃ name ch, es !! name = Some ch ∧
                       js_under dir ch (rel0 ++ [name]) k v) ∨
           acc !! k = Some v)).
    { induction l as [|name l IHl]; intros Hnd Hin acc0.
      { exists acc0. split; [done|]. split_and!; [|done|by auto].
        intros ???? Hx. by apply elem_of_nil in Hx. }
      apply NoDup_cons in Hnd as [Hnotin Hnd].
      destruct (Hin name) as [ch Hch]; [by left|].
      simpl. unfold F at 1, below. rewrite lookup_fmap, Hch. simpl.
      assert (Hnames_ch : ∀ rel n',
        Stat rel ch = StatNode n' → Forall (λ s, has_slash s = false) (name :: rel)).
      { intros rel n' Hs. apply (Hnames (name :: rel) n'). simpl. by rewrite Hch. }
      destruct (IH name ch Hch (rel0 ++ [name]) acc0)
        as (acc1 & Hw1 & Hc1a & Hc1b & Hc1c).
      { rewrite app_assoc, Stat_app, Hst. simpl. by rewrite Hch. }
      { intros rel n' Hs. by eapply Forall_inv_tail, Hnames_ch. }
      { apply Forall_app. split; [done|]. apply Forall_singleton.
        exact (Forall_inv (Hnames_ch [] ch eq_refl)). }
      { by intros [_ ?]%app_eq_nil. }
      rewrite <-app_assoc, Hw1. simpl.
      destruct (IHl Hnd (λ x Hx, Hin x (list_elem_of_further _ _ _ Hx)) acc1)
        as (acc' & Hw & Ha & Hb & Hc).
      exists acc'. split; [done|]. split_and!.
      - intros name' ch' k v [->|Hl]%elem_of_cons Hch' Hjs.
        + simplify_eq. rewrite Hb; [by apply Hc1a|].
          intros name2 ch2 v2 Hin2 Hch2 (rel2 & c2 & Hs2 & _ & Hk2 & _).
          destruct Hjs as (rel & c & Hs & _ & -> & _).
          apply concat_slash_inj in Hk2.
          * rewrite <-!app_assoc in Hk2. apply app_inv_head in Hk2.
            simpl in Hk2. injection Hk2 as <- _. by destruct Hnotin.
          * by intros [_ ?]%app_eq_nil%proj1%app_eq_nil.
          * by intros [_ ?]%app_eq_nil%proj1%app_eq_nil.
          * apply Forall_app. split; [apply Forall_app; split; [done|]|].
            -- apply Forall_singleton.
               exact (Forall_inv (Hnames_ch [] ch eq_refl)).
            -- by eapply Forall_inv_tail, Hnames_ch.
          * apply Forall_app. split; [apply Forall_app; split; [done|]|].
            -- apply Forall_singleton.
               refine (Forall_inv (Hnames [name2] ch2 _)).
               simpl. by rewrite Hch2.
            -- refine (Forall_inv_tail (Hnames (name2 :: rel2) _ _)).
               simpl. by rewrite Hch2.
        + by eapply Ha.
      - intros k Hk. rewrite Hb.
        + apply Hc1b. intros v. apply (Hk name ch v); [by left|done].
        + intros name2 ch2 v2 Hin2. apply Hk. by right.
      - intros k v [?|[?|?]%Hc1c]%Hc; by eauto. }
    destruct (Hfold (ReadDir es) (NoDup_ReadDir es)
                (λ name Hin, proj1 (elem_of_ReadDir es name) Hin) acc)
      as (acc' & Hw & Ha & Hb & Hc).
    exists acc'. split; [done|]. split_and!.
    + intros k v (name & ch & Hch & Hjs)%js_under_Dir.
      eapply Ha; [|done..]. apply elem_of_ReadDir. by eauto.
    + intros k Hk. apply Hb. intros name ch v _ Hch Hjs.
      apply (Hk v). apply js_under_Dir. by eauto.
    + intros k v [?|?]%Hc; [left|by right]. by apply js_under_Dir.
Qed.

End WalkSources.

Lemma names_ok_Stat n rel n' :
  names_ok n = true → Stat rel n = StatNode n' →
  Forall (λ s, has_slash s = false) rel.
Proof.
  revert n. induction rel as [|name rel IH]; intros n Hok Hs; [done|].
  destruct n as [c|es]; [done|]. simpl in Hs, Hok.
  apply bool_decide_eq_true_1 in Hok.
  destruct (es !! name) as [ch|] eqn:Hch; [|done].
  destruct (Hok name (names_ok ch)) as [Hname Hch_ok].
  { by rewrite lookup_fmap, Hch. }
  constructor; [done|]. by eapply IH.
Qed.

(** C9 (function source discovery).  Let the functions directory exist, its
    configuration file decode, and the names below it be free of separators
    (as the names of a file system are).  Then the functions parser returns a
    section, and for every file below the directory, at any depth, the source
    mapping holds the text of the file under its path relative to the
    directory when its extension is the source extension, and nothing under
    that path otherwise; the mapping holds nothing else. *)
Theorem function_source_discovery (rootDir : path) (t : node)
    (es : gmap string node) (configs : list (option Document)) :
  let dir := Join rootDir [NameFunctions] in
  Stat dir t = StatNode (Dir es) →
  parseJSONArray (Join dir [FileConfig]) t = Ok configs →
  (∀ rel n, Stat (dir ++ rel) t = StatNode n →
            Forall (λ s, has_slash s = false) rel) →
  ∃ sources,
    parseFunctionsV2 rootDir t
    = Ok (Some {| Configs := configs; Sources := sources |}) ∧
    (∀ rel c, Stat (dir ++ rel) t = StatNode (File c) →
       sources !! Rel dir (dir ++ rel)
       = if decide (path_ext (dir ++ rel) = extJS) then Some (text_of c)
         else None) ∧
    (∀ k v, sources !! k = Some v →
       ∃ rel c, Stat (dir ++ rel) t = StatNode (File c) ∧
                path_ext (dir ++ rel) = extJS ∧
                k = Rel dir (dir ++ rel) ∧ v = text_of c).
Proof.
  intros dir Hdir Hcfg Hnames.
  destruct (walk_node_collects t dir (Dir es) [] ∅) as (sources & Hw & Ha & Hb & Hc).
  { by rewrite app_nil_r. }
  { intros rel n Hs. apply (Hnames rel n). by rewrite Stat_app, Hdir. }
  { done. }
  { done. }
  rewrite app_nil_r in Hw.
  assert (Hunder : ∀ rel c, Stat (dir ++ rel) t = StatNode (File c) →
            rel ≠ [] ∧ Stat rel (Dir es) = StatNode (File c)).
  { intros rel c Hs. rewrite Stat_app, Hdir in Hs. split; [|done].
    intros ->. done. }
  exists sources. split_and!.
  - unfold parseFunctionsV2. fold dir. rewrite Hdir, Hcfg. simpl.
    unfold walk. rewrite Hdir, Hw. done.
  - intros rel c Hs. destruct (Hunder rel c Hs) as [Hne Hs'].
    rewrite Rel_app. case_decide as Hext.
    + apply Ha. exists rel, c. done.
    + rewrite Hb; [done|].
      intros v (rel' & c' & Hs2 & Hext2 & Heq & _). apply Hext.
      simpl in Heq. apply concat_slash_inj in Heq; [by subst| | | |].
      * done.
      * intros ->. done.
      * by eapply Hnames.
      * apply (Hnames rel' (File c')). by rewrite Stat_app, Hdir.
  - intros k v [(rel & c & Hs & Hext & -> & ->)|Hk]%Hc; [|done].
    exists rel, c. rewrite Stat_app, Hdir, Rel_app. done.
Qed.

Lemma function_source_discovery_witness :
  ∃ sources,
    parseFunctionsV2 [] functions_tree
    = Ok (Some {| Configs := []; Sources := sources |}) ∧
    sources !! "a/b/c/f.js" = Some "exports = 1" ∧
    sources !! "a/b/c/f.md" = None.
Proof.
  destruct (function_source_discovery [] functions_tree
              {[ "config.json" := File (JSONText (JArr []));
                 "a" := Dir {[ "b" := Dir {[ "c" :=
                   Dir {[ "f.js" := File (RawText "exports = 1");
                          "f.md" := File (RawText "notes") ]} ]} ]} ]}
              [])
    as (sources & Hp & Hin & _).
  - reflexivity.
  - reflexivity.
  - intros rel n Hs.
    exact (Forall_inv_tail
             (names_ok_Stat functions_tree ("functions" :: rel) n eq_refl Hs)).
  - exists sources. split; [exact Hp|]. split.
    + exact (Hin ["a"; "b"; "c"; "f.js"] _ eq_refl).
    + exact (Hin ["a"; "b"; "c"; "f.md"] _ eq_refl).
Defined.

(** ** Writes to distinct paths commute *)

Lemma not_file_kind_at_write p c t t1 q :
  write_at p c t = Some t1 → q `prefix_of` p → q ≠ p → kind_at q t1 = KDir.
Proof.
  intros Hw Hq Hne. by rewrite (write_at_kind _ _ _ _ q Hw), decide_False, decide_True.
Qed.

Lemma write_at_swap p c q d t t1 t2 :
  p ≠ q →
  write_at p c t = Some t1 → write_at q d t1 = Some t2 →
  ∃ t1', write_at q d t = Some t1' ∧ write_at p c t1' = Some t2.
Proof.
  intros Hpq Hp Hq.
  assert (is_Some (write_at p c t)) as (Hp0 & Hp1 & Hp2)%write_at_Some by eauto.
  assert (is_Some (write_at q d t1)) as (Hq0 & Hq1 & Hq2)%write_at_Some by eauto.
  assert (Hqp : ¬ q `prefix_of` p).
  { intros Hpre. apply Hq2. by eapply not_file_kind_at_write. }
  assert (Hpq' : ¬ p `prefix_of` q).
  { intros Hpre. specialize (Hq1 p Hpre Hpq).
    by rewrite (write_at_kind _ _ _ _ p Hp), decide_True in Hq1. }
  assert (is_Some (write_at q d t)) as [t1' Hq'].
  { apply write_at_Some. split_and!; [done| |].
    - intros r Hr Hne. specialize (Hq1 r Hr Hne).
      rewrite (write_at_kind _ _ _ _ r Hp) in Hq1.
      repeat case_decide; subst; try done. by apply Hp1.
    - rewrite (write_at_kind _ _ _ _ q Hp) in Hq2.
      by rewrite decide_False, decide_False in Hq2 by done. }
  assert (is_Some (write_at p c t1')) as [t2' Hp'].
  { apply write_at_Some. split_and!; [done| |].
    - intros r Hr Hne. rewrite (write_at_kind _ _ _ _ r Hq').
      repeat case_decide; subst; try done. by apply Hp1.
    - rewrite (write_at_kind _ _ _ _ p Hq').
      by rewrite decide_False, decide_False by done. }
  exists t1'. split; [done|]. rewrite Hp'. f_equal. apply node_ext. intros r.
  rewrite (write_at_kind _ _ _ _ r Hp'), (write_at_kind _ _ _ _ r Hq'),
    (write_at_kind _ _ _ _ r Hq), (write_at_kind _ _ _ _ r Hp).
  repeat case_decide; subst; done.
Qed.

(** A run of file writes, as the loop of [writeFunctionsV2] makes them. *)
Lemma apply_ops_app l1 l2 t :
  apply_ops (l1 ++ l2) t = apply_ops l1 t ≫= apply_ops l2.
Proof.
  revert t. induction l1 as [|o l1 IH]; intros t; [done|].
  simpl. destruct (apply_op o t); [apply IH|done].
Qed.

Lemma apply_writes_perm (l l' : list (path * content)) t t' :
  l ≡ₚ l' → NoDup l.*1 →
  apply_ops ((λ pc, OpWriteFile pc.1 pc.2) <$> l) t = Some t' →
  apply_ops ((λ pc, OpWriteFile pc.1 pc.2) <$> l') t = Some t'.
Proof.
  intros Hperm. revert t t'.
  induction Hperm as [|[p c] l l' _ IH|[p c] [q d] l|l l' l'' Hp1 IH1 Hp2 IH2];
    intros t t' Hnd Hl.
  - done.
  - simpl in *. apply NoDup_cons in Hnd as [_ Hnd].
    destruct (write_at p c t) as [t1|]; [|done]. by apply IH.
  - simpl in *. apply NoDup_cons in Hnd as [Hne _].
    assert (q ≠ p) as Hqp by (intros ->; apply Hne; by left).
    destruct (write_at q d t) as [t1|] eqn:H1; [|done]. simpl in Hl.
    destruct (write_at p c t1) as [t2|] eqn:H2; [|done]. simpl in Hl.
    destruct (write_at_swap _ _ _ _ _ _ _ Hqp H1 H2) as (t1' & -> & H2').
    simpl. by rewrite H2'.
  - apply IH2; [|by apply IH1]. by rewrite <-Hp1.
Qed.

(** ** [WriteData] as a script *)

Section Determinism.
Context `{ScriptedSections}.

Lemma WriteData_ops rootDir a order t :
  WriteData rootDir a order t = run_ops (ops_WriteData rootDir a order) t.
Proof.
  unfold WriteData, ops_WriteData, ops_before_sources, ops_after_sources.
  rewrite !fmap_app, <-!app_assoc.
  repeat (rewrite run_ops_app; apply bind_ext_l2;
          [first [apply writeSecrets_ops|apply writeEnvironments_ops
                 |apply writeValues_ops|apply writeGraphQL_ops
                 |apply writeServices_ops]|intros _ ?]).
  rewrite (app_assoc [_]), run_ops_app. apply bind_ext_l2.
  { rewrite writeFunctionsV2_ops. unfold ops_writeFunctionsV2, source_writes.
    simpl. do 3 f_equal. rewrite <-list_fmap_compose.
    apply list_fmap_ext. by intros ? [??]. }
  intros _ ?.
  repeat (rewrite run_ops_app; apply bind_ext_l2;
          [first [apply writeAuth_ops|apply writeSync_ops
                 |apply writeDataSources_ops|apply writeHTTPEndpoints_ops]
          |intros _ ?]).
  apply writeTriggers_ops.
Qed.

Lemma WriteData_any_order rootDir a o1 o2 t t' :
  range_of (Functions a) o1 → range_of (Functions a) o2 →
  distinct_source_paths (Join rootDir [NameFunctions]) (Functions a) →
  WriteData rootDir a o1 t = (Ok tt, t') →
  WriteData rootDir a o2 t = (Ok tt, t').
Proof.
  unfold range_of, distinct_source_paths. intros Ho1 Ho2 Hnd.
  rewrite !WriteData_ops, !run_ops_Ok. unfold ops_WriteData.
  rewrite !apply_ops_app.
  destruct (apply_ops (ops_before_sources rootDir a) t) as [t1|]; [|done].
  simpl. rewrite !apply_ops_app.
  destruct (apply_ops (_ <$> source_writes _ o1) t1) as [t2|] eqn:Hmid; [|done].
  simpl.
  eapply apply_writes_perm in Hmid as ->; [done| |].
  - unfold source_writes. apply fmap_Permutation. by rewrite Ho1, Ho2.
  - unfold source_writes. rewrite <-list_fmap_compose.
    eapply (NoDup_Permutation_proper); [|exact Hnd].
    apply fmap_Permutation. done.
Qed.

Lemma WriteData_replay rootDir a order t t' :
  WriteData rootDir a order t = (Ok tt, t') →
  WriteData rootDir a order t' = (Ok tt, t').
Proof. rewrite !WriteData_ops, !run_ops_Ok. apply apply_ops_idem. Qed.

End Determinism.

(** ** Scripts below a root directory *)

Lemma Stat_cons_Dir x r es :
  Stat (x :: r) (Dir es) =
  match es !! x with Some ch => Stat r ch | None => StatNotExist end.
Proof. done. Qed.

Lemma mkdir_at_cons x p es :
  mkdir_at (x :: p) (Dir es) =
  ch ← mkdir_at p (default (Dir ∅) (es !! x)); Some (Dir (<[x:=ch]> es)).
Proof. done. Qed.

Lemma option_bind_Some_r {A} (o : option A) : (o ≫= Some) = o.
Proof. by destruct o. Qed.

Lemma apply_op_under_root root o t n :
  Stat root t = StatNode n → wf_op o →
  apply_op (under_root root o) t = n' ← apply_op o n; Some (graft root n' t).
Proof.
  revert t. induction root as [|x r IH]; intros t Hs Hwf.
  { simpl in Hs. simplify_eq. destruct o; simpl; by rewrite ?option_bind_Some_r. }
  destruct t as [c|es]; [done|]. rewrite Stat_cons_Dir in Hs.
  destruct (es !! x) as [ch|] eqn:Hx; [|done].
  specialize (IH ch Hs Hwf).
  destruct o as [p|p c|e]; cbn [apply_op under_root wf_op] in *; [| |done].
  - rewrite <-app_comm_cons, mkdir_at_cons, Hx.
    cbn [default from_option id]. rewrite IH. simpl. rewrite Hx.
    by destruct (mkdir_at p n).
  - rewrite <-app_comm_cons.
    destruct (r ++ p) as [|y rp] eqn:Hrp.
    { by apply app_eq_nil in Hrp as [_ ?]. }
    rewrite write_at_cons, Hx. cbn [default from_option id]. rewrite IH.
    simpl. rewrite Hx. by destruct (write_at p c n).
Qed.

Lemma Stat_graft root n' t n :
  Stat root t = StatNode n → Stat root (graft root n' t) = StatNode n'.
Proof.
  revert t. induction root as [|x r IH]; intros t Hs; [done|].
  destruct t as [c|es]; [done|]. rewrite Stat_cons_Dir in Hs.
  destruct (es !! x) as [ch|] eqn:Hx; [|done].
  simpl. rewrite lookup_insert_eq, Hx. simpl. by apply IH.
Qed.

Lemma graft_graft root n1 n2 t :
  graft root n2 (graft root n1 t) = graft root n2 t.
Proof.
  revert t. induction root as [|x r IH]; intros t; [done|].
  destruct t as [c|es]; [done|]. simpl.
  rewrite lookup_insert_eq. simpl. by rewrite IH, insert_insert_eq.
Qed.

Lemma graft_same root t n : Stat root t = StatNode n → graft root n t = t.
Proof.
  revert t. induction root as [|x r IH]; intros t Hs.
  { simpl in *. by simplify_eq. }
  destruct t as [c|es]; [done|]. rewrite Stat_cons_Dir in Hs.
  destruct (es !! x) as [ch|] eqn:Hx; [|done].
  simpl. rewrite Hx. simpl. rewrite (IH _ Hs). by rewrite insert_id.
Qed.

Lemma apply_ops_under_root root ops t n :
  Stat root t = StatNode n → Forall wf_op ops →
  apply_ops (under_root root <$> ops) t
  = n' ← apply_ops ops n; Some (graft root n' t).
Proof.
  intros Hs Hwf. revert t n Hs.
  induction Hwf as [|o ops Ho Hwf IH]; intros t n Hs.
  { simpl. by rewrite (graft_same _ _ _ Hs). }
  simpl. rewrite (apply_op_under_root _ _ _ _ Hs Ho).
  destruct (apply_op o n) as [n1|]; [|done]. simpl.
  rewrite (IH _ n1) by (by eapply Stat_graft).
  destruct (apply_ops ops n1) as [n2|]; [|done]. simpl.
  by rewrite graft_graft.
Qed.

(** ** Joining plain names *)

Lemma clean_step_app root acc seg :
  seg ≠ ".." → clean_step (root ++ acc) seg = root ++ clean_step acc seg.
Proof.
  intros Hseg. unfold clean_step.
  destruct (decide (seg = "" ∨ seg = ".")); [done|].
  destruct (decide (seg = "..")); [done|]. by rewrite app_assoc.
Qed.

Lemma foldl_clean_step_app root acc segs :
  ".." ∉ segs →
  foldl clean_step (root ++ acc) segs = root ++ foldl clean_step acc segs.
Proof.
  revert acc. induction segs as [|seg segs IH]; intros acc Hs; [done|].
  apply not_elem_of_cons in Hs as [Hseg Hs]. simpl.
  rewrite clean_step_app by done. by apply IH.
Qed.

Lemma Join_plain root pre elems :
  ".." ∉ (elems ≫= split) →
  Join (root ++ pre) elems = root ++ Join pre elems.
Proof. intros Hp. unfold Join. by apply foldl_clean_step_app. Qed.

Lemma plain_elems_cons s elems :
  ".." ∉ ((s :: elems) ≫= split) ↔ plain s ∧ ".." ∉ (elems ≫= split).
Proof. unfold plain. simpl. by rewrite not_elem_of_app. Qed.

Lemma plain_elems_nil : ".." ∉ (([] : list string) ≫= split).
Proof. apply not_elem_of_nil. Qed.

Lemma plain_file_names :
  plain FileConfig ∧ plain FileRules ∧ plain FileSchema ∧ plain FileSource ∧
  plain FileProviders ∧ plain FileCustomUserData.
Proof. split_and!; apply (bool_decide_unpack _); by vm_compute. Qed.

Lemma plain_elems_1 a : plain a → ".." ∉ ([a] ≫= split).
Proof. intros. apply plain_elems_cons. split; [done|apply plain_elems_nil]. Qed.

Lemma plain_elems_2 a b : plain a → plain b → ".." ∉ ([a; b] ≫= split).
Proof. intros. apply plain_elems_cons. split; [done|by apply plain_elems_1]. Qed.

Lemma plain_elems_3 a b c :
  plain a → plain b → plain c → ".." ∉ ([a; b; c] ≫= split).
Proof. intros. apply plain_elems_cons. split; [done|by apply plain_elems_2]. Qed.

Lemma plain_elems_4 a b c d :
  plain a → plain b → plain c → plain d → ".." ∉ ([a; b; c; d] ≫= split).
Proof. intros. apply plain_elems_cons. split; [done|by apply plain_elems_3]. Qed.

Lemma Join_plain_ne_nil pre elems :
  pre ≠ [] → ".." ∉ (elems ≫= split) → Join pre elems ≠ [].
Proof.
  intros Hpre Hp. rewrite <-(app_nil_r pre), Join_plain by done.
  by intros [? _]%app_eq_nil.
Qed.

(** The scripts of the writers of this file, below a root. *)
Lemma bind_under_root {A} root (f g : A → list op) (xs : list A) :
  Forall (λ x, f x = under_root root <$> g x) xs →
  xs ≫= f = under_root root <$> (xs ≫= g).
Proof.
  induction 1 as [|x xs Hx _ IH]; [done|].
  by rewrite !bind_cons, fmap_app, Hx, IH.
Qed.

Lemma bind_wf_op {A} (g : A → list op) (xs : list A) :
  Forall (λ x, Forall wf_op (g x)) xs → Forall wf_op (xs ≫= g).
Proof.
  induction 1 as [|x xs Hx _ IH]; [done|]. rewrite bind_cons. by apply Forall_app.
Qed.

Lemma ops_writeRule_under root pre name rule :
  pre ≠ [] → plain name → plain_rule rule →
  ops_writeRule (root ++ pre) name rule
  = under_root root <$> ops_writeRule pre name rule ∧
  Forall wf_op (ops_writeRule pre name rule).
Proof.
  intros Hpre Hname [Hdb Hcl]. destruct plain_file_names as (?&?&?&?&?&?).
  unfold ops_writeRule. simpl.
  rewrite !Join_plain by (by apply plain_elems_4).
  split; [done|].
  repeat constructor; simpl; apply Join_plain_ne_nil; try done;
    by apply plain_elems_4.
Qed.

Lemma ops_writeDataSource_under root pre ds :
  pre ≠ [] → plain_data_source ds →
  ops_writeDataSource (root ++ pre) ds
  = under_root root <$> ops_writeDataSource pre ds ∧
  Forall wf_op (ops_writeDataSource pre ds).
Proof.
  intros Hpre [Hname Hrules]. destruct plain_file_names as (?&?&?&?&?&?).
  unfold ops_writeDataSource.
  destruct (as_string _) as [name|]; [|by split; [|repeat constructor]].
  specialize (Hname name eq_refl). simpl.
  rewrite Join_plain by (by apply plain_elems_2).
  split.
  - f_equal. apply bind_under_root. eapply Forall_impl; [done|].
    intros rule Hrule. by apply ops_writeRule_under.
  - constructor.
    + simpl. apply Join_plain_ne_nil; [done|]. by apply plain_elems_2.
    + apply bind_wf_op. eapply Forall_impl; [done|].
      intros rule Hrule. by apply (ops_writeRule_under root).
Qed.

Lemma ops_writeDataSources_under root dss :
  Forall plain_data_source dss →
  ops_writeDataSources root dss
  = under_root root <$> ops_writeDataSources [] dss ∧
  Forall wf_op (ops_writeDataSources [] dss).
Proof.
  intros Hdss. unfold ops_writeDataSources.
  rewrite !Join_NameDataSources. simpl. split.
  - f_equal. apply bind_under_root. eapply Forall_impl; [done|].
    intros ds Hds. by apply (ops_writeDataSource_under root [NameDataSources]).
  - constructor; [done|]. apply bind_wf_op. eapply Forall_impl; [done|].
    intros ds Hds. by apply (ops_writeDataSource_under root [NameDataSources]).
Qed.

Lemma ops_writeWebhook_under root pre n webhook :
  pre ≠ [] → plain n → plain_webhook webhook →
  ops_writeWebhook (root ++ pre) n webhook
  = under_root root <$> ops_writeWebhook pre n webhook ∧
  Forall wf_op (ops_writeWebhook pre n webhook).
Proof.
  intros Hpre Hn Hname. destruct plain_file_names as (?&?&?&?&?&?).
  unfold ops_writeWebhook.
  destruct (as_string (index webhook NameSource)) as [src|];
    [|by split; [|repeat constructor]].
  destruct (as_string (index webhook "name")) as [name|] eqn:Hnm;
    [|by split; [|repeat constructor]].
  specialize (Hname name Hnm). simpl.
  rewrite !Join_Join. simpl.
  rewrite !Join_plain by (by apply plain_elems_3).
  split; [done|].
  repeat constructor; simpl; apply Join_plain_ne_nil; try done;
    by apply plain_elems_3.
Qed.

Lemma ops_writeHTTPEndpoint_under root pre ep :
  pre ≠ [] → plain_endpoint ep →
  ops_writeHTTPEndpoint (root ++ pre) ep
  = under_root root <$> ops_writeHTTPEndpoint pre ep ∧
  Forall wf_op (ops_writeHTTPEndpoint pre ep).
Proof.
  intros Hpre [Hname Hwhs]. destruct plain_file_names as (?&?&?&?&?&?).
  unfold ops_writeHTTPEndpoint.
  destruct (as_string _) as [name|]; [|by split; [|repeat constructor]].
  specialize (Hname name eq_refl). simpl.
  rewrite Join_plain by (by apply plain_elems_2).
  split.
  - f_equal. apply bind_under_root. eapply Forall_impl; [done|].
    intros wh Hwh. by apply ops_writeWebhook_under.
  - constructor.
    + simpl. apply Join_plain_ne_nil; [done|]. by apply plain_elems_2.
    + apply bind_wf_op. eapply Forall_impl; [done|].
      intros wh Hwh. by apply (ops_writeWebhook_under root).
Qed.

Lemma ops_writeHTTPEndpoints_under root eps :
  Forall plain_endpoint eps →
  ops_writeHTTPEndpoints root eps
  = under_root root <$> ops_writeHTTPEndpoints [] eps ∧
  Forall wf_op (ops_writeHTTPEndpoints [] eps).
Proof.
  intros Heps. unfold ops_writeHTTPEndpoints.
  rewrite !Join_NameHTTPEndpoints. simpl. split.
  - f_equal. apply bind_under_root. eapply Forall_impl; [done|].
    intros ep Hep. by apply (ops_writeHTTPEndpoint_under root [NameHTTPEndpoints]).
  - constructor; [done|]. apply bind_wf_op. eapply Forall_impl; [done|].
    intros ep Hep. by apply (ops_writeHTTPEndpoint_under root [NameHTTPEndpoints]).
Qed.

Lemma ops_writeAuth_under root auth :
  ops_writeAuth root auth = under_root root <$> ops_writeAuth [] auth ∧
  Forall wf_op (ops_writeAuth [] auth).
Proof.
  destruct auth as [[[cud|] [prov|]]|]; simpl;
    (split; [|repeat constructor; done]);
    rewrite ?Join_NameAuth, ?Join_FileProviders, ?Join_FileCustomUserData;
    simpl; by rewrite <-?app_assoc.
Qed.

Lemma ops_writeSync_under root sync :
  ops_writeSync root sync = under_root root <$> ops_writeSync [] sync ∧
  Forall wf_op (ops_writeSync [] sync).
Proof.
  destruct sync as [[[cfg|]]|]; simpl; (split; [|repeat constructor; done]);
    [|done..]. by rewrite Join_NameSync_FileConfig.
Qed.

Lemma under_root_nil o : under_root [] o = o.
Proof. by destruct o. Qed.

Lemma under_root_nil_fmap (ops : list op) : under_root [] <$> ops = ops.
Proof.
  induction ops as [|o ops IH]; [done|]. by rewrite fmap_cons, under_root_nil, IH.
Qed.

Section Relocation.
Context `{ScriptedSections}.

Lemma ops_WriteData_under root a order :
  plain_names a → range_of (Functions a) order →
  ops_WriteData root a order = under_root root <$> ops_WriteData [] a order ∧
  Forall wf_op (ops_WriteData [] a order).
Proof.
  intros (Hkeys & Hdss & Heps) Horder.
  destruct (ops_writeAuth_under root (Auth a)) as [Ha1 Ha2].
  destruct (ops_writeSync_under root (Sync a)) as [Hs1 Hs2].
  destruct (ops_writeDataSources_under root _ Hdss) as [Hd1 Hd2].
  destruct (ops_writeHTTPEndpoints_under root _ Heps) as [He1 He2].
  assert (Hsrc : Forall (λ kv : string * string, plain kv.1) order).
  { apply Forall_forall. intros [k src] Hin. apply (Hkeys k src).
    apply elem_of_map_to_list. by rewrite <-Horder. }
  unfold ops_WriteData, ops_before_sources, ops_after_sources, source_writes.
  rewrite !Join_NameFunctions, !Join_FileConfig.
  rewrite Ha1, Hs1, Hd1, He1, !under_root_nil_fmap. split.
  - rewrite !fmap_app. f_equal; [f_equal; simpl; by rewrite <-app_assoc|].
    f_equal. rewrite <-!list_fmap_compose.
    apply Forall_fmap_ext_1. eapply Forall_impl; [exact Hsrc|].
    intros [k src] Hk. simpl in *.
    by rewrite (Join_plain root [NameFunctions]) by (by apply plain_elems_1).
  - repeat (apply Forall_app; split); try done;
      try first [apply ops_writeSecrets_wf|apply ops_writeEnvironments_wf
                |apply ops_writeValues_wf|apply ops_writeGraphQL_wf
                |apply ops_writeServices_wf|apply ops_writeTriggers_wf].
    + by repeat constructor.
    + rewrite <-list_fmap_compose. apply Forall_fmap.
      eapply Forall_impl; [exact Hsrc|].
      intros [k src] Hk. simpl in *.
      apply Join_plain_ne_nil; [done|]. by apply plain_elems_1.
Qed.

Lemma distinct_source_paths_plain root a :
  plain_names a →
  distinct_source_paths (Join root [NameFunctions]) (Functions a) →
  distinct_source_paths (Join [] [NameFunctions]) (Functions a).
Proof.
  intros (Hkeys & _) Hnd. unfold distinct_source_paths in *.
  rewrite !Join_NameFunctions in *. simpl.
  assert (Heq : (λ kv : string * string, Join (root ++ [NameFunctions]) [kv.1])
                <$> map_to_list (sources_of (Functions a))
              = (root ++.) <$> ((λ kv : string * string, Join [NameFunctions] [kv.1])
                <$> map_to_list (sources_of (Functions a)))).
  { rewrite <-list_fmap_compose. apply Forall_fmap_ext_1, Forall_forall.
    intros [k src] Hin. simpl.
    rewrite (Join_plain root [NameFunctions]); [done|].
    apply plain_elems_1. apply (Hkeys k src). by apply elem_of_map_to_list. }
  rewrite Heq in Hnd. by apply NoDup_fmap_1 in Hnd.
Qed.

(** C7 (determinism and idempotence of the write), as the code has it.  Let
    the sources of the model be written to pairwise distinct files, and let
    the two runs iterate over the sources in any two orders.  A write that
    succeeds from a tree succeeds from it in the other order with the same
    tree, and, repeated on that tree, succeeds and leaves it unchanged.  When
    moreover no name of the model climbs with [..], two successful writes to
    two empty directories leave the same tree below them.  The writers of the
    sections kept abstract are assumed to be scripts. *)
Theorem write_deterministic (a : AppStructureV2)
    (o1 o2 : list (string * string)) :
  range_of (Functions a) o1 → range_of (Functions a) o2 →
  (∀ rootDir t t',
     distinct_source_paths (Join rootDir [NameFunctions]) (Functions a) →
     WriteData rootDir a o1 t = (Ok tt, t') →
     WriteData rootDir a o2 t = (Ok tt, t') ∧
     WriteData rootDir a o2 t' = (Ok tt, t')) ∧
  (∀ root1 root2 t1 t2 t1' t2',
     plain_names a →
     distinct_source_paths (Join root1 [NameFunctions]) (Functions a) →
     Stat root1 t1 = StatNode (Dir ∅) → Stat root2 t2 = StatNode (Dir ∅) →
     WriteData root1 a o1 t1 = (Ok tt, t1') →
     WriteData root2 a o2 t2 = (Ok tt, t2') →
     Stat root1 t1' = Stat root2 t2').
Proof.
  intros Ho1 Ho2. split.
  - intros rootDir t t' Hnd Hw.
    assert (WriteData rootDir a o2 t = (Ok tt, t')) as Hw2.
    { by eapply (WriteData_any_order _ _ o1 o2). }
    split; [done|]. by apply (WriteData_replay _ _ _ t).
  - intros root1 root2 t1 t2 t1' t2' Hplain Hnd Hs1 Hs2 Hw1 Hw2.
    apply distinct_source_paths_plain in Hnd; [|done].
    rewrite WriteData_ops, run_ops_Ok in Hw1, Hw2.
    destruct (ops_WriteData_under root1 a o1 Hplain Ho1) as [Hu1 Hwf1].
    destruct (ops_WriteData_under root2 a o2 Hplain Ho2) as [Hu2 Hwf2].
    rewrite Hu1, (apply_ops_under_root _ _ _ _ Hs1 Hwf1) in Hw1.
    rewrite Hu2, (apply_ops_under_root _ _ _ _ Hs2 Hwf2) in Hw2.
    destruct (apply_ops (ops_WriteData [] a o1) (Dir ∅)) as [n1|] eqn:Hn1; [|done].
    destruct (apply_ops (ops_WriteData [] a o2) (Dir ∅)) as [n2|] eqn:Hn2; [|done].
    simpl in Hw1, Hw2. simplify_eq.
    rewrite (Stat_graft _ _ _ _ Hs1), (Stat_graft _ _ _ _ Hs2). f_equal.
    apply run_ops_Ok in Hn1. rewrite <-WriteData_ops in Hn1.
    eapply (WriteData_any_order [] a o1 o2) in Hn1; [|done..].
    rewrite WriteData_ops, run_ops_Ok in Hn1. congruence.
Qed.

End Relocation.

(** C7, refuted as stated: two source keys that clean to one file are
    written one over the other, so the text the file ends with depends on
    the order in which the map is iterated; and a name that climbs with [..]
    lands inside one root directory and outside another. *)
Lemma iteration_order_observable :
  let o1 := [("a.js", "one"); ("./a.js", "two")] in
  let o2 := [("./a.js", "two"); ("a.js", "one")] in
  (range_of (Functions aliasing_app) o1 ∧ range_of (Functions aliasing_app) o2) ∧
  ((WriteData ["r1"] aliasing_app o1 two_roots).1 = Ok tt ∧
   (WriteData ["r1"] aliasing_app o2 two_roots).1 = Ok tt ∧
   (WriteData ["p"; "r2"] aliasing_app o2 two_roots).1 = Ok tt) ∧
  (Stat ["r1"; "functions"; "a.js"] (WriteData ["r1"] aliasing_app o1 two_roots).2
   = StatNode (File (RawText "two")) ∧
   Stat ["r1"; "functions"; "a.js"] (WriteData ["r1"] aliasing_app o2 two_roots).2
   = StatNode (File (RawText "one")) ∧
   Stat ["p"; "r2"; "functions"; "a.js"]
        (WriteData ["p"; "r2"] aliasing_app o2 two_roots).2
   = StatNode (File (RawText "one"))) ∧
  ((WriteData ["r1"] climbing_app [] two_roots).1 = Ok tt ∧
   (WriteData ["p"; "r2"] climbing_app [] two_roots).1 = Ok tt ∧
   Stat ["r1"; "q"; "config.json"] (WriteData ["r1"] climbing_app [] two_roots).2
   = StatNode (File (JSONText (JObj {[ "name" := JStr "../../r1/q" ]}))) ∧
   Stat ["p"; "r2"; "q"; "config.json"]
        (WriteData ["p"; "r2"] climbing_app [] two_roots).2
   = StatNotExist).
Proof.
  split_and!; try (vm_compute; reflexivity).
  unfold range_of. apply (bool_decide_unpack _). by vm_compute.
Qed.

Lemma write_deterministic_witness :
  let o1 := [("a.js", "one"); ("b.js", "two")] in
  let o2 := [("b.js", "two"); ("a.js", "one")] in
  WriteData ["r1"] two_sources_app o2 two_roots
  = (Ok tt, (WriteData ["r1"] two_sources_app o1 two_roots).2).
Proof.
  intros o1 o2.
  apply (write_deterministic (H0 := no_sections_scripted) two_sources_app o1 o2).
  - unfold range_of. apply (bool_decide_unpack _). by vm_compute.
  - unfold range_of. apply (bool_decide_unpack _). by vm_compute.
  - unfold distinct_source_paths. apply (bool_decide_unpack _). by vm_compute.
  - vm_compute. reflexivity.
Defined.

(** ** What a script leaves in the tree *)

Lemma shape_KDir k : shape k = 2 ↔ k = KDir.
Proof. destruct k; simpl; split; intros; done || lia. Qed.

Lemma shape_KNone k : shape k = 0 ↔ k = KNone.
Proof. destruct k; simpl; split; intros; done || lia. Qed.

Lemma apply_op_touched o t t' q :
  apply_op o t = Some t' → touches o q → kind_at q t' ≠ KNone.
Proof.
  intros Ha Ht. rewrite (apply_op_kind _ _ _ _ Ha).
  destruct o as [p|p c|e]; simpl in Ht; [| |done].
  - by rewrite decide_True.
  - repeat case_decide; done.
Qed.

Lemma apply_ops_kind_inv ops t t' q :
  apply_ops ops t = Some t' →
  kind_at q t' = kind_at q t ∨
  (kind_at q t' = KDir ∧ ∃ o, o ∈ ops ∧ touches o q) ∨
  (∃ c, kind_at q t' = KFile c ∧ OpWriteFile q c ∈ ops).
Proof.
  revert t. induction ops as [|o ops IH]; intros t Ha; simpl in Ha.
  { left. by simplify_eq. }
  destruct (apply_op o t) as [t1|] eqn:Ho; [|done]. simpl in Ha.
  destruct (IH _ Ha) as [Heq|[[Hd (o' & Ho' & Ht)]|(c & Hc & Hin)]].
  - rewrite Heq, (apply_op_kind _ _ _ _ Ho).
    destruct o as [p|p c|e]; [| |done].
    + case_decide; [|by left]. right; left. split; [done|].
      exists (OpMkdirAll p). split; [left|done].
    + case_decide as Hqp.
      * subst. right; right. exists c. split; [done|left].
      * case_decide; [|by left]. right; left. split; [done|].
        exists (OpWriteFile p c). split; [left|done].
  - right; left. split; [done|]. exists o'. split; [by right|done].
  - right; right. exists c. split; [done|by right].
Qed.

Lemma apply_ops_touched ops t t' o q :
  apply_ops ops t = Some t' → o ∈ ops → touches o q → kind_at q t' ≠ KNone.
Proof.
  revert t. induction ops as [|o' ops IH]; intros t Ha Hin Ht.
  { by apply elem_of_nil in Hin. }
  simpl in Ha. destruct (apply_op o' t) as [t1|] eqn:Ho; [|done]. simpl in Ha.
  apply elem_of_cons in Hin as [->|Hin]; [|by eapply IH].
  pose proof (apply_op_touched _ _ _ _ Ho Ht) as H1.
  intros H0. apply H1. apply shape_KNone.
  destruct (decide (shape (kind_at q t1) = 0)) as [|Hne]; [done|].
  rewrite <-(apply_ops_shape _ _ _ _ Ha Hne). by apply shape_KNone.
Qed.

Lemma apply_ops_written ops t t' q c :
  apply_ops ops t = Some t' → OpWriteFile q c ∈ ops →
  ∃ c', kind_at q t' = KFile c' ∧ OpWriteFile q c' ∈ ops.
Proof.
  revert t. induction ops as [|o ops IH]; intros t Ha Hin.
  { by apply elem_of_nil in Hin. }
  simpl in Ha. destruct (apply_op o t) as [t1|] eqn:Ho; [|done]. simpl in Ha.
  apply elem_of_cons in Hin as [<-|Hl]; last first.
  { destruct (IH _ Ha Hl) as (c' & ? & ?). exists c'. split; [done|by right]. }
  assert (kind_at q t1 = KFile c) as H1.
  { rewrite (apply_op_kind _ _ _ _ Ho). by rewrite decide_True. }
  destruct (apply_ops_kind_inv _ _ _ q Ha) as [Heq|[[Hd _]|(c' & Hc & Hin)]].
  - exists c. split; [congruence|left].
  - assert (shape (kind_at q t') = shape (kind_at q t1)) as Hs.
    { apply (apply_ops_shape _ _ _ _ Ha). by rewrite H1. }
    rewrite Hd, H1 in Hs. done.
  - exists c'. split; [done|by right].
Qed.

Lemma outside_touches B o q : outside B o → ¬ touches o (B ++ q).
Proof.
  destruct o as [p|p c|e]; simpl; [| |tauto];
    intros Ho Ht; apply Ho; (etrans; [|exact Ht]); by apply prefix_app_r.
Qed.

Lemma app_prefix_self {A} (l q : list A) : l ++ q `prefix_of` l → q = [].
Proof.
  intros [k Hk]. rewrite <-app_assoc in Hk.
  rewrite <-(app_nil_r l) in Hk at 1. apply app_inv_head in Hk.
  symmetry in Hk. by apply app_eq_nil in Hk as [? _].
Qed.

Lemma apply_ops_realises ops t t' B made (T : list (path * content)) :
  apply_ops ops t = Some t' →
  (∀ q, kind_at (B ++ q) t = KNone) →
  (∀ o, o ∈ ops →
        outside B o ∨ (o = OpMkdirAll B ∧ made = true) ∨
        ∃ p c, (p, c) ∈ T ∧ o = OpWriteFile (B ++ p) c) →
  (∀ p c, (p, c) ∈ T → OpWriteFile (B ++ p) c ∈ ops) →
  (∀ c, ([], c) ∉ T) →
  (made = true → OpMkdirAll B ∈ ops) →
  realises t' B made T.
Proof.
  intros Ha H0 Hcl Hin Hnil Hmade.
  assert (Hfile : ∀ q c, OpWriteFile (B ++ q) c ∈ ops → (q, c) ∈ T).
  { intros q c Ho. destruct (Hcl _ Ho) as [Hout|[[? _]|(p & c' & HT & Heq)]];
      [|done|].
    - exfalso. apply Hout. by apply prefix_app_r.
    - injection Heq as Hp <-. by apply app_inv_head in Hp as ->. }
  split_and!.
  - intros q c HT.
    destruct (apply_ops_written _ _ _ _ _ Ha (Hin _ _ HT)) as (c' & Hk & Ho).
    exists c'. split; [done|]. by apply Hfile.
  - intros q Hd.
    destruct (apply_ops_kind_inv _ _ _ (B ++ q) Ha)
      as [Heq|[[_ (o & Ho & Ht)]|(c & Hc & _)]]; [| |congruence].
    { rewrite Hd, H0 in Heq. done. }
    destruct (Hcl _ Ho) as [Hout|[[-> ?]|(p & c' & HT & ->)]].
    + by apply outside_touches in Ht.
    + left. simpl in Ht. by apply app_prefix_self in Ht.
    + right. exists p, c'. split; [done|]. simpl in Ht.
      by apply prefix_app_inv in Ht.
  - intros q p c HT Hpre.
    apply (apply_ops_touched _ _ _ (OpWriteFile (B ++ p) c) _ Ha); [by apply Hin|].
    simpl. by apply prefix_app.
  - intros q c Hk.
    destruct (apply_ops_kind_inv _ _ _ (B ++ q) Ha)
      as [Heq|[[Hd _]|(c' & Hc & Ho)]]; [|congruence|].
    { rewrite Hk, H0 in Heq. done. }
    rewrite Hk in Hc. injection Hc as <-. by apply Hfile.
  - intros Hm. specialize (Hmade Hm).
    pose proof (apply_ops_touched _ _ _ _ B Ha Hmade (reflexivity _)) as Hne.
    destruct (apply_ops_kind_inv _ _ _ B Ha)
      as [Heq|[[Hd _]|(c & Hc & Ho)]]; [|done|].
    { specialize (H0 []). rewrite app_nil_r in H0. congruence. }
    rewrite <-(app_nil_r B) in Ho. by apply Hfile, Hnil in Ho.
Qed.

(** ** Paths of plain names *)

Lemma split_seg s : has_slash s = false → split s = [s].
Proof. intros Hs. apply (split_concat [s]); [done|by constructor]. Qed.

Lemma Join_segs p l : Forall seg_ok l → Join p l = p ++ l.
Proof.
  unfold Join. intros Hl. revert p.
  induction Hl as [|s l (Hs & H1 & H2 & H3) _ IH]; intros p.
  { by rewrite app_nil_r. }
  rewrite bind_cons, (split_seg s Hs), foldl_app, IH. simpl.
  unfold clean_step. rewrite decide_False by (intros [?|?]; done).
  rewrite decide_False by done. by rewrite <-app_assoc.
Qed.

Lemma seg_ok_file_names :
  seg_ok FileConfig ∧ seg_ok FileRules ∧ seg_ok FileSchema ∧
  seg_ok FileSource ∧ seg_ok FileProviders ∧ seg_ok FileCustomUserData.
Proof. repeat split; done. Qed.

Lemma seg_ok_section_names :
  seg_ok NameAuth ∧ seg_ok NameSync ∧ seg_ok NameFunctions ∧
  seg_ok NameDataSources ∧ seg_ok NameHTTPEndpoints.
Proof. repeat split; done. Qed.

(** ** From kinds to [os.Stat] *)

Lemma kind_at_exists p t :
  kind_at p t ≠ KNone → ∃ n, Stat p t = StatNode n.
Proof. unfold kind_at. destruct (Stat p t); by eauto. Qed.

Lemma Stat_child_missing p x t :
  kind_at p t = KDir → kind_at (p ++ [x]) t = KNone →
  Stat (p ++ [x]) t = StatNotExist.
Proof.
  intros [es Hes]%kind_at_Dir. unfold kind_at. rewrite Stat_app, Hes. simpl.
  by destruct (es !! x) as [[]|].
Qed.

Lemma kind_at_below_file p q t c :
  kind_at p t = KFile c → kind_at (p ++ q) t ≠ KNone → q = [].
Proof.
  intros Hf%kind_at_File. unfold kind_at. rewrite Stat_app, Hf.
  by destruct q.
Qed.

(** ** The walk over the directories of a tree *)

Lemma StronglySorted_impl {A} (R1 R2 : relation A) l :
  (∀ x y, R1 x y → R2 x y) → StronglySorted R1 l → StronglySorted R2 l.
Proof.
  intros HR. induction 1 as [|x l _ IH Hx]; constructor; [done|].
  eapply Forall_impl; [done|]. by auto.
Qed.

Lemma StronglySorted_filter {A} (R : relation A) (P : A → Prop)
    `{!∀ x, Decision (P x)} l :
  StronglySorted R l → StronglySorted R (filter P l).
Proof.
  induction 1 as [|x l _ IH Hx]; [constructor|].
  rewrite filter_cons. case_decide; [|done].
  constructor; [done|]. rewrite Forall_forall in Hx |- *.
  intros y [_ Hy]%list_elem_of_filter. by apply Hx.
Qed.

Lemma str_lt_irrefl s : ¬ str_lt s s.
Proof. by intros [_ ?]. Qed.

Lemma str_lt_asym a b : str_lt a b → str_lt b a → False.
Proof. intros [H1 Hne] [H2 _]. apply Hne. by apply (anti_symm String.le). Qed.

Lemma StronglySorted_NoDup {A} (R : relation A) l :
  (∀ x, ¬ R x x) → StronglySorted R l → NoDup l.
Proof.
  intros Hirr. induction 1 as [|x l _ IH Hx]; constructor; [|done].
  intros Hin. rewrite Forall_forall in Hx. by apply (Hirr x), Hx.
Qed.

(** Two elements of a strictly sorted sequence that the order does not
    tell apart are one element. *)
Lemma StronglySorted_inj {A} (R : relation A) l a b :
  StronglySorted R l → a ∈ l → b ∈ l → ¬ R a b → ¬ R b a → a = b.
Proof.
  induction 1 as [|x l _ IH Hx]; intros Ha Hb Hab Hba.
  { by apply elem_of_nil in Ha. }
  rewrite Forall_forall in Hx.
  apply elem_of_cons in Ha as [->|Ha]; apply elem_of_cons in Hb as [->|Hb];
    [done| | |by apply IH].
  - by destruct Hab; apply Hx.
  - by destruct Hba; apply Hx.
Qed.

Lemma sorted_names_unique (l1 l2 : list string) :
  StronglySorted str_lt l1 → StronglySorted str_lt l2 →
  (∀ x, x ∈ l1 ↔ x ∈ l2) → l1 = l2.
Proof.
  intros H1 H2 Hel.
  apply (StronglySorted_unique String.le).
  - eapply StronglySorted_impl; [|done]. by intros ?? [? _].
  - eapply StronglySorted_impl; [|done]. by intros ?? [? _].
  - apply NoDup_Permutation; [| |done];
      eapply StronglySorted_NoDup; eauto using str_lt_irrefl.
Qed.

Lemma StronglySorted_ReadDir (es : gmap string node) :
  StronglySorted str_lt (ReadDir es).
Proof.
  pose proof (NoDup_ReadDir es) as Hnd.
  pose proof (Sorted_StronglySorted _ _ (Sorted_ReadDir es)) as Hs.
  induction Hs as [|x l _ IH Hx]; [constructor|].
  apply NoDup_cons in Hnd as [Hx' Hnd].
  constructor; [by apply IH|].
  rewrite Forall_forall in Hx |- *. intros y Hy. split; [by apply Hx|].
  intros ->. done.
Qed.

(** A walk over the directories of [p] visits the names [l] when these are
    the names of the directories of [p], in their order. *)
Lemma dw_walk_names {A} t p l (fn : node → path → A → result A) acc :
  kind_at p t = KDir →
  StronglySorted str_lt l →
  (∀ name, name ∈ l ↔ kind_at (p ++ [name]) t = KDir) →
  (∀ f1 f2 q a, fn f1 q a = fn f2 q a) →
  dw_walk t p true fn acc
  = fold_result (λ name, fn (Dir ∅) (p ++ [name])) l acc.
Proof.
  intros [es Hes]%kind_at_Dir Hl Hin Hfn. unfold dw_walk. rewrite Hes.
  set (P := λ name : string,
         match es !! name with Some (Dir _) => True | _ => False end).
  assert (∀ name, Decision (P name)) as HP.
  { intros name. unfold P. destruct (es !! name) as [[]|]; apply _. }
  assert (Hk : ∀ name, P name ↔ kind_at (p ++ [name]) t = KDir).
  { intros name. unfold P, kind_at. rewrite Stat_app, Hes. simpl.
    destruct (es !! name) as [[]|]; simpl; split; done. }
  rewrite (fold_result_filter P _ (λ name, fn (Dir ∅) (p ++ [name]))).
  - f_equal. apply sorted_names_unique; [|done|].
    + apply StronglySorted_filter, StronglySorted_ReadDir.
    + intros x. rewrite list_elem_of_filter, elem_of_ReadDir, Hin, <-Hk.
      unfold P. destruct (es !! x) as [[]|]; split; try tauto; eauto.
  - intros x a. unfold P. destruct (es !! x) as [[]|]; [done| |done].
    intros _. simpl. apply Hfn.
  - intros x a. unfold P. destruct (es !! x) as [[]|]; [done| |done].
    intros []. done.
Qed.

Lemma fold_result_snoc {A B} (f : A → B) (step : A → list B → result (list B))
    (xs : list A) (acc : list B) :
  (∀ x acc, x ∈ xs → step x acc = Ok (acc ++ [f x])) →
  fold_result step xs acc = Ok (acc ++ (f <$> xs)).
Proof.
  revert acc. induction xs as [|x xs IH]; intros acc Hstep; simpl.
  { by rewrite app_nil_r. }
  rewrite Hstep by left. simpl. rewrite IH.
  - by rewrite <-app_assoc.
  - intros y a Hy. apply Hstep. by right.
Qed.

(** ** Reading a tree that holds the files of a section *)

Section Realises.
Context (t : node) (B : path) (made : bool) (T : files).
Hypothesis HR : realises t B made T.

Lemma realises_file q c :
  (q, c) ∈ T → (∀ c', (q, c') ∈ T → c' = c) →
  Stat (B ++ q) t = StatNode (File c).
Proof.
  intros Hin Hfun. destruct HR as (H1 & _).
  destruct (H1 _ _ Hin) as (c' & Hk & Hc'). apply Hfun in Hc' as ->.
  by apply kind_at_File.
Qed.

Lemma realises_file_inv q c : kind_at (B ++ q) t = KFile c → (q, c) ∈ T.
Proof. apply HR. Qed.

Lemma realises_dir q :
  (∃ p c, (p, c) ∈ T ∧ q `prefix_of` p) → (∀ c, (q, c) ∉ T) →
  kind_at (B ++ q) t = KDir.
Proof.
  intros (p & c & Hin & Hpre) Hnf. destruct HR as (_ & _ & H3 & H4 & _).
  pose proof (H3 _ _ _ Hin Hpre) as Hne.
  destruct (kind_at (B ++ q) t) as [|c'|] eqn:Hk; [done| |done].
  by apply H4, Hnf in Hk.
Qed.

Lemma realises_dir_inv q :
  kind_at (B ++ q) t = KDir →
  ((q = [] ∧ made = true) ∨ ∃ p c, (p, c) ∈ T ∧ q `prefix_of` p) ∧
  ∀ c, (q, c) ∉ T.
Proof.
  intros Hd. destruct HR as (H1 & H2 & _). split; [by apply H2|].
  intros c Hin. destruct (H1 _ _ Hin) as (c' & Hk & _). congruence.
Qed.

Lemma realises_none q :
  (∀ p c, (p, c) ∈ T → ¬ q `prefix_of` p) → ¬ (q = [] ∧ made = true) →
  kind_at (B ++ q) t = KNone.
Proof.
  intros Hno Hm. destruct HR as (_ & H2 & _ & H4 & _).
  destruct (kind_at (B ++ q) t) as [|c'|] eqn:Hk; [done| |].
  - apply H4 in Hk. by apply Hno in Hk.
  - destruct (H2 _ Hk) as [?|(p & c & Hin & Hpre)]; [done|].
    by apply Hno in Hin.
Qed.

Lemma realises_base_dir :
  (made = true ∨ ∃ p c, (p, c) ∈ T) → (∀ c, ([], c) ∉ T) →
  kind_at B t = KDir.
Proof.
  intros [Hm|(p & c & Hin)] Hnf.
  - by apply HR.
  - rewrite <-(app_nil_r B). apply realises_dir; [|done].
    exists p, c. split; [done|]. apply prefix_nil.
Qed.

End Realises.

Lemma json_docs_doc_json p (l : list (option Document)) :
  json_docs p (doc_json <$> l) = Ok l.
Proof.
  induction l as [|d l IH]; [done|]. rewrite fmap_cons. cbn [json_docs].
  rewrite IH. by destruct d.
Qed.

Lemma parseJSON_doc p t (d : option Document) :
  Stat p t = StatNode (File (MarshalJSON (doc_json d))) → parseJSON p t = Ok d.
Proof. unfold parseJSON. intros ->. by destruct d. Qed.

Lemma parseJSON_missing p t : Stat p t = StatNotExist → parseJSON p t = Ok None.
Proof. unfold parseJSON. by intros ->. Qed.

(** *** The auth and sync sections *)

Lemma parseAuth_realises rootDir t auth :
  kind_at rootDir t = KDir →
  realises t (rootDir ++ [NameAuth]) false (files_of_auth auth) →
  auth_kept auth →
  parseAuth rootDir t = Ok auth.
Proof.
  intros Hroot HR Hkept. unfold parseAuth.
  rewrite Join_NameAuth, Join_FileCustomUserData, Join_FileProviders.
  set (B := rootDir ++ [NameAuth]) in *.
  destruct auth as [[cud prov]|]; last first.
  { assert (Stat B t = StatNotExist) as ->; [|done].
    apply Stat_child_missing; [done|]. fold B. rewrite <-(app_nil_r B).
    apply (realises_none _ _ _ _ HR); [|by intros [_ ?]].
    intros p c Hin. by apply elem_of_nil in Hin. }
  assert (kind_at B t = KDir) as HB.
  { apply (realises_base_dir _ _ _ _ HR).
    - right. destruct prov, cud; simpl in *; try done;
        eexists _, _; left.
    - intros c. destruct prov, cud; simpl;
        rewrite ?elem_of_cons, ?elem_of_nil; intros H; by intuition. }
  destruct (proj1 (kind_at_Dir _ _) HB) as [es ->].
  assert (parseJSON (B ++ [FileCustomUserData]) t = Ok cud) as ->.
  { destruct cud as [d|].
    - apply (parseJSON_doc _ _ (Some d)), (realises_file _ _ _ _ HR).
      + destruct prov; simpl; rewrite ?elem_of_cons; by auto.
      + intros c'. destruct prov; simpl;
          rewrite ?elem_of_cons, ?elem_of_nil; intros H;
          by intuition; simplify_eq.
    - apply parseJSON_missing, Stat_child_missing; [done|].
      apply (realises_none _ _ _ _ HR); [|by intros [_ ?]].
      intros p c. destruct prov; simpl;
        rewrite ?elem_of_cons, ?elem_of_nil; intros H Hpre;
        destruct_or?; simplify_eq; try done.
      by apply prefix_cons_inv_1 in Hpre. }
  assert (parseJSON (B ++ [FileProviders]) t = Ok prov) as ->; [|done].
  destruct prov as [d|].
  - apply (parseJSON_doc _ _ (Some d)), (realises_file _ _ _ _ HR).
    + simpl. by left.
    + intros c'. destruct cud; simpl;
        rewrite ?elem_of_cons, ?elem_of_nil; intros H;
        by intuition; simplify_eq.
  - apply parseJSON_missing, Stat_child_missing; [done|].
    apply (realises_none _ _ _ _ HR); [|by intros [_ ?]].
    intros p c. destruct cud; simpl;
      rewrite ?elem_of_cons, ?elem_of_nil; intros H Hpre;
      destruct_or?; simplify_eq; try done.
    by apply prefix_cons_inv_1 in Hpre.
Qed.

Lemma parseSync_realises rootDir t sync :
  kind_at rootDir t = KDir →
  realises t (rootDir ++ [NameSync]) false (files_of_sync sync) →
  sync_kept sync →
  parseSync rootDir t = Ok sync.
Proof.
  intros Hroot HR Hkept. unfold parseSync.
  rewrite (Join_segs _ [NameSync]), Join_FileConfig
    by (repeat constructor; apply seg_ok_section_names).
  set (B := rootDir ++ [NameSync]) in *.
  destruct sync as [[[d|]]|]; [| done |].
  - assert (kind_at B t = KDir) as HB.
    { apply (realises_base_dir _ _ _ _ HR).
      - right. eexists _, _. left.
      - intros c. simpl. rewrite ?elem_of_cons, ?elem_of_nil.
        intros H; by intuition. }
    destruct (proj1 (kind_at_Dir _ _) HB) as [es ->].
    rewrite (parseJSON_doc _ _ (Some d)); [done|].
    apply (realises_file _ _ _ _ HR); [by left|].
    intros c'. simpl. rewrite ?elem_of_cons, ?elem_of_nil.
    intros H; by intuition; simplify_eq.
  - assert (Stat B t = StatNotExist) as ->; [|done].
    apply Stat_child_missing; [done|]. fold B. rewrite <-(app_nil_r B).
    apply (realises_none _ _ _ _ HR); [|by intros [_ ?]].
    intros p c Hin. by apply elem_of_nil in Hin.
Qed.

(** *** The functions section *)

Lemma canonical_key_split k :
  canonical_key k →
  String.concat "/" (split k) = k ∧ split k ≠ [] ∧
  Forall seg_ok (split k) ∧ path_ext (split k) = extJS.
Proof.
  intros (segs & -> & Hne & Hok & Hext).
  rewrite split_concat; [done|done|].
  eapply Forall_impl; [done|]. by intros s [? _].
Qed.

Lemma range_of_elem functions order k v :
  range_of functions order →
  (k, v) ∈ order ↔ sources_of functions !! k = Some v.
Proof. intros ->. apply elem_of_map_to_list. Qed.

Lemma seg_ok_no_slash l :
  Forall seg_ok l → Forall (λ s, has_slash s = false) l.
Proof. intros H. eapply Forall_impl; [done|]. by intros s [? _]. Qed.

Lemma elem_of_files_of_functions functions order p c :
  (p, c) ∈ files_of_functions functions order ↔
  (p = [FileConfig] ∧
   c = MarshalJSON
         (docs_json (match functions with Some f => Configs f | None => [] end))) ∨
  ∃ k v, (k, v) ∈ order ∧ p = split k ∧ c = RawText v.
Proof.
  unfold files_of_functions. rewrite elem_of_cons, list_elem_of_fmap. split.
  - intros [?|([k v] & ? & ?)]; simplify_eq; [by left|]. right. by eauto.
  - intros [[-> ->]|(k & v & ? & -> & ->)]; [by left|]. right.
    by exists (k, v).
Qed.

Lemma parseFunctionsV2_realises rootDir t functions order :
  realises t (rootDir ++ [NameFunctions]) false
    (files_of_functions functions order) →
  range_of functions order →
  (∀ k src, sources_of functions !! k = Some src → canonical_key k) →
  parseFunctionsV2 rootDir t = Ok (Some (functions_written functions)).
Proof.
  intros HR Hrange Hcanon. unfold parseFunctionsV2.
  rewrite Join_NameFunctions, Join_FileConfig.
  set (B := rootDir ++ [NameFunctions]) in *.
  set (T := files_of_functions functions order) in *.
  assert (Hkeys : ∀ k v, (k, v) ∈ order →
            sources_of functions !! k = Some v ∧
            String.concat "/" (split k) = k ∧ split k ≠ [] ∧
            Forall seg_ok (split k) ∧ path_ext (split k) = extJS).
  { intros k v Hin. apply (range_of_elem _ _ _ _ Hrange) in Hin.
    split; [done|]. by eapply canonical_key_split, Hcanon. }
  assert (Hpaths : ∀ p c, (p, c) ∈ T →
            p ≠ [] ∧ Forall (λ s, has_slash s = false) p).
  { intros p c [[-> _]|(k & v & Hin & -> & _)]%elem_of_files_of_functions.
    - split; [done|]. by repeat constructor.
    - destruct (Hkeys _ _ Hin) as (_ & _ & ? & ? & _).
      split; [done|]. by apply seg_ok_no_slash. }
  assert (Hnil : ∀ c, ([], c) ∉ T).
  { intros c Hin. by destruct (Hpaths _ _ Hin). }
  assert (kind_at B t = KDir) as HB.
  { apply (realises_base_dir _ _ _ _ HR); [|done].
    right. eexists _, _. left. }
  destruct (proj1 (kind_at_Dir _ _) HB) as [es Hes]. rewrite Hes.
  (* the configuration file *)
  assert (parseJSONArray (B ++ [FileConfig]) t
          = Ok (match functions with Some f => Configs f | None => [] end))
    as ->.
  { unfold parseJSONArray. erewrite (realises_file _ _ _ _ HR); [|by left|].
    - simpl. apply json_docs_doc_json.
    - intros c' [[_ ->]|(k & v & Hin & Heq & _)]%elem_of_files_of_functions;
        [done|].
      destruct (Hkeys _ _ Hin) as (_ & _ & _ & _ & Hext).
      rewrite <-Heq in Hext. done. }
  (* the sources *)
  destruct (walk_node_collects t B (Dir es) [] ∅)
    as (sources & Hw & Ha & _ & Hc).
  { by rewrite app_nil_r. }
  { intros rel n' Hs.
    assert (kind_at (B ++ rel) t ≠ KNone) as Hne.
    { unfold kind_at. rewrite Stat_app, Hes, Hs. by destruct n'. }
    destruct (kind_at (B ++ rel) t) as [|c|] eqn:Hk; [done| |].
    - apply (realises_file_inv _ _ _ _ HR) in Hk. by apply Hpaths in Hk as [_ ?].
    - destruct (realises_dir_inv _ _ _ _ HR _ Hk)
        as [[[_ ?]|(p & c & Hin & [k' ->])] _]; [done|].
      apply Hpaths in Hin as [_ Hin]. by apply Forall_app in Hin as [? _]. }
  { done. }
  { done. }
  rewrite app_nil_r in Hw. unfold walk. rewrite Hes, Hw. simpl.
  do 2 f_equal.
  assert (sources = sources_of functions) as ->; [|by destruct functions as [[]|]].
  apply map_eq. intros k. apply option_eq. intros v. split.
  - intros Hk. destruct (Hc _ _ Hk) as [(rel & c & Hs & Hext & -> & ->)|?];
      [|done].
    simpl in *.
    assert (kind_at (B ++ rel) t = KFile c) as Hkf.
    { apply kind_at_File. by rewrite Stat_app, Hes. }
    apply (realises_file_inv _ _ _ _ HR) in Hkf.
    apply elem_of_files_of_functions in Hkf
      as [[-> _]|(k' & v' & Hin & -> & ->)].
    + by rewrite path_ext_app in Hext.
    + destruct (Hkeys _ _ Hin) as (? & -> & _). done.
  - intros Hk. apply (range_of_elem _ _ _ _ Hrange) in Hk.
    destruct (Hkeys _ _ Hk) as (Hsrc & Hcat & Hne & Hok & Hext).
    apply Ha. exists (split k), (RawText v). split_and!; [| |done|done].
    + rewrite <-(realises_file _ _ _ _ HR (split k) (RawText v)).
      * by rewrite Stat_app, Hes.
      * apply elem_of_files_of_functions. right. by eauto.
      * intros c' [[Heq _]|(k' & v' & Hin & Heq & ->)]%elem_of_files_of_functions.
        { rewrite Heq in Hext. done. }
        destruct (Hkeys _ _ Hin) as (Hsrc' & Hcat' & _).
        assert (k' = k) as -> by (by rewrite <-Hcat', <-Heq, Hcat).
        congruence.
    + simpl. by rewrite path_ext_app.
Qed.

(** *** The visitors on the files of one entity *)

Lemma fold_result_fmap_snoc {A B C} (g : A → C)
    (step : C → list B → result (list B)) (f : A → B)
    (xs : list A) (acc : list B) :
  (∀ x acc, x ∈ xs → step (g x) acc = Ok (acc ++ [f x])) →
  fold_result step (g <$> xs) acc = Ok (acc ++ (f <$> xs)).
Proof.
  revert acc. induction xs as [|x xs IH]; intros acc Hstep.
  { simpl. by rewrite app_nil_r. }
  rewrite !fmap_cons. cbn [fold_result]. rewrite Hstep by left.
  cbn [rbind]. rewrite IH.
  - by rewrite <-app_assoc.
  - intros y a Hy. apply Hstep. by right.
Qed.

Lemma as_string_index_Some (w : option Document) k s :
  as_string (index w k) = Some s → ∃ d, w = Some d ∧ d !! k = Some (JStr s).
Proof.
  destruct w as [d|]; [|done]. unfold index. simpl.
  destruct (d !! k) as [[]|] eqn:Hk; simpl; try done.
  intros [= ->]. by eauto.
Qed.

Lemma visitFunction_written t file path (w : option Document) acc :
  Stat (path ++ [FileConfig]) t
  = StatNode (File (MarshalJSON (JObj (delete NameSource (copy_map w))))) →
  Stat (path ++ [FileSource]) t
  = StatNode (File (RawText (default "" (as_string (index w NameSource))))) →
  is_Some (as_string (index w NameSource)) →
  visitFunction t file path acc = Ok (acc ++ [w]).
Proof.
  intros Hc Hs [src Hsrc]. unfold visitFunction.
  rewrite Join_FileConfig, Join_FileSource. unfold parseJSON, ReadFile.
  rewrite Hsrc in Hs.
  apply as_string_index_Some in Hsrc as (d & -> & Hd).
  rewrite copy_map_Some in Hc. rewrite Hc, Hs. simpl.
  by rewrite insert_delete_id.
Qed.

Lemma visitColl_written t coll collPath (r : option Document) acc :
  Stat (collPath ++ [FileRules]) t
  = StatNode (File (MarshalJSON (JObj (delete NameSchema (copy_map r))))) →
  Stat (collPath ++ [FileSchema]) t
  = StatNode (File (MarshalJSON (index r NameSchema))) →
  (∃ v, r ≫= (.!! NameSchema) = Some v ∧ schema_value v) →
  visitColl t coll collPath acc = Ok (acc ++ [r]).
Proof.
  intros Hr Hs (v & Hv & Hsv). unfold visitColl.
  rewrite Join_FileRules, Join_FileSchema. unfold parseJSON.
  destruct r as [d|]; [|done]. simpl in Hv.
  unfold index in Hs. simpl in Hs. rewrite Hv in Hs. simpl in Hs.
  rewrite copy_map_Some in Hr. rewrite Hr, Hs. simpl.
  destruct Hsv as [->|[s ->]]; simpl; by rewrite insert_delete_id.
Qed.

(** *** The HTTP endpoints section *)

Lemma elem_of_files_of_endpoints (eps : list HTTPEndpointStructure) p c :
  (p, c) ∈ eps ≫= files_of_endpoint ↔
  ∃ ep, ep ∈ eps ∧
    ((p = [ep_name ep; FileConfig] ∧
      c = MarshalJSON (doc_json (HTTPEndpoint_Config ep))) ∨
     ∃ w, w ∈ IncomingWebhooks ep ∧
       ((p = [ep_name ep; webhook_name w; FileConfig] ∧
         c = MarshalJSON (JObj (delete NameSource (copy_map w)))) ∨
        (p = [ep_name ep; webhook_name w; FileSource] ∧
         c = RawText (default "" (as_string (index w NameSource)))))).
Proof.
  rewrite list_elem_of_bind. unfold files_of_endpoint, files_of_webhook.
  split.
  - intros (ep & Hin & Hep). exists ep. split; [done|].
    apply elem_of_cons in Hin as [Heq|Hin]; [left; by simplify_eq|].
    right. apply list_elem_of_bind in Hin as (w & Hin & Hw). exists w.
    split; [done|]. rewrite !elem_of_cons, elem_of_nil in Hin.
    destruct Hin as [?|[?|[]]]; simplify_eq; by auto.
  - intros (ep & Hep & [[-> ->]|(w & Hw & Hcase)]); exists ep;
      (split; [|done]); [by left|].
    right. apply list_elem_of_bind. exists w. split; [|done].
    rewrite !elem_of_cons. destruct Hcase as [[-> ->]|[-> ->]]; by auto.
Qed.

Lemma prefix_one_cons {A} (x y : A) (l : list A) :
  [x] `prefix_of` y :: l ↔ x = y.
Proof.
  rewrite prefix_cons_iff. split; [by intros [? _]|].
  intros ->. split; [done|apply prefix_nil].
Qed.

Lemma prefix_two_cons {A} (x1 x2 y1 y2 : A) (l : list A) :
  [x1; x2] `prefix_of` y1 :: y2 :: l ↔ x1 = y1 ∧ x2 = y2.
Proof. rewrite prefix_cons_iff, prefix_one_cons. done. Qed.

Lemma prefix_three_cons {A} (x1 x2 x3 y1 y2 y3 : A) (l : list A) :
  [x1; x2; x3] `prefix_of` y1 :: y2 :: y3 :: l ↔ x1 = y1 ∧ x2 = y2 ∧ x3 = y3.
Proof. rewrite prefix_cons_iff, prefix_two_cons. done. Qed.

Lemma parseHTTPEndpoints_realises rootDir t eps :
  realises t (rootDir ++ [NameHTTPEndpoints]) true (eps ≫= files_of_endpoint) →
  Forall canonical_endpoint eps →
  StronglySorted (λ e1 e2, str_lt (ep_name e1) (ep_name e2)) eps →
  parseHTTPEndpoints rootDir t = Ok eps.
Proof.
  intros HR Hcan Hsort. unfold parseHTTPEndpoints.
  rewrite Join_NameHTTPEndpoints.
  set (B := rootDir ++ [NameHTTPEndpoints]) in *.
  set (T := eps ≫= files_of_endpoint) in *.
  rewrite Forall_forall in Hcan.
  assert (Hinj : ∀ e1 e2, e1 ∈ eps → e2 ∈ eps → ep_name e1 = ep_name e2 →
                          e1 = e2).
  { intros e1 e2 H1 H2 Heq.
    eapply StronglySorted_inj; [exact Hsort|done|done| |];
      cbv beta; rewrite Heq; apply str_lt_irrefl. }
  assert (Hdir : ∀ ep, ep ∈ eps → kind_at (B ++ [ep_name ep]) t = KDir).
  { intros ep Hep. apply (realises_dir _ _ _ _ HR).
    - eexists [ep_name ep; FileConfig], _. split.
      + apply elem_of_files_of_endpoints. exists ep. split; [done|by left].
      + by apply prefix_one_cons.
    - intros c (ep' & _ & [[? _]|(w & _ & [[? _]|[? _]])])%elem_of_files_of_endpoints;
        done. }
  rewrite (dw_walk_names _ _ (ep_name <$> eps)).
  - rewrite (fold_result_fmap_snoc ep_name _ id); [by rewrite list_fmap_id|].
    intros ep acc Hep. unfold visitHTTPEndpoint.
    rewrite Join_FileConfig, Join_nil, <-app_assoc. simpl.
    rewrite (parseJSON_doc _ _ (HTTPEndpoint_Config ep)); last first.
    { apply (realises_file _ _ _ _ HR).
      - apply elem_of_files_of_endpoints. exists ep. split; [done|by left].
      - intros c' (ep' & Hep' & [[Hp ->]|(w & _ & [[? _]|[? _]])])%elem_of_files_of_endpoints;
          [|done..].
        injection Hp as Hn. by rewrite (Hinj _ _ Hep Hep' Hn). }
    cbn [rbind]. unfold parseFunctions.
    destruct (Hcan _ Hep) as (_ & _ & Hwcan & Hwsort).
    rewrite Forall_forall in Hwcan.
    assert (Hwinj : ∀ w1 w2, w1 ∈ IncomingWebhooks ep →
               w2 ∈ IncomingWebhooks ep →
               webhook_name w1 = webhook_name w2 → w1 = w2).
    { intros w1 w2 H1 H2 Heq.
      eapply StronglySorted_inj; [exact Hwsort|done|done| |];
        cbv beta; rewrite Heq; apply str_lt_irrefl. }
    assert (Hfiles : ∀ w, w ∈ IncomingWebhooks ep →
      Stat (B ++ [ep_name ep; webhook_name w; FileConfig]) t
      = StatNode (File (MarshalJSON (JObj (delete NameSource (copy_map w))))) ∧
      Stat (B ++ [ep_name ep; webhook_name w; FileSource]) t
      = StatNode (File (RawText (default "" (as_string (index w NameSource)))))).
    { intros w Hw. split; apply (realises_file _ _ _ _ HR).
      - apply elem_of_files_of_endpoints. exists ep. split; [done|].
        right. exists w. by auto.
      - intros c' (ep' & Hep' & [[? _]|(w' & Hw' & [[Hp ->]|[? _]])])%elem_of_files_of_endpoints;
          [done| |done].
        injection Hp as Hn Hwn. rewrite <-(Hinj _ _ Hep Hep' Hn) in Hw'.
        by rewrite (Hwinj _ _ Hw Hw' Hwn).
      - apply elem_of_files_of_endpoints. exists ep. split; [done|].
        right. exists w. by auto.
      - intros c' (ep' & Hep' & [[? _]|(w' & Hw' & [[? _]|[Hp ->]])])%elem_of_files_of_endpoints;
          [done|done|].
        injection Hp as Hn Hwn. rewrite <-(Hinj _ _ Hep Hep' Hn) in Hw'.
        by rewrite (Hwinj _ _ Hw Hw' Hwn). }
    rewrite (dw_walk_names _ _ (webhook_name <$> IncomingWebhooks ep)).
    + rewrite (fold_result_fmap_snoc webhook_name _ id);
        [rewrite list_fmap_id; simpl; by destruct ep|].
      intros w acc' Hw. destruct (Hfiles _ Hw) as [Hc Hs].
      apply visitFunction_written.
      * by rewrite <-!app_assoc.
      * by rewrite <-!app_assoc.
      * by apply Hwcan.
    + by apply Hdir.
    + eapply StronglySorted_fmap; [|exact Hwsort]. done.
    + intros name. rewrite list_elem_of_fmap, <-app_assoc. simpl. split.
      * intros (w & -> & Hw). destruct (Hfiles _ Hw) as [Hc _].
        apply kind_at_File in Hc.
        apply (realises_dir _ _ _ _ HR).
        { eexists [ep_name ep; webhook_name w; FileConfig], _. split.
          - apply elem_of_files_of_endpoints. exists ep. split; [done|].
            right. exists w. by auto.
          - by apply prefix_two_cons. }
        intros c Hin. destruct HR as (H1 & _).
        destruct (H1 _ _ Hin) as (c' & Hk & _).
        assert ([FileConfig] = []) as Habs; [|done].
        eapply (kind_at_below_file (B ++ [ep_name ep; webhook_name w]));
          [done|]. rewrite <-app_assoc. simpl. by rewrite Hc.
      * intros Hk.
        destruct (realises_dir_inv _ _ _ _ HR _ Hk)
          as [[[? _]|(p & c & Hin & Hpre)] Hnf]; [done|].
        pose proof Hin as Hin'.
        apply elem_of_files_of_endpoints in Hin
          as (ep' & Hep' & [[-> ->]|(w & Hw & [[-> ->]|[-> ->]])]).
        -- apply prefix_two_cons in Hpre as [Hn ->].
           rewrite <-Hn in Hin'. by apply Hnf in Hin'.
        -- apply prefix_two_cons in Hpre as [Hn ->].
           rewrite <-(Hinj _ _ Hep Hep' Hn) in Hw. by exists w.
        -- apply prefix_two_cons in Hpre as [Hn ->].
           rewrite <-(Hinj _ _ Hep Hep' Hn) in Hw. by exists w.
    + done.
  - by apply HR.
  - eapply StronglySorted_fmap; [|exact Hsort]. done.
  - intros name. rewrite list_elem_of_fmap. split.
    + intros (ep & -> & Hep). by apply Hdir.
    + intros Hk.
      destruct (realises_dir_inv _ _ _ _ HR _ Hk)
        as [[[? _]|(p & c & Hin & Hpre)] _]; [done|].
      apply elem_of_files_of_endpoints in Hin
        as (ep' & Hep' & [[-> ->]|(w & Hw & [[-> ->]|[-> ->]])]);
        apply prefix_one_cons in Hpre as ->; by exists ep'.
  - done.
Qed.

(** ** The rules of a data source, by database *)

Lemma str_lt_trans a b c : str_lt a b → str_lt b c → str_lt a c.
Proof.
  intros [H1 Hab] [H2 Hbc]. split; [by etrans|].
  intros ->. apply Hab. by apply (anti_symm String.le).
Qed.

Lemma fold_result_fmap_app {A B C} (g : A → C)
    (step : C → list B → result (list B)) (f : A → list B)
    (xs : list A) (acc : list B) :
  (∀ x acc, x ∈ xs → step (g x) acc = Ok (acc ++ f x)) →
  fold_result step (g <$> xs) acc = Ok (acc ++ (xs ≫= f)).
Proof.
  revert acc. induction xs as [|x xs IH]; intros acc Hstep.
  { simpl. by rewrite app_nil_r. }
  rewrite fmap_cons, bind_cons. cbn [fold_result]. rewrite Hstep by left.
  cbn [rbind]. rewrite IH.
  - by rewrite <-app_assoc.
  - intros y a Hy. apply Hstep. by right.
Qed.

Lemma group_bind rules : group rules ≫= snd = rules.
Proof.
  induction rules as [|r rules IH]; [done|]. simpl.
  destruct (group rules) as [|[db g] gs].
  { simpl in IH. by subst. }
  rewrite bind_cons in IH. simpl in IH.
  case_decide; rewrite !bind_cons; simpl; by rewrite IH.
Qed.

Lemma group_elem rules db g :
  (db, g) ∈ group rules →
  g ≠ [] ∧ ∀ r, r ∈ g → rule_db r = db ∧ r ∈ rules.
Proof.
  revert db g. induction rules as [|r rules IH]; intros db g Hin; simpl in Hin.
  { by apply elem_of_nil in Hin. }
  destruct (group rules) as [|[db0 g0] gs].
  { apply list_elem_of_singleton in Hin. simplify_eq. split; [done|].
    intros r' ->%list_elem_of_singleton. split; [done|left]. }
  assert (Hrec : ∀ db g, (db, g) ∈ (db0, g0) :: gs →
            g ≠ [] ∧ ∀ r', r' ∈ g → rule_db r' = db ∧ r' ∈ r :: rules).
  { intros db' g' Hin'. destruct (IH _ _ Hin') as [? Hg]. split; [done|].
    intros r' Hr'. destruct (Hg _ Hr'). split; [done|by right]. }
  case_decide as Hdb.
  - apply elem_of_cons in Hin as [Heq|Hin].
    + simplify_eq. split; [done|]. intros r' [->|Hr']%elem_of_cons.
      * split; [done|left].
      * apply (Hrec (rule_db r) g0); [left|done].
    + apply Hrec. by right.
  - apply elem_of_cons in Hin as [Heq|Hin]; [|by apply Hrec].
    simplify_eq. split; [done|].
    intros r' ->%list_elem_of_singleton. split; [done|left].
Qed.

Lemma group_covers rules r :
  r ∈ rules → ∃ g, (rule_db r, g) ∈ group rules ∧ r ∈ g.
Proof.
  induction rules as [|r0 rules IH]; intros Hin.
  { by apply elem_of_nil in Hin. }
  simpl. apply elem_of_cons in Hin as [->|Hin].
  - destruct (group rules) as [|[db0 g0] gs].
    { exists [r0]. split; left. }
    case_decide as Hdb.
    + exists (r0 :: g0). rewrite Hdb. split; left.
    + exists [r0]. split; left.
  - destruct (IH Hin) as (g & Hg & Hr).
    destruct (group rules) as [|[db0 g0] gs].
    { by apply elem_of_nil in Hg. }
    case_decide as Hdb.
    + apply elem_of_cons in Hg as [Heq|Hg].
      * injection Heq as Heq Hg. subst g. exists (r0 :: g0). rewrite Heq.
        split; [left|by right].
      * exists g. split; [by right|done].
    + exists g. split; [by right|done].
Qed.

Lemma group_sorted rules :
  StronglySorted rule_lt rules →
  StronglySorted (λ x y, str_lt x.1 y.1) (group rules).
Proof.
  induction 1 as [|r rules Hs IH Hr]; [constructor|]. simpl.
  pose proof (group_elem rules) as Hel.
  destruct (group rules) as [|[db0 g0] gs]; [by repeat constructor|].
  rewrite Forall_forall in Hr.
  apply StronglySorted_cons in IH as [Hgs IH].
  case_decide as Hdb.
  - constructor; [done|]. done.
  - assert (str_lt (rule_db r) db0) as Hlt.
    { destruct (Hel db0 g0) as [Hne Hg]; [left|].
      destruct g0 as [|r' g0]; [done|].
      destruct (Hg r') as [Hdb' Hin']; [left|].
      destruct (Hr _ Hin') as [?|[? _]]; congruence. }
    constructor; [by constructor|].
    constructor; [done|]. simpl.
    eapply Forall_impl; [exact Hgs|]. simpl. intros [db' g'] ?.
    by eapply str_lt_trans.
Qed.

Lemma group_colls_sorted rules db g :
  StronglySorted rule_lt rules → (db, g) ∈ group rules →
  StronglySorted (λ a b, str_lt (rule_coll a) (rule_coll b)) g.
Proof.
  intros Hs. revert db g.
  induction Hs as [|r rules Hs IH Hr]; intros db g Hin; simpl in Hin.
  { by apply elem_of_nil in Hin. }
  pose proof (group_elem rules) as Hel.
  destruct (group rules) as [|[db0 g0] gs].
  { apply list_elem_of_singleton in Hin. simplify_eq. by repeat constructor. }
  rewrite Forall_forall in Hr.
  case_decide as Hdb.
  - apply elem_of_cons in Hin as [Heq|Hin]; [|eapply IH; by right].
    simplify_eq. constructor; [eapply IH; left|].
    apply Forall_forall. intros r' Hr'.
    destruct (Hel (rule_db r) g0) as [_ Hg]; [left|].
    destruct (Hg _ Hr') as [Hdb' Hin'].
    destruct (Hr _ Hin') as [Hlt|[_ ?]]; [|done].
    rewrite Hdb' in Hlt. by apply str_lt_irrefl in Hlt.
  - apply elem_of_cons in Hin as [Heq|Hin]; [|by eapply IH].
    simplify_eq. by repeat constructor.
Qed.

(** *** The data sources section *)

Lemma elem_of_files_of_data_sources (dss : list DataSourceStructure) p c :
  (p, c) ∈ dss ≫= files_of_data_source ↔
  ∃ ds, ds ∈ dss ∧
    ((p = [ds_name ds; FileConfig] ∧
      c = MarshalJSON (doc_json (DataSource_Config ds))) ∨
     ∃ r, r ∈ Rules ds ∧
       ((p = [ds_name ds; rule_db r; rule_coll r; FileRules] ∧
         c = MarshalJSON (JObj (delete NameSchema (copy_map r)))) ∨
        (p = [ds_name ds; rule_db r; rule_coll r; FileSchema] ∧
         c = MarshalJSON (index r NameSchema)))).
Proof.
  rewrite list_elem_of_bind. unfold files_of_data_source, files_of_rule.
  split.
  - intros (ds & Hin & Hds). exists ds. split; [done|].
    apply elem_of_cons in Hin as [Heq|Hin]; [left; by simplify_eq|].
    right. apply list_elem_of_bind in Hin as (r & Hin & Hr). exists r.
    split; [done|]. rewrite !elem_of_cons, elem_of_nil in Hin.
    destruct Hin as [?|[?|[]]]; simplify_eq; by auto.
  - intros (ds & Hds & [[-> ->]|(r & Hr & Hcase)]); exists ds;
      (split; [|done]); [by left|].
    right. apply list_elem_of_bind. exists r. split; [|done].
    rewrite !elem_of_cons. destruct Hcase as [[-> ->]|[-> ->]]; by auto.
Qed.

Lemma prefix_longer {A} (l k : list A) :
  l `prefix_of` k → length l ≤ length k.
Proof. intros [m ->]. rewrite length_app. lia. Qed.

Section DataSourceRules.
Context (t : node) (B : path) (dss : list DataSourceStructure).
Let T := dss ≫= files_of_data_source.
Hypothesis HR : realises t B true T.
Hypothesis Hsort :
  StronglySorted (λ d1 d2, str_lt (ds_name d1) (ds_name d2)) dss.
Context (ds : DataSourceStructure).
Hypothesis Hds : ds ∈ dss.
Hypothesis Hrsort : StronglySorted rule_lt (Rules ds).
Hypothesis Hrcan : ∀ r, r ∈ Rules ds → canonical_rule r.

Lemma ds_name_inj ds' : ds' ∈ dss → ds_name ds = ds_name ds' → ds = ds'.
Proof.
  intros Hds' Heq.
  eapply StronglySorted_inj; [exact Hsort|done|done| |];
    cbv beta; rewrite Heq; apply str_lt_irrefl.
Qed.

Lemma rule_key_inj r r' :
  r ∈ Rules ds → r' ∈ Rules ds →
  rule_db r = rule_db r' → rule_coll r = rule_coll r' → r = r'.
Proof.
  intros Hr Hr' Hdb Hcl.
  eapply StronglySorted_inj; [exact Hrsort|done|done| |];
    unfold rule_lt; rewrite Hdb, Hcl;
    intros [?%str_lt_irrefl|[_ ?%str_lt_irrefl]]; done.
Qed.

Lemma ds_config_file :
  Stat (B ++ [ds_name ds; FileConfig]) t
  = StatNode (File (MarshalJSON (doc_json (DataSource_Config ds)))).
Proof.
  apply (realises_file _ _ _ _ HR).
  - apply elem_of_files_of_data_sources. exists ds. split; [done|by left].
  - intros c' (ds' & Hds' & [[Hp ->]|(r & _ & [[? _]|[? _]])])%elem_of_files_of_data_sources;
      [|done..].
    injection Hp as Hn. by rewrite (ds_name_inj _ Hds' Hn).
Qed.

Lemma ds_rule_files r :
  r ∈ Rules ds →
  Stat (B ++ [ds_name ds; rule_db r; rule_coll r; FileRules]) t
  = StatNode (File (MarshalJSON (JObj (delete NameSchema (copy_map r))))) ∧
  Stat (B ++ [ds_name ds; rule_db r; rule_coll r; FileSchema]) t
  = StatNode (File (MarshalJSON (index r NameSchema))).
Proof.
  intros Hr. split; apply (realises_file _ _ _ _ HR).
  - apply elem_of_files_of_data_sources. exists ds. split; [done|].
    right. exists r. by auto.
  - intros c' (ds' & Hds' & [[? _]|(r' & Hr' & [[Hp ->]|[? _]])])%elem_of_files_of_data_sources;
      [done| |done].
    injection Hp as Hn Hdb Hcl. rewrite <-(ds_name_inj _ Hds' Hn) in Hr'.
    by rewrite (rule_key_inj _ _ Hr Hr' Hdb Hcl).
  - apply elem_of_files_of_data_sources. exists ds. split; [done|].
    right. exists r. by auto.
  - intros c' (ds' & Hds' & [[? _]|(r' & Hr' & [[? _]|[Hp ->]])])%elem_of_files_of_data_sources;
      [done|done|].
    injection Hp as Hn Hdb Hcl. rewrite <-(ds_name_inj _ Hds' Hn) in Hr'.
    by rewrite (rule_key_inj _ _ Hr Hr' Hdb Hcl).
Qed.

Lemma ds_dir : kind_at (B ++ [ds_name ds]) t = KDir.
Proof.
  apply (realises_dir _ _ _ _ HR).
  - eexists [ds_name ds; FileConfig], _. split.
    + apply elem_of_files_of_data_sources. exists ds. split; [done|by left].
    + by apply prefix_one_cons.
  - intros c (ds' & _ & [[? _]|(r & _ & [[? _]|[? _]])])%elem_of_files_of_data_sources;
      done.
Qed.

(** The directories of a data source are its databases. *)
Lemma ds_db_dirs db :
  kind_at (B ++ [ds_name ds; db]) t = KDir ↔ db ∈ (group (Rules ds)).*1.
Proof.
  rewrite list_elem_of_fmap. split.
  - intros Hk.
    destruct (realises_dir_inv _ _ _ _ HR _ Hk)
      as [[[? _]|(p & c & Hin & Hpre)] Hnf]; [done|].
    pose proof Hin as Hin'.
    apply elem_of_files_of_data_sources in Hin
      as (ds' & Hds' & [[-> ->]|(r & Hr & [[-> ->]|[-> ->]])]).
    + apply prefix_two_cons in Hpre as [Hn ->].
      rewrite <-Hn in Hin'. by apply Hnf in Hin'.
    + apply prefix_two_cons in Hpre as [Hn ->].
      rewrite <-(ds_name_inj _ Hds' Hn) in Hr.
      destruct (group_covers _ _ Hr) as (g & Hg & _). by exists (rule_db r, g).
    + apply prefix_two_cons in Hpre as [Hn ->].
      rewrite <-(ds_name_inj _ Hds' Hn) in Hr.
      destruct (group_covers _ _ Hr) as (g & Hg & _). by exists (rule_db r, g).
  - intros ([db' g] & -> & Hg). simpl.
    destruct (group_elem _ _ _ Hg) as [Hne Hel].
    destruct g as [|r g]; [done|]. destruct (Hel r) as [<- Hr]; [left|].
    destruct (ds_rule_files r Hr) as [Hf _]. apply kind_at_File in Hf.
    apply (realises_dir _ _ _ _ HR).
    { eexists [_; _; _; _], _. split.
      - apply elem_of_files_of_data_sources. exists ds. split; [done|].
        right. exists r. by auto.
      - by apply prefix_two_cons. }
    intros c Hin. destruct HR as (H1 & _).
    destruct (H1 _ _ Hin) as (c' & Hk & _).
    assert ([rule_coll r; FileRules] = []) as Habs; [|done].
    eapply (kind_at_below_file (B ++ [ds_name ds; rule_db r])); [done|].
    rewrite <-app_assoc. simpl. by rewrite Hf.
Qed.

(** The directories of a database are the collections of its rules. *)
Lemma ds_coll_dirs db g cl :
  (db, g) ∈ group (Rules ds) →
  kind_at (B ++ [ds_name ds; db; cl]) t = KDir ↔ cl ∈ rule_coll <$> g.
Proof.
  intros Hg. destruct (group_elem _ _ _ Hg) as [Hne Hel].
  rewrite list_elem_of_fmap. split.
  - intros Hk.
    destruct (realises_dir_inv _ _ _ _ HR _ Hk)
      as [[[? _]|(p & c & Hin & Hpre)] Hnf]; [done|].
    apply elem_of_files_of_data_sources in Hin
      as (ds' & Hds' & [[-> ->]|(r & Hr & [[-> ->]|[-> ->]])]).
    + apply prefix_longer in Hpre. simpl in Hpre. lia.
    + apply prefix_three_cons in Hpre as (Hn & -> & ->).
      rewrite <-(ds_name_inj _ Hds' Hn) in Hr.
      destruct (group_covers _ _ Hr) as (g' & Hg' & Hrg).
      assert ((rule_db r, g') = (rule_db r, g)) as Heq.
      { eapply StronglySorted_inj;
          [exact (group_sorted _ Hrsort)|done|done|apply str_lt_irrefl..]. }
      injection Heq as ->. by exists r.
    + apply prefix_three_cons in Hpre as (Hn & -> & ->).
      rewrite <-(ds_name_inj _ Hds' Hn) in Hr.
      destruct (group_covers _ _ Hr) as (g' & Hg' & Hrg).
      assert ((rule_db r, g') = (rule_db r, g)) as Heq.
      { eapply StronglySorted_inj;
          [exact (group_sorted _ Hrsort)|done|done|apply str_lt_irrefl..]. }
      injection Heq as ->. by exists r.
  - intros (r & -> & Hrg). destruct (Hel _ Hrg) as [<- Hr].
    apply (realises_dir _ _ _ _ HR).
    { eexists [_; _; _; _], _. split.
      - apply elem_of_files_of_data_sources. exists ds. split; [done|].
        right. exists r. by auto.
      - by apply prefix_three_cons. }
    intros c (ds' & _ & [[? _]|(r' & _ & [[? _]|[? _]])])%elem_of_files_of_data_sources;
      done.
Qed.

Lemma visitDataSource_written file acc :
  visitDataSource t file (B ++ [ds_name ds]) acc = Ok (acc ++ [ds]).
Proof.
  unfold visitDataSource. rewrite Join_FileConfig, <-app_assoc. simpl.
  rewrite (parseJSON_doc _ _ (DataSource_Config ds)) by apply ds_config_file.
  cbn [rbind].
  rewrite (dw_walk_names _ _ (group (Rules ds)).*1).
  - rewrite (fold_result_fmap_app fst _ snd).
    { rewrite group_bind. simpl. by destruct ds. }
    intros [db g] acc' Hg. simpl. unfold visitDB.
    rewrite <-app_assoc. simpl.
    destruct (group_elem _ _ _ Hg) as [Hne Hel].
    rewrite (dw_walk_names _ _ (rule_coll <$> g)).
    + rewrite (fold_result_fmap_snoc rule_coll _ id);
        [by rewrite list_fmap_id|].
      intros r acc'' Hrg. destruct (Hel _ Hrg) as [<- Hr].
      destruct (ds_rule_files r Hr) as [Hf Hs].
      apply visitColl_written.
      * by rewrite <-!app_assoc.
      * by rewrite <-!app_assoc.
      * by apply Hrcan.
    + apply ds_db_dirs. apply list_elem_of_fmap. by exists (db, g).
    + eapply StronglySorted_fmap; [|exact (group_colls_sorted _ _ _ Hrsort Hg)].
      done.
    + intros cl. rewrite <-app_assoc. simpl. symmetry. by apply ds_coll_dirs.
    + done.
  - apply ds_dir.
  - eapply StronglySorted_fmap; [|exact (group_sorted _ Hrsort)]. done.
  - intros db. rewrite <-app_assoc. simpl. symmetry. apply ds_db_dirs.
  - done.
Qed.

End DataSourceRules.

Lemma parseDataSources_realises rootDir t dss :
  realises t (rootDir ++ [NameDataSources]) true (dss ≫= files_of_data_source) →
  Forall canonical_data_source dss →
  StronglySorted (λ d1 d2, str_lt (ds_name d1) (ds_name d2)) dss →
  parseDataSources rootDir t = Ok dss.
Proof.
  intros HR Hcan Hsort. unfold parseDataSources.
  rewrite Join_NameDataSources.
  set (B := rootDir ++ [NameDataSources]) in *.
  rewrite Forall_forall in Hcan.
  rewrite (dw_walk_names _ _ (ds_name <$> dss)).
  - rewrite (fold_result_fmap_snoc ds_name _ id); [by rewrite list_fmap_id|].
    intros ds acc Hds. destruct (Hcan _ Hds) as (_ & _ & Hrcan & Hrsort).
    rewrite Forall_forall in Hrcan.
    by apply (visitDataSource_written t B dss HR Hsort ds Hds Hrsort Hrcan).
  - by apply HR.
  - eapply StronglySorted_fmap; [|exact Hsort]. done.
  - intros name. rewrite list_elem_of_fmap. split.
    + intros (ds & -> & Hds). by eapply ds_dir.
    + intros Hk.
      destruct (realises_dir_inv _ _ _ _ HR _ Hk)
        as [[[? _]|(p & c & Hin & Hpre)] _]; [done|].
      apply elem_of_files_of_data_sources in Hin
        as (ds' & Hds' & [[-> ->]|(w & Hw & [[-> ->]|[-> ->]])]);
        apply prefix_one_cons in Hpre as ->; by exists ds'.
  - done.
Qed.

(** ** The script of a canonical model *)

Lemma foldl_clean_step_segs p segs :
  Forall seg_ok segs → foldl clean_step p segs = p ++ segs.
Proof.
  intros Hl. revert p.
  induction Hl as [|s l (Hs & H1 & H2 & H3) _ IH]; intros p.
  { by rewrite app_nil_r. }
  simpl. rewrite IH. unfold clean_step.
  rewrite decide_False by (intros [?|?]; done).
  rewrite decide_False by done. by rewrite <-app_assoc.
Qed.

Lemma Join_key p k : Forall seg_ok (split k) → Join p [k] = p ++ split k.
Proof.
  intros Hk. unfold Join. rewrite bind_cons. simpl. rewrite app_nil_r.
  by apply foldl_clean_step_segs.
Qed.

Lemma write_files_bind {A} B (f : A → files) (l : list A) :
  write_files B (l ≫= f) = l ≫= (λ x, write_files B (f x)).
Proof.
  unfold write_files. induction l as [|x l IH]; [done|].
  by rewrite !bind_cons, fmap_app, IH.
Qed.

Lemma ops_writeAuth_files rootDir auth :
  ops_writeAuth rootDir auth
  = section_ops rootDir NameAuth false (files_of_auth auth).
Proof.
  unfold ops_writeAuth, section_ops, files_of_auth, write_files.
  destruct auth as [[cud prov]|]; [|done].
  rewrite Join_NameAuth, Join_FileProviders, Join_FileCustomUserData.
  by destruct cud, prov.
Qed.

Lemma ops_writeSync_files rootDir sync :
  ops_writeSync rootDir sync
  = section_ops rootDir NameSync false (files_of_sync sync).
Proof.
  unfold ops_writeSync, section_ops, files_of_sync, write_files.
  destruct sync as [[[d|]]|]; [|done..].
  rewrite Join_NameSync_FileConfig. simpl. by rewrite <-app_assoc.
Qed.

Lemma ops_writeFunctionsV2_files rootDir functions order :
  (∀ k v, (k, v) ∈ order → Forall seg_ok (split k)) →
  ops_writeFunctionsV2 rootDir functions order
  = section_ops rootDir NameFunctions false
      (files_of_functions functions order).
Proof.
  intros Hk. unfold ops_writeFunctionsV2, section_ops, files_of_functions,
    write_files.
  rewrite Join_NameFunctions, Join_FileConfig. simpl. f_equal.
  rewrite <-list_fmap_compose. apply Forall_fmap_ext_1, Forall_forall.
  intros [k v] Hin. simpl. rewrite Join_key; [done|]. by eapply Hk.
Qed.

Lemma ops_writeRule_files dir name rule :
  seg_ok name → canonical_rule rule →
  ops_writeRule dir name rule = write_files dir (files_of_rule name rule).
Proof.
  intros Hn (_ & _ & Hdb & Hcl & _). unfold ops_writeRule, files_of_rule, write_files.
  simpl. fold (rule_db rule) (rule_coll rule).
  rewrite !Join_segs; [done|..];
    rewrite ?Forall_cons, Forall_nil; split_and!; try done;
    apply seg_ok_file_names.
Qed.

Lemma ops_writeDataSource_files dir ds :
  canonical_data_source ds →
  ops_writeDataSource dir ds = write_files dir (files_of_data_source ds).
Proof.
  intros ([name Hname] & Hok & Hrules & _).
  unfold ops_writeDataSource, files_of_data_source, ds_name in *.
  rewrite Hname in *. simpl in Hok. unfold write_files at 1.
  rewrite fmap_cons. simpl. f_equal.
  - rewrite Join_segs; [done|].
    rewrite ?Forall_cons, Forall_nil; split_and!; try done;
    apply seg_ok_file_names.
  - fold (write_files dir (Rules ds ≫= files_of_rule name)).
    rewrite write_files_bind. apply Forall_bind_ext.
    eapply Forall_impl; [exact Hrules|]. intros r Hr.
    by apply ops_writeRule_files.
Qed.

Lemma ops_writeDataSources_files rootDir dss :
  Forall canonical_data_source dss →
  ops_writeDataSources rootDir dss
  = section_ops rootDir NameDataSources true (dss ≫= files_of_data_source).
Proof.
  intros Hcan. unfold ops_writeDataSources, section_ops.
  rewrite Join_NameDataSources. simpl. f_equal.
  rewrite write_files_bind. apply Forall_bind_ext.
  eapply Forall_impl; [exact Hcan|]. intros ds Hds.
  by apply ops_writeDataSource_files.
Qed.

Lemma ops_writeWebhook_files dir n webhook :
  seg_ok n → canonical_webhook webhook →
  ops_writeWebhook dir n webhook
  = write_files dir (files_of_webhook n webhook).
Proof.
  intros Hn ([name Hname] & [src Hsrc] & Hok).
  unfold ops_writeWebhook, files_of_webhook, write_files, webhook_name in *.
  rewrite Hname, Hsrc in *. simpl in *.
  rewrite !Join_segs; [by rewrite <-!app_assoc|..];
    rewrite ?Forall_cons, Forall_nil; split_and!; try done;
    apply seg_ok_file_names.
Qed.

Lemma ops_writeHTTPEndpoint_files dir ep :
  canonical_endpoint ep →
  ops_writeHTTPEndpoint dir ep = write_files dir (files_of_endpoint ep).
Proof.
  intros ([name Hname] & Hok & Hws & _).
  unfold ops_writeHTTPEndpoint, files_of_endpoint, ep_name in *.
  rewrite Hname in *. simpl in Hok. unfold write_files at 1.
  rewrite fmap_cons. simpl. f_equal.
  - rewrite Join_segs; [done|].
    rewrite ?Forall_cons, Forall_nil; split_and!; try done;
    apply seg_ok_file_names.
  - fold (write_files dir (IncomingWebhooks ep ≫= files_of_webhook name)).
    rewrite write_files_bind. apply Forall_bind_ext.
    eapply Forall_impl; [exact Hws|]. intros w Hw.
    by apply ops_writeWebhook_files.
Qed.

Lemma ops_writeHTTPEndpoints_files rootDir eps :
  Forall canonical_endpoint eps →
  ops_writeHTTPEndpoints rootDir eps
  = section_ops rootDir NameHTTPEndpoints true (eps ≫= files_of_endpoint).
Proof.
  intros Hcan. unfold ops_writeHTTPEndpoints, section_ops.
  rewrite Join_NameHTTPEndpoints. simpl. f_equal.
  rewrite write_files_bind. apply Forall_bind_ext.
  eapply Forall_impl; [exact Hcan|]. intros ep Hep.
  by apply ops_writeHTTPEndpoint_files.
Qed.

(** ** The sections of a written tree *)

Lemma section_ops_class rootDir X made (T : files) o :
  o ∈ section_ops rootDir X made T →
  (o = OpMkdirAll (rootDir ++ [X]) ∧ made = true) ∨
  ∃ p c, (p, c) ∈ T ∧ o = OpWriteFile ((rootDir ++ [X]) ++ p) c.
Proof.
  unfold section_ops, write_files. rewrite elem_of_app, list_elem_of_fmap.
  intros [Hmk|([p c] & -> & Hin)].
  - left. destruct made; [|by apply elem_of_nil in Hmk].
    by apply list_elem_of_singleton in Hmk.
  - right. by exists p, c.
Qed.

Lemma section_ops_outside rootDir X Y made (T : files) o :
  X ≠ Y → o ∈ section_ops rootDir Y made T → outside (rootDir ++ [X]) o.
Proof.
  intros Hne [[-> _]|(p & c & _ & ->)]%section_ops_class; simpl;
    rewrite <-?app_assoc; intros Hpre.
  - rewrite <-(app_nil_r [Y]) in Hpre.
    apply prefix_app_inv, prefix_one_cons in Hpre. done.
  - apply prefix_app_inv, prefix_one_cons in Hpre. done.
Qed.

Lemma abstract_outside rootDir X (L : list op) o :
  Forall (avoids X) L → o ∈ under_root rootDir <$> L →
  outside (rootDir ++ [X]) o.
Proof.
  rewrite Forall_forall. intros HL (o0 & -> & Hin)%list_elem_of_fmap.
  specialize (HL _ Hin). destruct o0 as [[|y p]|[|y p] c|e]; simpl in *;
    try done; intros Hpre.
  - rewrite app_nil_r in Hpre. by apply app_prefix_self in Hpre.
  - by apply prefix_app_inv, prefix_one_cons in Hpre.
  - rewrite app_nil_r in Hpre. by apply app_prefix_self in Hpre.
  - by apply prefix_app_inv, prefix_one_cons in Hpre.
Qed.

Lemma realises_section ops t t' rootDir X made (T : files) :
  apply_ops ops t = Some t' →
  Stat rootDir t = StatNode (Dir ∅) →
  (∀ o, o ∈ ops →
        outside (rootDir ++ [X]) o ∨ o ∈ section_ops rootDir X made T) →
  (∀ o, o ∈ section_ops rootDir X made T → o ∈ ops) →
  (∀ c, ([], c) ∉ T) →
  realises t' (rootDir ++ [X]) made T.
Proof.
  intros Ha Hroot Hcl Hin Hnil.
  apply (apply_ops_realises ops t); [done|..|done|].
  - intros q. rewrite <-app_assoc, kind_at_app, Hroot. by apply kind_at_empty.
  - intros o Ho. destruct (Hcl _ Ho) as [?|Hs]; [by left|].
    right. by apply section_ops_class in Hs.
  - intros p c HT. apply Hin. unfold section_ops, write_files.
    apply elem_of_app. right. apply list_elem_of_fmap. by exists (p, c).
  - intros ->. apply Hin. unfold section_ops. apply elem_of_app. left. left.
Qed.

Lemma no_root_file_auth auth c : ([], c) ∉ files_of_auth auth.
Proof.
  destruct auth as [[[] []]|]; simpl;
    rewrite ?elem_of_cons, ?elem_of_nil; intros H; by intuition.
Qed.

Lemma no_root_file_sync sync c : ([], c) ∉ files_of_sync sync.
Proof.
  destruct sync as [[[]]|]; simpl;
    rewrite ?elem_of_cons, ?elem_of_nil; intros H; by intuition.
Qed.

Lemma no_root_file_data_sources (dss : list DataSourceStructure) c :
  ([], c) ∉ dss ≫= files_of_data_source.
Proof.
  by intros (ds & _ & [[? _]|(r & _ & [[? _]|[? _]])])%elem_of_files_of_data_sources.
Qed.

Lemma no_root_file_endpoints (eps : list HTTPEndpointStructure) c :
  ([], c) ∉ eps ≫= files_of_endpoint.
Proof.
  by intros (ep & _ & [[? _]|(w & _ & [[? _]|[? _]])])%elem_of_files_of_endpoints.
Qed.

Section RoundTrip.
Context `{SeparateSections}.

Lemma canonical_order a order k v :
  canonical a → range_of (Functions a) order → (k, v) ∈ order →
  Forall seg_ok (split k) ∧ split k ≠ [].
Proof.
  intros (_ & _ & Hk & _) Hrange Hin.
  apply (range_of_elem _ _ _ _ Hrange) in Hin.
  destruct (canonical_key_split k) as (_ & ? & ? & _); [by eapply Hk|done].
Qed.

Lemma ops_WriteData_canonical rootDir a order :
  canonical a → range_of (Functions a) order →
  ops_WriteData rootDir a order =
  (under_root rootDir <$>
     (ops_writeSecrets (Secrets a) ++
      ops_writeEnvironments (Environments a) ++
      ops_writeValues (Values a) ++
      ops_writeGraphQL
        (match GraphQL a with Some g => g | None => GraphQLStructure_zero end) ++
      ops_writeServices (Services a))) ++
  section_ops rootDir NameFunctions false
    (files_of_functions (Functions a) order) ++
  section_ops rootDir NameAuth false (files_of_auth (Auth a)) ++
  section_ops rootDir NameSync false (files_of_sync (Sync a)) ++
  section_ops rootDir NameDataSources true
    (DataSources a ≫= files_of_data_source) ++
  section_ops rootDir NameHTTPEndpoints true
    (HTTPEndpoints a ≫= files_of_endpoint) ++
  section_ops rootDir NameHTTPEndpoints true
    (HTTPEndpoints a ≫= files_of_endpoint) ++
  (under_root rootDir <$> ops_writeTriggers (Triggers a)).
Proof.
  intros Hcan Hrange.
  pose proof Hcan as (_ & _ & _ & Hds & _ & Heps & _).
  unfold ops_WriteData, ops_before_sources, ops_after_sources.
  rewrite ops_writeAuth_files, ops_writeSync_files,
    (ops_writeDataSources_files _ _ Hds),
    (ops_writeHTTPEndpoints_files _ _ Heps).
  rewrite <-!app_assoc. f_equal. rewrite !app_assoc. do 6 f_equal.
  rewrite <-(ops_writeFunctionsV2_files rootDir (Functions a) order).
  - unfold ops_writeFunctionsV2, source_writes. simpl. f_equal.
    rewrite <-list_fmap_compose. apply Forall_fmap_ext_1, Forall_forall.
    by intros [k v] _.
  - intros k v Hin. by eapply canonical_order.
Qed.

Lemma avoids_before a X :
  X ∈ section_names →
  Forall (avoids X)
    (ops_writeSecrets (Secrets a) ++
     ops_writeEnvironments (Environments a) ++
     ops_writeValues (Values a) ++
     ops_writeGraphQL
       (match GraphQL a with Some g => g | None => GraphQLStructure_zero end) ++
     ops_writeServices (Services a)).
Proof.
  intros HX. rewrite !Forall_app. split_and!.
  - by apply ops_writeSecrets_sep.
  - by apply ops_writeEnvironments_sep.
  - by apply ops_writeValues_sep.
  - by apply ops_writeGraphQL_sep.
  - by apply ops_writeServices_sep.
Qed.

(** After a write of a canonical model into an empty directory, each
    section directory holds the files of its section and nothing else. *)
Lemma WriteData_realises rootDir a order t t' :
  canonical a → range_of (Functions a) order →
  Stat rootDir t = StatNode (Dir ∅) →
  WriteData rootDir a order t = (Ok tt, t') →
  kind_at rootDir t' = KDir ∧
  realises t' (rootDir ++ [NameFunctions]) false
    (files_of_functions (Functions a) order) ∧
  realises t' (rootDir ++ [NameAuth]) false (files_of_auth (Auth a)) ∧
  realises t' (rootDir ++ [NameSync]) false (files_of_sync (Sync a)) ∧
  realises t' (rootDir ++ [NameDataSources]) true
    (DataSources a ≫= files_of_data_source) ∧
  realises t' (rootDir ++ [NameHTTPEndpoints]) true
    (HTTPEndpoints a ≫= files_of_endpoint).
Proof.
  intros Hcan Hrange Hroot Hw.
  rewrite WriteData_ops in Hw. apply run_ops_Ok in Hw.
  rewrite (ops_WriteData_canonical _ _ _ Hcan Hrange) in Hw.
  split.
  { apply shape_KDir.
    rewrite (apply_ops_shape _ _ _ rootDir Hw);
      unfold kind_at; by rewrite Hroot. }
  split_and!; (eapply realises_section; [exact Hw|exact Hroot|..]).
  all: try (intros o; rewrite !elem_of_app; intros Ho; destruct_or!;
    first
      [ by right
      | left; eapply section_ops_outside; [|exact Ho]; done
      | left; eapply abstract_outside; [|exact Ho];
        first [ apply avoids_before | apply ops_writeTriggers_sep ];
        unfold section_names; set_solver ]).
  all: try (intros o Ho; rewrite !elem_of_app; by auto 10).
  - intros c [[? _]|(k & v & Hin & Hk & _)]%elem_of_files_of_functions; [done|].
    destruct (canonical_order _ _ _ _ Hcan Hrange Hin) as [_ ?]. congruence.
  - apply no_root_file_auth.
  - apply no_root_file_sync.
  - apply no_root_file_data_sources.
  - apply no_root_file_endpoints.
Qed.

(** Round trip.  Let the model be canonical: the auth and sync sections
    are not present-but-empty, every source key is the slash-separated
    relative path of a file with the source extension, the data sources,
    the rules of each (by database, then collection), the endpoints and the
    webhooks of each are in the strict order of their directory names, these
    names are plain directory names, the database and the collection of
    every rule are strings, every rule holds its schema (an object or null),
    and every webhook its source text.  Let the sections kept
    abstract write outside the directories of the sections of this file.
    Then after a write into an empty directory, the parsers of a load on the
    same directory return the auth, sync, data source and endpoint sections
    of the model, and its functions section with a nil section turned into
    the empty one; a load that returns holds these values in its fields. *)
Theorem round_trip_canonical (rootDir : path) (a : AppStructureV2)
    (order : list (string * string)) (t t' : node) :
  canonical a → range_of (Functions a) order →
  Stat rootDir t = StatNode (Dir ∅) →
  WriteData rootDir a order t = (Ok tt, t') →
  parseAuth rootDir t' = Ok (Auth a) ∧
  parseSync rootDir t' = Ok (Sync a) ∧
  parseFunctionsV2 rootDir t' = Ok (Some (functions_written (Functions a))) ∧
  parseDataSources rootDir t' = Ok (DataSources a) ∧
  parseHTTPEndpoints rootDir t' = Ok (HTTPEndpoints a) ∧
  ∀ a0 a',
    LoadData rootDir t' a0 = (Ok tt, a') →
    Auth a' = Auth a ∧ Sync a' = Sync a ∧
    Functions a' = Some (functions_written (Functions a)) ∧
    DataSources a' = DataSources a ∧ HTTPEndpoints a' = HTTPEndpoints a.
Proof.
  intros Hcan Hrange Hroot Hw.
  destruct (WriteData_realises _ _ _ _ _ Hcan Hrange Hroot Hw)
    as (Hdir & HF & HA & HS & HD & HE).
  destruct Hcan as (Hauth & Hsync & Hkeys & Hds & Hdsort & Heps & Hesort).
  pose proof (parseAuth_realises _ _ _ Hdir HA Hauth) as P1.
  pose proof (parseSync_realises _ _ _ Hdir HS Hsync) as P2.
  pose proof (parseFunctionsV2_realises _ _ _ _ HF Hrange Hkeys) as P3.
  pose proof (parseDataSources_realises _ _ _ HD Hds Hdsort) as P4.
  pose proof (parseHTTPEndpoints_realises _ _ _ HE Heps Hesort) as P5.
  split_and!; [done..|].
  intros a0 a' Hload.
  destruct (LoadData_Ok _ _ _ _ Hload) as (L1 & L2 & L3 & L4 & L5).
  rewrite P1 in L1. rewrite P2 in L2. rewrite P3 in L3. rewrite P4 in L4.
  rewrite P5 in L5. by simplify_eq.
Qed.

End RoundTrip.

(** The round trip needs its conditions: the data sources come back in the
    order of their directory names, not in the order of the model, and an
    auth section that is present without documents comes back absent. *)
Lemma order_of_data_sources_lost :
  let t' := (WriteData ["app"] unsorted_app [] empty_root).2 in
  (WriteData ["app"] unsorted_app [] empty_root).1 = Ok tt ∧
  DataSources unsorted_app = [ds_b; ds_a] ∧
  parseDataSources ["app"] t' = Ok [ds_a; ds_b] ∧
  (LoadData (H := no_sections) ["app"] t' empty_app).1 = Ok tt ∧
  DataSources (LoadData (H := no_sections) ["app"] t' empty_app).2 = [ds_a; ds_b] ∧
  Auth unsorted_app = Some {| CustomUserData := None; Providers := None |} ∧
  Auth (LoadData (H := no_sections) ["app"] t' empty_app).2 = None.
Proof. split_and!; vm_compute; reflexivity. Qed.

Lemma round_trip_canonical_witness :
  let order := [("util/f.js", "exports = 1")] in
  let t' := (WriteData ["app"] canonical_app order empty_root).2 in
  parseAuth ["app"] t' = Ok (Auth canonical_app) ∧
  parseSync ["app"] t' = Ok (Sync canonical_app) ∧
  parseFunctionsV2 ["app"] t'
  = Ok (Some (functions_written (Functions canonical_app))) ∧
  parseDataSources ["app"] t' = Ok (DataSources canonical_app) ∧
  parseHTTPEndpoints ["app"] t' = Ok (HTTPEndpoints canonical_app).
Proof.
  intros order t'.
  assert (Hseg : ∀ s, bool_decide (has_slash s = false ∧ s ≠ "" ∧ s ≠ "." ∧
                                   s ≠ "..") = true → seg_ok s).
  { intros s Hs. by apply bool_decide_eq_true_1 in Hs. }
  destruct (round_trip_canonical (H1 := no_sections_separate)
              ["app"] canonical_app order empty_root t')
    as (P1 & P2 & P3 & P4 & P5 & _).
  - split_and!.
    + exact I.
    + exact I.
    + intros k src Hk.
      change (({[ "util/f.js" := "exports = 1" ]} : gmap string string) !! k
              = Some src) in Hk.
      apply lookup_singleton_Some in Hk as [<- _].
      exists ["util"; "f.js"]. split_and!; [reflexivity|done| |reflexivity].
      apply Forall_cons. split; [by apply Hseg|].
      apply Forall_cons. split; [by apply Hseg|constructor].
    + apply Forall_cons. split; [|constructor].
      split_and!.
      * vm_compute. by eexists.
      * by apply Hseg.
      * apply Forall_cons. split; [|constructor]. split_and!.
        -- vm_compute. by eexists.
        -- vm_compute. by eexists.
        -- by apply Hseg.
        -- by apply Hseg.
        -- eexists. split; [reflexivity|]. right. by eexists.
      * repeat constructor.
    + repeat constructor.
    + apply Forall_cons. split; [|constructor].
      split_and!.
      * vm_compute. by eexists.
      * by apply Hseg.
      * apply Forall_cons. split; [|constructor]. split_and!.
        -- vm_compute. by eexists.
        -- vm_compute. by eexists.
        -- by apply Hseg.
      * repeat constructor.
    + repeat constructor.
  - unfold range_of. apply (bool_decide_unpack _). by vm_compute.
  - reflexivity.
  - vm_compute. reflexivity.
  - exact (conj P1 (conj P2 (conj P3 (conj P4 P5)))).
Defined.

(** ** [ConfigData] and what [LoadData] leaves alone *)

Lemma lookup_omitempty_string_ne k v (m : Document) k' :
  k' ≠ k → omitempty_string k v m !! k' = m !! k'.
Proof.
  intros Hne. unfold omitempty_string. case_decide; [done|].
  by rewrite lookup_insert_ne.
Qed.

Lemma lookup_omitempty_string_eq k v (m : Document) :
  m !! k = None →
  omitempty_string k v m !! k = if decide (v = "") then None else Some (JStr v).
Proof.
  intros Hm. unfold omitempty_string. case_decide; [done|].
  by rewrite lookup_insert_eq.
Qed.

Lemma lookup_omitempty_strings_ne k v (m : Document) k' :
  k' ≠ k → omitempty_strings k v m !! k' = m !! k'.
Proof.
  intros Hne. destruct v; [done|]. simpl. by rewrite lookup_insert_ne.
Qed.

Lemma lookup_omitempty_strings_eq k v (m : Document) :
  m !! k = None →
  omitempty_strings k v m !! k
  = match v with [] => None | _ => Some (JArr (JStr <$> v)) end.
Proof. intros Hm. destruct v; [done|]. simpl. by rewrite lookup_insert_eq. Qed.

Section ConfigDataFacts.
Context `{Sections}.

Ltac config_lookup :=
  unfold config_fields;
  repeat first
    [ rewrite lookup_omitempty_strings_ne by done
    | rewrite lookup_omitempty_string_ne by done
    | rewrite lookup_omitempty_strings_eq
    | rewrite lookup_omitempty_string_eq
    | rewrite lookup_insert_ne by done
    | rewrite lookup_insert_eq
    | rewrite lookup_empty ];
  try done.

Lemma config_fields_version a :
  config_fields a !! "config_version" = Some (JNum (ConfigVersion a)).
Proof. config_lookup. Qed.

Lemma config_fields_string a k (get : AppStructureV2 → string) :
  (k, get) ∈ [("app_id", ID); ("name", Name); ("location", Location);
              ("deployment_model", DeploymentModel);
              ("environment", Environment)] →
  config_fields a !! k
  = if decide (get a = "") then None else Some (JStr (get a)).
Proof.
  rewrite !elem_of_cons, elem_of_nil.
  intros [?|[?|[?|[?|[?|[]]]]]]; simplify_eq; config_lookup.
Qed.

Lemma config_fields_origins a :
  config_fields a !! "allowed_request_origins"
  = match AllowedRequestOrigins a with
    | [] => None
    | l => Some (JArr (JStr <$> l))
    end.
Proof. config_lookup. by destruct (AllowedRequestOrigins a). Qed.

Lemma omitted_string_inj (u v : string) :
  (if decide (u = "") then None else Some (JStr u))
  = (if decide (v = "") then None else Some (JStr v)) → u = v.
Proof. repeat case_decide; intros; by simplify_eq. Qed.

(** [ConfigData] holds the seven top-level fields and nothing of the
    sections: two models have the same configuration data exactly when they
    agree on the configuration version, the identifier, the name, the
    location, the deployment model, the environment and the allowed request
    origins. *)
Theorem ConfigData_determines (a b : AppStructureV2) :
  ConfigData a = ConfigData b ↔
  ConfigVersion a = ConfigVersion b ∧ ID a = ID b ∧ Name a = Name b ∧
  Location a = Location b ∧ DeploymentModel a = DeploymentModel b ∧
  Environment a = Environment b ∧
  AllowedRequestOrigins a = AllowedRequestOrigins b.
Proof.
  split.
  - intros Heq. injection Heq as Heq.
    assert (Hk : ∀ k, config_fields a !! k = config_fields b !! k)
      by (intros k; by rewrite Heq).
    assert (Hs : ∀ k get,
      (k, get) ∈ [("app_id", ID); ("name", Name); ("location", Location);
                  ("deployment_model", DeploymentModel);
                  ("environment", Environment)] → get a = get b).
    { intros k get Hin. apply omitted_string_inj.
      rewrite <-!(config_fields_string _ k get) by done. apply Hk. }
    split_and!.
    + pose proof (Hk "config_version") as Hv.
      rewrite !config_fields_version in Hv. by simplify_eq.
    + apply (Hs "app_id"). set_solver.
    + apply (Hs "name"). set_solver.
    + apply (Hs "location"). set_solver.
    + apply (Hs "deployment_model"). set_solver.
    + apply (Hs "environment"). set_solver.
    + pose proof (Hk "allowed_request_origins") as Hv.
      rewrite !config_fields_origins in Hv.
      assert (Inj (=) (=) JStr) by (by intros ?? [=]).
      apply (inj (fmap (M := list) JStr)).
      destruct (AllowedRequestOrigins a) as [|x l],
        (AllowedRequestOrigins b) as [|y l']; try done; congruence.
  - intros (Hv & Hi & Hn & Hl & Hd & He & Ho).
    unfold ConfigData, config_fields. by rewrite Hv, Hi, Hn, Hl, Hd, He, Ho.
Qed.

(** [LoadData] assigns sections only: whatever it returns, the receiver keeps
    its configuration data and its hosting document. *)
Theorem LoadData_keeps_config (rootDir : path) (t : node) (a : AppStructureV2) :
  ConfigData (LoadData rootDir t a).2 = ConfigData a ∧
  Hosting (LoadData rootDir t a).2 = Hosting a.
Proof.
  assert (ConfigVersion (LoadData rootDir t a).2 = ConfigVersion a ∧
          ID (LoadData rootDir t a).2 = ID a ∧
          Name (LoadData rootDir t a).2 = Name a ∧
          Location (LoadData rootDir t a).2 = Location a ∧
          DeploymentModel (LoadData rootDir t a).2 = DeploymentModel a ∧
          Environment (LoadData rootDir t a).2 = Environment a ∧
          AllowedRequestOrigins (LoadData rootDir t a).2
          = AllowedRequestOrigins a ∧
          Hosting (LoadData rootDir t a).2 = Hosting a) as Hall.
  { unfold LoadData, bind, lift, modify, ret.
    destruct (parseSecrets rootDir t); [|done].
    destruct (parseEnvironments rootDir t); [|done].
    destruct (parseJSONFiles (Join rootDir [NameValues]) t); [|done].
    destruct (parseAuth rootDir t); [|done].
    destruct (parseSync rootDir t); [|done].
    destruct (parseFunctionsV2 rootDir t); [|done].
    destruct (parseJSONFiles (Join rootDir [NameTriggers]) t); [|done].
    destruct (parseGraphQL rootDir t) as [[g []]|]; [| |done];
      (destruct (parseServices rootDir t); [|done]);
      (destruct (parseDataSources rootDir t); [|done]);
      (destruct (parseHTTPEndpoints rootDir t); done). }
  destruct Hall as (Hv & Hi & Hn & Hl & Hd & He & Ho & ?).
  split; [|done].
  unfold ConfigData, config_fields. by rewrite Hv, Hi, Hn, Hl, Hd, He, Ho.
Qed.

End ConfigDataFacts.

(** ** [LoadData]: reloading and failing *)

Section LoadDataFacts.
Context `{Sections}.
Ltac find_disjunct :=
  first [ reflexivity | left; reflexivity | right; find_disjunct ].

(** A load that returned can be repeated on its result and gives the same
    model.  The GraphQL section is the one field a load can leave as it was:
    it is assigned only when its parser reports the section as found. *)
Theorem LoadData_reload (rootDir : path) (t : node) (a a' : AppStructureV2) :
  LoadData rootDir t a = (Ok tt, a') →
  LoadData rootDir t a' = (Ok tt, a') ∧
  GraphQL a'
  = match parseGraphQL rootDir t with
    | Ok (g, true) => Some g
    | _ => GraphQL a
    end.
Proof.
  destruct a. unfold LoadData, bind, lift, modify, ret.
  destruct (parseSecrets rootDir t); [|intros [=]].
  destruct (parseEnvironments rootDir t); [|intros [=]].
  destruct (parseJSONFiles (Join rootDir [NameValues]) t); [|intros [=]].
  destruct (parseAuth rootDir t); [|intros [=]].
  destruct (parseSync rootDir t); [|intros [=]].
  destruct (parseFunctionsV2 rootDir t); [|intros [=]].
  destruct (parseJSONFiles (Join rootDir [NameTriggers]) t); [|intros [=]].
  destruct (parseGraphQL rootDir t) as [[? []]|]; [| |intros [=]].
  all: destruct (parseServices rootDir t); [|intros [=]].
  all: destruct (parseDataSources rootDir t); [|intros [=]].
  all: destruct (parseHTTPEndpoints rootDir t); [|intros [=]].
  all: vm_compute; intros [= <-]; vm_compute; split; reflexivity.
Qed.

(** A load that fails returns the error of one of its parsers as it is, and
    has not assigned the section that is loaded last. *)
Theorem LoadData_error (rootDir : path) (t : node) (a a' : AppStructureV2)
    (e : error) :
  LoadData rootDir t a = (Err e, a') →
  HTTPEndpoints a' = HTTPEndpoints a ∧
  (parseSecrets rootDir t = Err e ∨ parseEnvironments rootDir t = Err e ∨
   parseJSONFiles (Join rootDir [NameValues]) t = Err e ∨
   parseAuth rootDir t = Err e ∨ parseSync rootDir t = Err e ∨
   parseFunctionsV2 rootDir t = Err e ∨
   parseJSONFiles (Join rootDir [NameTriggers]) t = Err e ∨
   parseGraphQL rootDir t = Err e ∨ parseServices rootDir t = Err e ∨
   parseDataSources rootDir t = Err e ∨ parseHTTPEndpoints rootDir t = Err e).
Proof.
  unfold LoadData, bind, lift, modify, ret.
  assert (Hfail : ∀ (b : AppStructureV2) (e0 : error) (P : Prop),
            HTTPEndpoints b = HTTPEndpoints a → (e0 = e → P) →
            ((Err e0 : result unit), b) = (Err e, a') →
            HTTPEndpoints a' = HTTPEndpoints a ∧ P).
  { intros b e0 P Hb HP [= -> <-]. split; [done|by apply HP]. }
  destruct (parseSecrets rootDir t);
    [|apply Hfail; [reflexivity|intros ->; find_disjunct]].
  destruct (parseEnvironments rootDir t);
    [|apply Hfail; [reflexivity|intros ->; find_disjunct]].
  destruct (parseJSONFiles (Join rootDir [NameValues]) t);
    [|apply Hfail; [reflexivity|intros ->; find_disjunct]].
  destruct (parseAuth rootDir t);
    [|apply Hfail; [reflexivity|intros ->; find_disjunct]].
  destruct (parseSync rootDir t);
    [|apply Hfail; [reflexivity|intros ->; find_disjunct]].
  destruct (parseFunctionsV2 rootDir t);
    [|apply Hfail; [reflexivity|intros ->; find_disjunct]].
  destruct (parseJSONFiles (Join rootDir [NameTriggers]) t);
    [|apply Hfail; [reflexivity|intros ->; find_disjunct]].
  destruct (parseGraphQL rootDir t) as [[? []]|];
    [| |apply Hfail; [reflexivity|intros ->; find_disjunct]].
  all: destruct (parseServices rootDir t);
    [|apply Hfail; [reflexivity|intros ->; find_disjunct]].
  all: destruct (parseDataSources rootDir t);
    [|apply Hfail; [reflexivity|intros ->; find_disjunct]].
  all: destruct (parseHTTPEndpoints rootDir t);
    [|apply Hfail; [reflexivity|intros ->; find_disjunct]].
  all: intros [=].
Qed.
End LoadDataFacts.

Lemma LoadData_reload_witness :
  let a' := (LoadData (H := no_sections) [] spec_tree empty_app).2 in
  LoadData [] spec_tree a' = (Ok tt, a') ∧ GraphQL a' = None.
Proof.
  intros a'. apply (LoadData_reload [] spec_tree empty_app a').
  vm_compute. reflexivity.
Defined.

Lemma LoadData_error_witness :
  HTTPEndpoints (LoadData (H := no_sections) ["app"] file_root empty_app).2
  = HTTPEndpoints (empty_app (H := no_sections)).
Proof.
  refine (proj1 (LoadData_error ["app"] file_root empty_app _
                   (ErrNotDir ["app"; "auth"]) _)).
  vm_compute. reflexivity.
Defined.

(** ** What the writers never do *)

Lemma run_ops_prefix l t r t' :
  run_ops l t = (r, t') → ∃ l1, l1 `prefix_of` l ∧ apply_ops l1 t = Some t'.
Proof.
  revert t. induction l as [|o l IH]; intros t Hrun.
  { rewrite run_ops_nil in Hrun. exists []. by simplify_eq. }
  rewrite run_ops_cons in Hrun. unfold bind in Hrun.
  destruct (run_op o t) as [[[]|e] t1] eqn:Ho.
  - apply run_op_Ok in Ho. destruct (IH _ Hrun) as (l1 & Hpre & Ha).
    exists (o :: l1). split; [by apply prefix_cons|]. simpl. by rewrite Ho.
  - apply run_op_Err in Ho as [-> _]. exists []. split; [apply prefix_nil|].
    by simplify_eq.
Qed.

Lemma apply_ops_keeps_entries l t t' :
  apply_ops l t = Some t' → keeps_entries t t'.
Proof.
  intros Ha q. split.
  - intros es Hs. apply kind_at_Dir, shape_KDir.
    rewrite (apply_ops_shape _ _ _ q Ha); unfold kind_at; by rewrite Hs.
  - intros c Hs.
    assert (shape (kind_at q t') = 1) as Hsh.
    { rewrite (apply_ops_shape _ _ _ q Ha); unfold kind_at; by rewrite Hs. }
    destruct (kind_at q t') as [|c'|] eqn:Hk; [done| |done].
    exists c'. by apply kind_at_File.
Qed.

Lemma run_ops_keeps_entries l t r t' :
  run_ops l t = (r, t') → keeps_entries t t'.
Proof.
  intros (l1 & _ & Ha)%run_ops_prefix. by eapply apply_ops_keeps_entries.
Qed.

(** Whether it returns or fails, a section writer removes nothing and turns
    no file into a directory or a directory into a file: every entry the
    tree had is still there, of the same kind. *)
Theorem writers_keep_entries (rootDir : path) (t : node) :
  (∀ functions order r t',
     writeFunctionsV2 rootDir functions order t = (r, t') → keeps_entries t t') ∧
  (∀ auth r t', writeAuth rootDir auth t = (r, t') → keeps_entries t t') ∧
  (∀ sync r t', writeSync rootDir sync t = (r, t') → keeps_entries t t') ∧
  (∀ dss r t', writeDataSources rootDir dss t = (r, t') → keeps_entries t t') ∧
  (∀ eps r t', writeHTTPEndpoints rootDir eps t = (r, t') → keeps_entries t t').
Proof.
  split_and!; intros ? *.
  - rewrite writeFunctionsV2_ops. apply run_ops_keeps_entries.
  - rewrite writeAuth_ops. apply run_ops_keeps_entries.
  - rewrite writeSync_ops. apply run_ops_keeps_entries.
  - rewrite writeDataSources_ops. apply run_ops_keeps_entries.
  - rewrite writeHTTPEndpoints_ops. apply run_ops_keeps_entries.
Qed.

Section Containment.
Context `{ScriptedSections}.

(** When no name of the model climbs with [..], [WriteData] stays below its
    root directory: whether it returns or fails, every path that neither
    leads to the root directory nor lies below it is what it was, and no
    entry of the tree is removed or changes kind. *)
Theorem WriteData_contained (rootDir : path) (a : AppStructureV2)
    (order : list (string * string)) (t t' : node) (r : result unit) :
  plain_names a → range_of (Functions a) order →
  WriteData rootDir a order t = (r, t') →
  keeps_entries t t' ∧
  ∀ q, ¬ rootDir `prefix_of` q → ¬ q `prefix_of` rootDir →
       kind_at q t' = kind_at q t.
Proof.
  intros Hplain Hrange Hw. rewrite WriteData_ops in Hw.
  split; [by eapply run_ops_keeps_entries|].
  intros q Hq1 Hq2.
  apply run_ops_prefix in Hw as (l1 & Hpre & Ha).
  destruct (ops_WriteData_under rootDir a order Hplain Hrange) as [Heq _].
  assert (Hout : ∀ o, o ∈ l1 → ¬ touches o q).
  { intros o Ho Ht. destruct Hpre as [l2 Hl].
    assert (o ∈ ops_WriteData rootDir a order) as Hin.
    { rewrite Hl. apply elem_of_app. by left. }
    rewrite Heq in Hin. apply list_elem_of_fmap in Hin as (o0 & -> & _).
    destruct o0 as [p|p c|e]; simpl in Ht; [| |done].
    - by destruct (prefix_weak_total _ _ _ Ht
                     (prefix_app_r rootDir rootDir p (reflexivity _))).
    - by destruct (prefix_weak_total _ _ _ Ht
                     (prefix_app_r rootDir rootDir p (reflexivity _))). }
  destruct (apply_ops_kind_inv _ _ _ q Ha)
    as [?|[[_ (o & Ho & Ht)]|(c & _ & Ho)]]; [done| |].
  - by apply Hout in Ht.
  - exfalso. apply (Hout _ Ho). simpl. done.
Qed.

End Containment.

(** ** The sync section on any tree *)

(** Writing a sync section that holds a configuration, into any tree where
    the write returns, and parsing the section back gives the section; a
    sync section without a configuration is written as nothing at all, so
    the parser finds what it found before. *)
Theorem writeSync_parseSync (rootDir : path) (t : node) :
  (∀ config t',
     writeSync rootDir (Some {| Sync_Config := Some config |}) t = (Ok tt, t') →
     parseSync rootDir t' = Ok (Some {| Sync_Config := Some config |})) ∧
  (∀ r t',
     writeSync rootDir (Some {| Sync_Config := None |}) t = (r, t') →
     r = Ok tt ∧ parseSync rootDir t' = parseSync rootDir t).
Proof.
  split.
  - intros config t' Hw. unfold writeSync in Hw. simpl in Hw.
    apply WriteFile_Ok in Hw. rewrite Join_NameSync_FileConfig in Hw.
    unfold parseSync.
    rewrite (Join_segs _ [NameSync]), Join_FileConfig
      by (repeat constructor; apply seg_ok_section_names).
    set (dir := rootDir ++ [NameSync]).
    assert (Hf : Stat (dir ++ [FileConfig]) t'
                 = StatNode (File (MarshalJSON (doc_json (Some config))))).
    { unfold dir. by rewrite <-app_assoc. }
    pose proof Hf as Hf2. rewrite Stat_app in Hf2.
    destruct (Stat dir t') as [n| |] eqn:Hdir; [|done..].
    unfold parseJSON. by rewrite Hf.
  - intros r t' Hw. unfold writeSync in Hw. simpl in Hw.
    unfold ret in Hw. by simplify_eq.
Qed.

(** ** Names that collide *)






(** ** The order of what the parsers return *)

Lemma fold_result_collect {A B} (step : A → list B → result (list B))
    (g : A → result B) l acc out :
  (∀ x acc, step x acc = let* y := g x in Ok (acc ++ [y])) →
  fold_result step l acc = Ok out →
  ∃ ys, out = acc ++ ys ∧ Forall2 (λ x y, g x = Ok y) l ys.
Proof.
  intros Hstep. revert acc. induction l as [|x l IH]; intros acc Hf.
  { simpl in Hf. exists []. rewrite app_nil_r. split; [congruence|constructor]. }
  cbn [fold_result] in Hf. rewrite Hstep in Hf.
  destruct (g x) as [y|e] eqn:Hg; [|done]. cbn [rbind] in Hf.
  destruct (IH _ Hf) as (ys & -> & Hys). exists (y :: ys).
  split; [by rewrite <-app_assoc|by constructor].
Qed.

Lemma dw_walk_subdirs {A} t p es (fn : node → path → A → result A) acc :
  Stat p t = StatNode (Dir es) →
  (∀ f1 f2 q a, fn f1 q a = fn f2 q a) →
  dw_walk t p true fn acc
  = fold_result (λ name, fn (Dir ∅) (p ++ [name])) (subdirs es) acc.
Proof.
  intros Hes Hfn. unfold dw_walk, subdirs. rewrite Hes.
  apply fold_result_filter.
  - intros x a Hx. destruct (es !! x) as [[]|]; simplify_eq/=. apply Hfn.
  - intros x a Hx. destruct (es !! x) as [[]|]; simpl in *; done.
Qed.

(** The data sources and the endpoints a parser returns are one for each
    directory of the section directory, in the order of the directory
    names; each holds the configuration file of its directory and what the
    walk below it collects.  The name field of a configuration plays no
    part. *)
Theorem parsers_follow_directory_names (rootDir : path) (t : node)
    (es : gmap string node) :
  (StronglySorted str_lt (subdirs es) ∧
   ∀ name, name ∈ subdirs es ↔ ∃ es', es !! name = Some (Dir es')) ∧
  (∀ out,
     let dir := Join rootDir [NameDataSources] in
     Stat dir t = StatNode (Dir es) →
     parseDataSources rootDir t = Ok out →
     Forall2 (λ name ds,
        parseJSON (Join (dir ++ [name]) [FileConfig]) t
        = Ok (DataSource_Config ds) ∧
        dw_walk t (dir ++ [name]) true (visitDB t) [] = Ok (Rules ds))
       (subdirs es) out) ∧
  (∀ out,
     let dir := Join rootDir [NameHTTPEndpoints] in
     Stat dir t = StatNode (Dir es) →
     parseHTTPEndpoints rootDir t = Ok out →
     Forall2 (λ name ep,
        parseJSON (Join (dir ++ [name]) [FileConfig]) t
        = Ok (HTTPEndpoint_Config ep) ∧
        parseFunctions (Join (dir ++ [name]) []) t = Ok (IncomingWebhooks ep))
       (subdirs es) out).
Proof.
  split_and!; [| |intros out dir Hdir Hp..].
  - apply StronglySorted_filter, StronglySorted_ReadDir.
  - intros name. unfold subdirs.
    rewrite list_elem_of_filter, elem_of_ReadDir. split.
    + intros [Hd _]. destruct (es !! name) as [[|es']|]; simplify_eq/=.
      by eauto.
    + intros [es' ->]. split; [done|by eauto].
  - unfold parseDataSources in Hp. fold dir in Hp.
    rewrite (dw_walk_subdirs _ _ es) in Hp by done.
    apply (fold_result_collect _
      (λ name,
         let* config := parseJSON (Join (dir ++ [name]) [FileConfig]) t in
         let* rules := dw_walk t (dir ++ [name]) true (visitDB t) [] in
         Ok {| DataSource_Config := config; Rules := rules |})) in Hp
      as (ys & -> & Hys).
    + simpl. eapply Forall2_impl; [exact Hys|]. intros name ds Hg. simpl in Hg.
      destruct (parseJSON _ t); [|done]. simpl in Hg.
      destruct (dw_walk _ _ _ _ _); [|done]. simpl in Hg. by simplify_eq.
    + intros name acc. unfold visitDataSource.
      destruct (parseJSON _ t); [|done]. simpl.
      by destruct (dw_walk _ _ _ _ _).
  - unfold parseHTTPEndpoints in Hp. fold dir in Hp.
    rewrite (dw_walk_subdirs _ _ es) in Hp by done.
    apply (fold_result_collect _
      (λ name,
         let* config := parseJSON (Join (dir ++ [name]) [FileConfig]) t in
         let* webhooks := parseFunctions (Join (dir ++ [name]) []) t in
         Ok {| HTTPEndpoint_Config := config; IncomingWebhooks := webhooks |}))
      in Hp as (ys & -> & Hys).
    + simpl. eapply Forall2_impl; [exact Hys|]. intros name ep Hg. simpl in Hg.
      destruct (parseJSON _ t); [|done]. simpl in Hg.
      destruct (parseFunctions _ t); [|done]. simpl in Hg. by simplify_eq.
    + intros name acc. unfold visitHTTPEndpoint.
      destruct (parseJSON _ t); [|done]. simpl.
      by destruct (parseFunctions _ t).
Qed.

Lemma parsers_follow_directory_names_witness :
  Forall2 (λ name ds,
     parseJSON (Join (Join [] [NameDataSources] ++ [name]) [FileConfig])
       spec_tree
     = Ok (DataSource_Config ds) ∧
     dw_walk spec_tree (Join [] [NameDataSources] ++ [name]) true
       (visitDB spec_tree) []
     = Ok (Rules ds))
    (subdirs {[ "ds1" :=
       Dir {[ "db1" :=
         Dir {[ "coll1" :=
           Dir {[ "rules.json" := File (JSONText (JObj spec_rule));
                  "schema.json" := File (JSONText (JObj spec_schema)) ]} ]} ]} ]})
    [{| DataSource_Config := None;
        Rules := [Some (<[NameSchema := JObj spec_schema]> spec_rule)] |}].
Proof.
  apply (proj1 (proj2 (parsers_follow_directory_names [] spec_tree _))).
  - reflexivity.
  - vm_compute. reflexivity.
Defined.

(** ** A model that cannot be written *)

Lemma bind_fails_r {S A B} (m : St S A) (k : A → St S B) s :
  (∀ a s, ∃ e s', k a s = (Err e, s')) → ∃ e s', bind m k s = (Err e, s').
Proof.
  intros Hk. unfold bind. destruct (m s) as [[a|e] s1]; [apply Hk|by eauto].
Qed.

Lemma bind_fails_l {S A B} (m : St S A) (k : A → St S B) s :
  (∃ e s', m s = (Err e, s')) → ∃ e s', bind m k s = (Err e, s').
Proof. intros (e & s' & Hm). unfold bind. rewrite Hm. by eauto. Qed.

Lemma writeDataSources_unnamed rootDir dss t :
  Exists (λ ds, as_string (index (DataSource_Config ds) "name") = None) dss →
  ∃ e t', writeDataSources rootDir dss t = (Err e, t').
Proof.
  intros Hex. unfold writeDataSources. apply bind_fails_r. intros _ s.
  apply for_each_Exists_Err. eapply Exists_impl; [done|].
  intros ds Hn s'. unfold writeDataSource. rewrite Hn. unfold fail. by eauto.
Qed.

Lemma writeHTTPEndpoints_unnamed rootDir eps t :
  Exists (λ ep,
    as_string (index (HTTPEndpoint_Config ep) "name") = None ∨
    Exists (λ webhook,
      as_string (index webhook "name") = None ∨
      as_string (index webhook NameSource) = None)
      (IncomingWebhooks ep)) eps →
  ∃ e t', writeHTTPEndpoints rootDir eps t = (Err e, t').
Proof.
  intros Hex. unfold writeHTTPEndpoints. apply bind_fails_r. intros _ s.
  apply for_each_Exists_Err. eapply Exists_impl; [done|].
  intros ep [Hn|Hw] s'; unfold writeHTTPEndpoint.
  { rewrite Hn. unfold fail. by eauto. }
  destruct (as_string _) as [name|]; [|unfold fail; by eauto].
  apply bind_fails_r. intros _ s''.
  apply for_each_Exists_Err. eapply Exists_impl; [done|].
  intros webhook Hn s1. unfold writeWebhook, fail.
  destruct Hn as [Hn|Hn].
  - destruct (as_string (index webhook NameSource)); [rewrite Hn|]; by eauto.
  - rewrite Hn. by eauto.
Qed.

Section Rejection.
Context `{Sections}.

(** A model with a data source or an endpoint that has no name, or a webhook
    that has no name or no source text, is never written: on every tree, and
    whatever the other sections do, [WriteData] returns an error. *)
Theorem WriteData_rejects_unnamed (rootDir : path) (a : AppStructureV2)
    (order : list (string * string)) (t : node) :
  Exists (λ ds, as_string (index (DataSource_Config ds) "name") = None)
    (DataSources a) ∨
  Exists (λ ep,
    as_string (index (HTTPEndpoint_Config ep) "name") = None ∨
    Exists (λ webhook,
      as_string (index webhook "name") = None ∨
      as_string (index webhook NameSource) = None)
      (IncomingWebhooks ep)) (HTTPEndpoints a) →
  ∃ e t', WriteData rootDir a order t = (Err e, t').
Proof.
  intros Hbad. unfold WriteData.
  do 8 (apply bind_fails_r; intros _ ?).
  destruct Hbad as [Hds|Hep].
  - apply bind_fails_l. by apply writeDataSources_unnamed.
  - apply bind_fails_r. intros _ ?.
    apply bind_fails_l. by apply writeHTTPEndpoints_unnamed.
Qed.

End Rejection.

Lemma WriteData_rejects_unnamed_witness :
  ∃ e t',
    WriteData (H := no_sections) ["app"]
      (set_DataSources [ds_nameless] empty_app) [] empty_root = (Err e, t').
Proof.
  apply WriteData_rejects_unnamed. left. constructor. reflexivity.
Defined.

Lemma WriteData_contained_witness :
  kind_at ["p"; "r2"] (WriteData (H := no_sections) ["r1"] empty_app [] two_roots).2
  = kind_at ["p"; "r2"] two_roots.
Proof.
  refine (proj2 (WriteData_contained (H0 := no_sections_scripted)
                   ["r1"] empty_app [] two_roots _ _ _ _ _) ["p"; "r2"] _ _).
  - split_and!; [|constructor..]. intros k src Hk. done.
  - unfold range_of. apply (bool_decide_unpack _). by vm_compute.
  - apply surjective_pairing.
  - intros [k Hk]. done.
  - intros [k Hk]. done.
Defined.

(** ** What a write always leaves *)

Lemma apply_ops_made ops t t' p :
  apply_ops ops t = Some t' → OpMkdirAll p ∈ ops → kind_at p t' = KDir.
Proof.
  revert t. induction ops as [|o ops IH]; intros t Ha Hin.
  { by apply elem_of_nil in Hin. }
  simpl in Ha. destruct (apply_op o t) as [t1|] eqn:Ho; [|done]. simpl in Ha.
  apply elem_of_cons in Hin as [<-|Hin]; [|by eapply IH].
  assert (kind_at p t1 = KDir) as H1.
  { rewrite (apply_op_kind _ _ _ _ Ho). by rewrite decide_True. }
  apply shape_KDir. rewrite (apply_ops_shape _ _ _ p Ha); by rewrite H1.
Qed.

Section AlwaysPresent.
Context `{ScriptedSections}.

(** After a write that returned, the directories of the data sources and of
    the endpoints exist, and so does the configuration file of the
    functions, whatever the model holds: also for a model without data
    sources, without endpoints and with a nil functions section. *)
Theorem WriteData_always_present (rootDir : path) (a : AppStructureV2)
    (order : list (string * string)) (t t' : node) :
  WriteData rootDir a order t = (Ok tt, t') →
  (∃ es, Stat (Join rootDir [NameDataSources]) t' = StatNode (Dir es)) ∧
  (∃ es, Stat (Join rootDir [NameHTTPEndpoints]) t' = StatNode (Dir es)) ∧
  (∃ c, Stat (Join (Join rootDir [NameFunctions]) [FileConfig]) t'
        = StatNode (File c)).
Proof.
  intros Hw. rewrite WriteData_ops in Hw. apply run_ops_Ok in Hw.
  unfold ops_WriteData, ops_before_sources, ops_after_sources in Hw.
  split_and!.
  - apply kind_at_Dir, (apply_ops_made _ _ _ _ Hw).
    rewrite !elem_of_app. right. right. right. right. left.
    unfold ops_writeDataSources. left.
  - apply kind_at_Dir, (apply_ops_made _ _ _ _ Hw).
    rewrite !elem_of_app. right. right. right. right. right. left.
    unfold ops_writeHTTPEndpoints. left.
  - destruct (apply_ops_written _ _ _
                (Join (Join rootDir [NameFunctions]) [FileConfig])
                (MarshalJSON (docs_json
                   (match Functions a with Some f => Configs f | None => [] end)))
                Hw) as (c' & Hk & _).
    + rewrite !elem_of_app. left. right. left.
    + exists c'. by apply kind_at_File.
Qed.

End AlwaysPresent.

Lemma WriteData_always_present_witness :
  ∃ es,
    Stat (Join ["app"] [NameDataSources])
      (WriteData (H := no_sections) ["app"] empty_app [] empty_root).2
    = StatNode (Dir es).
Proof.
  refine (proj1 (WriteData_always_present (H0 := no_sections_scripted)
                   ["app"] empty_app [] empty_root _ _)).
  vm_compute. reflexivity.
Defined.
